(** * Text-to-flowchart front-end: parsing and layout rules

    The repository holds three alternative implementations of one screen
    that turns a process description into a flowchart:

    - [Simple]   : src/src/App.tsx, the interactive-diagram variant;
    - [Editable] : the first program of src/unnamed/part_000
                   ([FlowchartApp]), the same with editable and deletable
                   nodes;
    - [Svg]      : the second program of src/unnamed/part_000, which paints
                   static inline vector graphics.

    How the programs are modelled:

    - a JavaScript string is the sequence of its UTF-16 code units, a
      [list N]; the string methods and the regular expressions of the
      source are functions on such lists ([JS], [Regex]);
    - component state held through React's [useState] is a record, and a
      function that calls the setters is a function from state to state;
    - an async handler awaits at most one network request: it is a value
      of [Handler], which either is done or waits for the outcome of the
      request, and the outcome is an argument of what follows;
    - numbers are integers throughout (the only divisions halve even
      numbers), so coordinates are in [Z] and indices and lengths in
      [nat]. *)

From Stdlib Require Import ZArith NArith List Bool Lia String Ascii DecimalNat.
From stdpp Require Import base tactics option list numbers.

Local Open Scope N_scope.

(** ** JavaScript strings *)

Abbreviation jsstring := (list N).

Module JS.

(** String literals of the source.  The literal is written here in
    UTF-8, as in the source file, and decoded into UTF-16 code units (all
    literals of the source lie in the Basic Multilingual Plane, where a
    character takes at most three bytes and is one code unit). *)
Fixpoint utf16 (bytes : list N) : jsstring :=
  match bytes with
  | [] => []
  | b0 :: rest =>
      if b0 <? 0x80 then b0 :: utf16 rest
      else if b0 <? 0xE0 then
        match rest with
        | b1 :: rest' => ((b0 - 0xC0) * 64 + (b1 - 0x80)) :: utf16 rest'
        | [] => []
        end
      else
        match rest with
        | b1 :: b2 :: rest' =>
            ((b0 - 0xE0) * 4096 + (b1 - 0x80) * 64 + (b2 - 0x80))
              :: utf16 rest'
        | _ => []
        end
  end.

Definition str (s : string) : jsstring :=
  utf16 (map N_of_ascii (list_ascii_of_string s)).

(** Template-literal rendering of an array index, [`${index}`]: its
    decimal digits. *)
Fixpoint digits (d : Decimal.uint) : jsstring :=
  match d with
  | Decimal.Nil => []
  | Decimal.D0 d' => 0x30 :: digits d'
  | Decimal.D1 d' => 0x31 :: digits d'
  | Decimal.D2 d' => 0x32 :: digits d'
  | Decimal.D3 d' => 0x33 :: digits d'
  | Decimal.D4 d' => 0x34 :: digits d'
  | Decimal.D5 d' => 0x35 :: digits d'
  | Decimal.D6 d' => 0x36 :: digits d'
  | Decimal.D7 d' => 0x37 :: digits d'
  | Decimal.D8 d' => 0x38 :: digits d'
  | Decimal.D9 d' => 0x39 :: digits d'
  end.

Definition num (n : nat) : jsstring := digits (Nat.to_uint n).

Arguments str : simpl never.
Arguments num : simpl never.

(** ECMAScript WhiteSpace and LineTerminator code points: the characters
    removed by [String.prototype.trim] and matched by [\s]. *)
Definition isLineTerminator (c : N) : bool :=
  (c =? 0xA) || (c =? 0xD) || (c =? 0x2028) || (c =? 0x2029).

Definition isWhiteSpace (c : N) : bool :=
  (c =? 0x9) || (c =? 0xB) || (c =? 0xC) || (c =? 0x20) || (c =? 0xA0)
  || (c =? 0x1680) || ((0x2000 <=? c) && (c <=? 0x200A))
  || (c =? 0x202F) || (c =? 0x205F) || (c =? 0x3000) || (c =? 0xFEFF)
  || isLineTerminator c.

(** [\d] *)
Definition isDigit (c : N) : bool := (0x30 <=? c) && (c <=? 0x39).

(** [.] without the s flag *)
Definition isDot (c : N) : bool := negb (isLineTerminator c).

Fixpoint trimStart (s : jsstring) : jsstring :=
  match s with
  | c :: s' => if isWhiteSpace c then trimStart s' else s
  | [] => []
  end.

Definition trimEnd (s : jsstring) : jsstring := rev (trimStart (rev s)).

Definition trim (s : jsstring) : jsstring := trimEnd (trimStart s).

(** [s.split(sep)] for a separator that is one character, generalised to
    a class of separator characters (a character-class regular
    expression such as [/[•*-]/]).  The result is never empty. *)
Fixpoint splitBy (sep : N -> bool) (s : jsstring) : list jsstring :=
  match s with
  | [] => [[]]
  | c :: s' =>
      if sep c then [] :: splitBy sep s'
      else match splitBy sep s' with
           | seg :: segs => (c :: seg) :: segs
           | [] => [[c]]
           end
  end.

Definition split (sep : N) (s : jsstring) : list jsstring :=
  splitBy (N.eqb sep) s.

(** [s.includes(c)] for a one-character needle. *)
Definition includesChar (c : N) (s : jsstring) : bool :=
  existsb (N.eqb c) s.

Fixpoint startsWith (p s : jsstring) : bool :=
  match p, s with
  | [], _ => true
  | a :: p', b :: s' => (a =? b) && startsWith p' s'
  | _ :: _, [] => false
  end.

(** [s.includes(p)] *)
Fixpoint includes (p s : jsstring) : bool :=
  startsWith p s ||
  match s with
  | [] => false
  | _ :: s' => includes p s'
  end.

(** Truthiness of a string: [Boolean(s)], i.e. [s.length > 0]. *)
Definition truthy (s : jsstring) : bool :=
  match s with [] => false | _ => true end.

(** [.filter(Boolean).map(s => s.trim()).filter(s => s.length > 0)] *)
Definition cleanSegments (segs : list jsstring) : list jsstring :=
  List.filter truthy (map trim (List.filter truthy segs)).

(** Case mapping of one code unit, restricted to Basic Latin and
    Cyrillic, the two scripts the patterns of the program are written
    in. *)
Definition toUpperCaseUnit (c : N) : N :=
  if (0x61 <=? c) && (c <=? 0x7A) then c - 0x20
  else if (0x430 <=? c) && (c <=? 0x44F) then c - 0x20
  else if (0x450 <=? c) && (c <=? 0x45F) then c - 0x50
  else if c =? 0x1C80 then 0x412
  else if c =? 0x1C81 then 0x414
  else if c =? 0x1C82 then 0x41E
  else if c =? 0x1C83 then 0x421
  else if (c =? 0x1C84) || (c =? 0x1C85) then 0x422
  else if c =? 0x1C86 then 0x42A
  else if c =? 0x1C87 then 0x462
  else if c =? 0x1C88 then 0xA64A
  else c.

Definition toLowerCaseUnit (c : N) : N :=
  if (0x41 <=? c) && (c <=? 0x5A) then c + 0x20
  else if (0x410 <=? c) && (c <=? 0x42F) then c + 0x20
  else if (0x400 <=? c) && (c <=? 0x40F) then c + 0x50
  else c.

Definition toLowerCase (s : jsstring) : jsstring := map toLowerCaseUnit s.

(** Canonicalize of the regular-expression semantics under the i flag
    (without the u flag): upper-case the code unit, but never map a
    non-ASCII unit to an ASCII one. *)
Definition canonicalize (c : N) : N :=
  let cu := toUpperCaseUnit c in
  if (128 <=? c) && (cu <? 128) then c else cu.

End JS.

(** ** Regular expressions

    The fragment of the ECMAScript pattern language the source uses:
    character classes, greedy [*] and [+] over a class, concatenation,
    alternation, capturing groups and [$].  Matching is the backtracking
    search of the language definition, written in continuation-passing
    style: alternatives are tried left to right and a quantifier gives
    characters back one at a time. *)

Module Regex.
Import JS.

Inductive regex : Type :=
| Eps
| Chr (c : N -> bool)
| Star (c : N -> bool)
| Plus (c : N -> bool)
| Cat (r1 r2 : regex)
| Alt (r1 r2 : regex)
| Grp (r : regex)
| Eol.

Section Matcher.
Context {A : Type}.

Fixpoint star (c : N -> bool) (s : jsstring) (k : jsstring -> option A)
  : option A :=
  match s with
  | x :: s' =>
      if c x then
        match star c s' k with
        | Some a => Some a
        | None => k s
        end
      else k s
  | [] => k s
  end.

(** [rmatch r s caps k] matches [r] at the head of [s]; [k] receives
    the rest of the input and the captures closed so far.  Captures are
    listed in the order the groups close, which is the order of their
    numbers in every pattern of the source. *)
Fixpoint rmatch (r : regex) (s : jsstring) (caps : list jsstring)
    (k : jsstring -> list jsstring -> option A) : option A :=
  match r with
  | Eps => k s caps
  | Chr c =>
      match s with
      | x :: s' => if c x then k s' caps else None
      | [] => None
      end
  | Star c => star c s (fun s' => k s' caps)
  | Plus c =>
      match s with
      | x :: s' => if c x then star c s' (fun s'' => k s'' caps) else None
      | [] => None
      end
  | Cat r1 r2 => rmatch r1 s caps (fun s' caps' => rmatch r2 s' caps' k)
  | Alt r1 r2 =>
      match rmatch r1 s caps k with
      | Some a => Some a
      | None => rmatch r2 s caps k
      end
  | Grp r1 =>
      rmatch r1 s caps
        (fun s' caps' => k s' (caps' ++ [take (length s - length s') s]))
  | Eol =>
      match s with
      | [] => k s caps
      | _ :: _ => None
      end
  end.
End Matcher.

(** The result of a successful match: the matched text ([match[0]]) and
    the captures ([match[1]], [match[2]], ...). *)
Definition matchAt (r : regex) (s : jsstring)
  : option (jsstring * list jsstring) :=
  rmatch r s [] (fun s' caps => Some (take (length s - length s') s, caps)).

(** Leftmost match: the index it starts at and the match. *)
Fixpoint searchFrom (r : regex) (i : nat) (s : jsstring)
  : option (nat * (jsstring * list jsstring)) :=
  match matchAt r s with
  | Some m => Some (i, m)
  | None =>
      match s with
      | [] => None
      | _ :: s' => searchFrom r (S i) s'
      end
  end.

Definition search (r : regex) (s : jsstring) := searchFrom r 0 s.

(** [re.test(s)] *)
Definition test (r : regex) (s : jsstring) : bool :=
  match search r s with Some _ => true | None => false end.

(** [s.replace(re, repl)] without the g flag: the leftmost match only. *)
Definition replace (r : regex) (repl s : jsstring) : jsstring :=
  match search r s with
  | Some (i, (m, _)) => take i s ++ repl ++ drop (i + length m) s
  | None => s
  end.

(** [s.replace(re, repl)] with the g flag.  [skip] counts the characters
    of the current match still to be dropped. *)
Fixpoint replaceAllFrom (r : regex) (repl s : jsstring) (skip : nat)
  : jsstring :=
  match s with
  | [] =>
      match skip, matchAt r [] with
      | O, Some _ => repl
      | _, _ => []
      end
  | c :: s' =>
      match skip with
      | S n => replaceAllFrom r repl s' n
      | O =>
          match matchAt r s with
          | Some (m, _) =>
              repl ++
              match length m with
              | O => c :: replaceAllFrom r repl s' 0
              | S n => replaceAllFrom r repl s' n
              end
          | None => c :: replaceAllFrom r repl s' 0
          end
      end
  end.

Definition replaceAll (r : regex) (repl s : jsstring) : jsstring :=
  replaceAllFrom r repl s 0.

(** The loop [while ((m = re.exec(s)) !== null) ...] over a regular
    expression with the g flag: all matches, left to right, each search
    starting where the previous match ended (the patterns it is used with
    never match the empty string). *)
Fixpoint execAllFrom (r : regex) (s : jsstring) (skip : nat)
  : list (jsstring * list jsstring) :=
  match s with
  | [] =>
      match skip, matchAt r [] with
      | O, Some m => [m]
      | _, _ => []
      end
  | _ :: s' =>
      match skip with
      | S n => execAllFrom r s' n
      | O =>
          match matchAt r s with
          | Some m => m :: execAllFrom r s' (Nat.pred (length (fst m)))
          | None => execAllFrom r s' 0
          end
      end
  end.

Definition execAll (r : regex) (s : jsstring) := execAllFrom r s 0.

(** [s.split(re)] for a pattern without capturing groups.  [cur] is the
    segment being accumulated, in reverse; a match that is empty only
    separates two characters. *)
Fixpoint splitFrom (r : regex) (s : jsstring) (skip : nat) (cur : jsstring)
  : list jsstring :=
  match s with
  | [] => [rev cur]
  | c :: s' =>
      match skip with
      | S n => splitFrom r s' n cur
      | O =>
          match matchAt r s with
          | Some (m, _) =>
              match length m, cur with
              | O, [] => splitFrom r s' 0 [c]
              | O, _ :: _ => rev cur :: splitFrom r s' 0 [c]
              | S n, _ => rev cur :: splitFrom r s' n []
              end
          | None => splitFrom r s' 0 (c :: cur)
          end
      end
  end.

Definition split (r : regex) (s : jsstring) : list jsstring :=
  match s with
  | [] => match matchAt r [] with Some _ => [] | None => [[]] end
  | _ :: _ => splitFrom r s 0 []
  end.

(** A literal, and a literal under the i flag. *)
Definition lit (s : jsstring) : regex :=
  foldr (fun c r => Cat (Chr (N.eqb c)) r) Eps s.

Definition chrI (c : N) : N -> bool :=
  fun x => canonicalize x =? canonicalize c.

Definition litI (s : jsstring) : regex :=
  foldr (fun c r => Cat (Chr (chrI c)) r) Eps s.

End Regex.

(** ** The diagram and chat state shared by the interactive variants *)

Module Flow.
Import JS.

Record Position := { pos_x : Z; pos_y : Z }.

(** A diagram node.  Of the fields the source gives a node, [type] and
    [style] are constants and the [onEdit]/[onDelete] callbacks of the
    editable variant only close over [id]; they are left out. *)
Record Node := { node_id : jsstring; position : Position; label : jsstring }.

(** A diagram edge; the styling fields are constants and left out. *)
Record Edge := { edge_id : jsstring; source : jsstring; target : jsstring }.

Inductive Role := user | assistant.

Record ChatMessage := { role : Role; content : jsstring }.

Inductive ModelType := gemini | ollama.

Record State := {
  input : jsstring;
  chatInput : jsstring;
  loading : bool;
  error : jsstring;
  chatHistory : list ChatMessage;
  modelType : ModelType;
  nodes : list Node;
  edges : list Edge;
  nextNodeId : nat
}.

Definition setInput (v : jsstring) (st : State) : State :=
  {| input := v; chatInput := chatInput st; loading := loading st;
     error := error st; chatHistory := chatHistory st;
     modelType := modelType st; nodes := nodes st; edges := edges st;
     nextNodeId := nextNodeId st |}.

Definition setChatInput (v : jsstring) (st : State) : State :=
  {| input := input st; chatInput := v; loading := loading st;
     error := error st; chatHistory := chatHistory st;
     modelType := modelType st; nodes := nodes st; edges := edges st;
     nextNodeId := nextNodeId st |}.

Definition setModelType (v : ModelType) (st : State) : State :=
  {| input := input st; chatInput := chatInput st; loading := loading st;
     error := error st; chatHistory := chatHistory st;
     modelType := v; nodes := nodes st; edges := edges st;
     nextNodeId := nextNodeId st |}.

Definition setLoading (v : bool) (st : State) : State :=
  {| input := input st; chatInput := chatInput st; loading := v;
     error := error st; chatHistory := chatHistory st;
     modelType := modelType st; nodes := nodes st; edges := edges st;
     nextNodeId := nextNodeId st |}.

Definition setError (v : jsstring) (st : State) : State :=
  {| input := input st; chatInput := chatInput st; loading := loading st;
     error := v; chatHistory := chatHistory st;
     modelType := modelType st; nodes := nodes st; edges := edges st;
     nextNodeId := nextNodeId st |}.

(** [setChatHistory(prev => f(prev))] *)
Definition setChatHistory (f : list ChatMessage -> list ChatMessage)
    (st : State) : State :=
  {| input := input st; chatInput := chatInput st; loading := loading st;
     error := error st; chatHistory := f (chatHistory st);
     modelType := modelType st; nodes := nodes st; edges := edges st;
     nextNodeId := nextNodeId st |}.

(** [setNodes(nds => f(nds))]; [setNodes(v)] is [setNodes (fun _ => v)]. *)
Definition setNodes (f : list Node -> list Node) (st : State) : State :=
  {| input := input st; chatInput := chatInput st; loading := loading st;
     error := error st; chatHistory := chatHistory st;
     modelType := modelType st; nodes := f (nodes st); edges := edges st;
     nextNodeId := nextNodeId st |}.

Definition setEdges (f : list Edge -> list Edge) (st : State) : State :=
  {| input := input st; chatInput := chatInput st; loading := loading st;
     error := error st; chatHistory := chatHistory st;
     modelType := modelType st; nodes := nodes st; edges := f (edges st);
     nextNodeId := nextNodeId st |}.

Definition setNextNodeId (v : nat) (st : State) : State :=
  {| input := input st; chatInput := chatInput st; loading := loading st;
     error := error st; chatHistory := chatHistory st;
     modelType := modelType st; nodes := nodes st; edges := edges st;
     nextNodeId := v |}.

(** The state of a freshly mounted component. *)
Definition initial : State :=
  {| input := []; chatInput := []; loading := false; error := [];
     chatHistory := []; modelType := ollama; nodes := []; edges := [];
     nextNodeId := 1 |}.

(** [array.forEach((item, index) => body)] over mutable accumulators
    [acc]. *)
Fixpoint forEachFrom {A T : Type} (body : T -> A -> nat -> T)
    (l : list A) (index : nat) (acc : T) : T :=
  match l with
  | [] => acc
  | a :: l' => forEachFrom body l' (S index) (body acc a index)
  end.

Definition forEach {A T : Type} (body : T -> A -> nat -> T) (l : list A)
    (acc : T) : T :=
  forEachFrom body l 0%nat acc.

(** [for (let i = from; i < from + count; i++) body] *)
Fixpoint forLoop {T : Type} (body : T -> nat -> T) (from count : nat)
    (acc : T) : T :=
  match count with
  | O => acc
  | S n => forLoop body (S from) n (body acc from)
  end.

(** The number of iterations of [for (let i = 0; i < len - 1; i++)]:
    none when [len] is 0, since [len - 1] is then -1. *)
Definition upTo (bound : Z) : nat := Z.to_nat bound.

(** An async handler with at most one awaited network request: it either
    finishes on its own, or issues the request in state [pending] and
    resumes with the outcome, [None] when no text could be obtained (the
    request failed, the response was not ok, or it had no content field)
    and [Some text] for the text taken from the reply. *)
Inductive Handler (St : Type) : Type :=
| Done (st : St)
| Fetch (pending : St) (resume : option jsstring -> St).
Arguments Done {St} st.
Arguments Fetch {St} pending resume.

Definition finish {St : Type} (outcome : option jsstring) (h : Handler St)
  : St :=
  match h with
  | Done st => st
  | Fetch _ resume => resume outcome
  end.

Definition callsModel {St : Type} (h : Handler St) : bool :=
  match h with Done _ => false | Fetch _ _ => true end.

(** An entry of the structure given to [generateComplexFlowchart]:
    [{ text: string, right?: string, below?: string }]. *)
Record Branch := {
  text : jsstring;
  right : option jsstring;
  below : option jsstring
}.

(** [if (node.right)]: the field is present and not the empty string. *)
Definition present (o : option jsstring) : option jsstring :=
  match o with
  | Some s => if truthy s then Some s else None
  | None => None
  end.

(** [/```mermaid|```/g] *)
Definition reFence : Regex.regex :=
  Regex.Alt (Regex.lit (str "```mermaid")) (Regex.lit (str "```")).

(** [/graph\s+TD/i] and [/graph\s+LR/i] *)
Definition reGraphTD : Regex.regex :=
  Regex.Cat (Regex.litI (str "graph"))
    (Regex.Cat (Regex.Plus isWhiteSpace) (Regex.litI (str "TD"))).

Definition reGraphLR : Regex.regex :=
  Regex.Cat (Regex.litI (str "graph"))
    (Regex.Cat (Regex.Plus isWhiteSpace) (Regex.litI (str "LR"))).

(** The step clean-up both interactive variants apply in
    [generateFlowFromSteps]:
<<
    step.replace(/```mermaid|```/g, '')
        .replace(/graph\s+TD/i, '')
        .replace(/graph\s+LR/i, '')
        .trim()
>> *)
Definition cleanStep (step : jsstring) : jsstring :=
  trim (Regex.replace reGraphLR []
          (Regex.replace reGraphTD []
             (Regex.replaceAll reFence [] step))).

(** [steps.map(step => ...).filter(step => step.length > 0)] *)
Definition processSteps (steps : list jsstring) : list jsstring :=
  List.filter truthy (map cleanStep steps).

(** [generateComplexFlowchart], identical in both interactive variants
    (the [nodeMap] it fills is never read and is left out). *)
Definition complexBody (acc : list Node * list Edge) (node : Branch)
    (index : nat) : list Node * list Edge :=
  let nodeWidth := 200%Z in
  let nodeHeight := 80%Z in
  let gapX := 250%Z in
  let gapY := 150%Z in
  let '(newNodes, newEdges) := acc in
  let mainId := str "node-" ++ num index ++ str "-main" in
  let rowY := (Z.of_nat index * (nodeHeight + gapY) + 50)%Z in
  let newNodes :=
    newNodes ++ [{| node_id := mainId;
                    position := {| pos_x := 250; pos_y := rowY |};
                    label := text node |}] in
  let '(newNodes, newEdges) :=
    match present (right node) with
    | Some r =>
        let rightId := str "node-" ++ num index ++ str "-right" in
        (newNodes ++ [{| node_id := rightId;
                         position := {| pos_x := 250 + nodeWidth + gapX;
                                        pos_y := rowY |};
                         label := r |}],
         newEdges ++ [{| edge_id := str "edge-" ++ num index ++ str "-right";
                         source := mainId; target := rightId |}])
    | None => (newNodes, newEdges)
    end in
  let '(newNodes, newEdges) :=
    match present (below node) with
    | Some b =>
        let belowId := str "node-" ++ num index ++ str "-below" in
        (newNodes ++ [{| node_id := belowId;
                         position := {| pos_x := 250;
                                        pos_y := rowY + nodeHeight + gapY / 2 |};
                         label := b |}],
         newEdges ++ [{| edge_id := str "edge-" ++ num index ++ str "-below";
                         source := mainId; target := belowId |}])
    | None => (newNodes, newEdges)
    end in
  if (0 <? index)%nat then
    (newNodes,
     newEdges ++ [{| edge_id := str "edge-" ++ num (index - 1) ++ str "-"
                                  ++ num index;
                     source := str "node-" ++ num (index - 1) ++ str "-main";
                     target := mainId |}])
  else (newNodes, newEdges).

Definition generateComplexFlowchart (structure : list Branch) (st : State)
  : State :=
  let st := setNodes (fun _ => []) st in
  let st := setEdges (fun _ => []) st in
  let '(newNodes, newEdges) := forEach complexBody structure ([], []) in
  let st := setNodes (fun _ => newNodes) st in
  let st := setEdges (fun _ => newEdges) st in
  setNextNodeId (length newNodes + 1) st.

End Flow.

(** ** src/src/App.tsx *)

Module Simple.
Import JS Flow.

Definition nodeWidth : Z := 200.
Definition nodeHeight : Z := 80.
Definition gap : Z := 100.

Definition addNode (st : State) : State :=
  let id := str "node-" ++ num (nextNodeId st) in
  let newNode :=
    {| node_id := id;
       position := {| pos_x := 100; pos_y := Z.of_nat (nextNodeId st) * 100 |};
       label := str "Новый блок" |} in
  let st' := setNodes (fun nds => nds ++ [newNode]) st in
  setNextNodeId (nextNodeId st + 1) st'.

Definition rearranged (isHorizontal : bool) (index : nat) (node : Node)
  : Node :=
  let newX :=
    if isHorizontal then (Z.of_nat index * (nodeWidth + gap) + 100)%Z
    else 250%Z in
  let newY :=
    if isHorizontal then 100%Z
    else (Z.of_nat index * (nodeHeight + gap) + 50)%Z in
  {| node_id := node_id node;
     position := {| pos_x := newX; pos_y := newY |};
     label := label node |}.

Definition rearrangeFlowchart (isHorizontal : bool) (st : State) : State :=
  if (length (nodes st) =? 0)%nat then st
  else
    let updatedNodes := imap (rearranged isHorizontal) (nodes st) in
    setNodes (fun _ => updatedNodes) st.

Definition flowBody (isHorizontal : bool) (acc : list Node * list Edge)
    (step : jsstring) (index : nat) : list Node * list Edge :=
  let '(newNodes, newEdges) := acc in
  let id := str "node-" ++ num index in
  let positionX :=
    if isHorizontal then (Z.of_nat index * (nodeWidth + gap) + 100)%Z
    else 250%Z in
  let positionY :=
    if isHorizontal then 100%Z
    else (Z.of_nat index * (nodeHeight + gap) + 50)%Z in
  let newNode :=
    {| node_id := id;
       position := {| pos_x := positionX; pos_y := positionY |};
       label := step |} in
  let newNodes := newNodes ++ [newNode] in
  if (0 <? index)%nat then
    let newEdge :=
      {| edge_id := str "edge-" ++ num (index - 1) ++ str "-" ++ num index;
         source := str "node-" ++ num (index - 1);
         target := id |} in
    (newNodes, newEdges ++ [newEdge])
  else (newNodes, newEdges).

Definition generateFlowFromSteps (steps : list jsstring)
    (isHorizontal : bool) (st : State) : State :=
  let st := setNodes (fun _ => []) st in
  let st := setEdges (fun _ => []) st in
  let processedSteps := processSteps steps in
  let '(newNodes, newEdges) :=
    forEach (flowBody isHorizontal) processedSteps ([], []) in
  let st := setNodes (fun _ => newNodes) st in
  let st := setEdges (fun _ => newEdges) st in
  setNextNodeId (length processedSteps + 1) st.

(** *** generateFlowchart *)

Definition noteBasicProcessing : jsstring :=
  str "Note: Using basic processing due to API connection issue. For better results, check your internet connection.".

(** [/^\d+\.\s+.+/], tested at the start of the line *)
Definition numberedPattern : Regex.regex :=
  Regex.Cat (Regex.Plus isDigit)
    (Regex.Cat (Regex.Chr (N.eqb 0x2E))
       (Regex.Cat (Regex.Plus isWhiteSpace) (Regex.Plus isDot))).

(** [/^\d+\.\s+/] *)
Definition numberPrefix : Regex.regex :=
  Regex.Cat (Regex.Plus isDigit)
    (Regex.Cat (Regex.Chr (N.eqb 0x2E)) (Regex.Plus isWhiteSpace)).

Definition isNumbered (line : jsstring) : bool :=
  match Regex.matchAt numberedPattern (trim line) with
  | Some _ => true
  | None => false
  end.

Definition dropNumber (line : jsstring) : jsstring :=
  let t := trim line in
  match Regex.matchAt numberPrefix t with
  | Some (m, _) => drop (length m) t
  | None => t
  end.

(** [/[•*-]/] *)
Definition isBullet (c : N) : bool :=
  (c =? 0x2022) || (c =? 0x2A) || (c =? 0x2D).

(** [/\.\s+|\.\s*$/] *)
Definition sentenceRegex : Regex.regex :=
  Regex.Alt
    (Regex.Cat (Regex.Chr (N.eqb 0x2E)) (Regex.Plus isWhiteSpace))
    (Regex.Cat (Regex.Chr (N.eqb 0x2E))
       (Regex.Cat (Regex.Star isWhiteSpace) Regex.Eol)).

(** [/->|→/] *)
Definition arrowRegex : Regex.regex :=
  Regex.Alt (Regex.lit (str "->")) (Regex.lit (str "→")).

Definition lowerIncludes (p s : jsstring) : bool :=
  includes p (toLowerCase s).

(** The loop over [lines] that collects if/then/else structures. *)
Definition conditionalBody (lines : list jsstring) (acc : list Branch)
    (current : jsstring) (i : nat) : list Branch :=
  let line := toLowerCase current in
  if includes (str "if") line then
    let ifText := current in
    match lines !! (i + 1)%nat with
    | Some thenText =>
        acc ++ [{| text := ifText;
                   right := if lowerIncludes (str "then") thenText
                            then Some thenText else None;
                   below := if lowerIncludes (str "else") thenText
                            then Some thenText
                            else match lines !! (i + 2)%nat with
                                 | Some l2 =>
                                     if lowerIncludes (str "else") l2
                                     then Some l2 else None
                                 | None => None
                                 end |}]
    | None => acc ++ [{| text := ifText; right := None; below := None |}]
    end
  else if negb (includes (str "then") line)
          && negb (includes (str "else") line)
          && negb (match i with
                   | O => false
                   | S j => match lines !! j with
                            | Some prev => lowerIncludes (str "if") prev
                            | None => false
                            end
                   end)
  then acc ++ [{| text := current; right := None; below := None |}]
  else acc.

(** The [catch] block of [generateFlowchart]. *)
Definition fallback (st : State) : State :=
  let input := input st in
  let numberedLines := List.filter isNumbered (split 0xA input) in
  let '(fallbackSteps, isHorizontal) :=
    if (1 <? length numberedLines)%nat then
      (map dropNumber numberedLines, false)
    else if includesChar 0x2022 input || includesChar 0x2A input
            || includesChar 0x2D input then
      (cleanSegments (splitBy isBullet input),
       includesChar 0x2D input && negb (includesChar 0x2022 input)
         && negb (includesChar 0x2A input))
    else (cleanSegments (Regex.split sentenceRegex input), false) in
  let '(fallbackSteps, isHorizontal) :=
    if includes (str "->") input || includes (str "→") input then
      let arrowSplit := cleanSegments (Regex.split arrowRegex input) in
      if (1 <? length arrowSplit)%nat then (arrowSplit, true)
      else (fallbackSteps, isHorizontal)
    else (fallbackSteps, isHorizontal) in
  let '(hasSpecialStructure, flowchartStructure) :=
    if lowerIncludes (str "if") input
       && (lowerIncludes (str "then") input
           || lowerIncludes (str "else") input) then
      let lines := map trim (List.filter truthy (split 0xA input)) in
      (true, forEach (conditionalBody lines) lines [])
    else (false, []) in
  if hasSpecialStructure && (0 <? length flowchartStructure)%nat then
    generateComplexFlowchart flowchartStructure st
  else if (0 <? length fallbackSteps)%nat then
    setError noteBasicProcessing
      (generateFlowFromSteps fallbackSteps isHorizontal st)
  else
    setError noteBasicProcessing
      (generateFlowFromSteps [trim input] false st).

(** [input.includes('-')] with more than one non-blank dash segment *)
Definition dashFlow (input : jsstring) : bool :=
  includesChar 0x2D input
  && (1 <? length (cleanSegments (split 0x2D input)))%nat.

Definition generateFlowchart (st : State) : Handler State :=
  if negb (truthy (trim (input st))) then Done st
  else
    let st := setLoading true st in
    let st := setError [] st in
    if (length (trim (input st)) <? 5)%nat then
      let st := generateFlowFromSteps [trim (input st)] false st in
      let st := setLoading false st in
      Done (setLoading false st)
    else
      let isHorizontal := dashFlow (input st) in
      Fetch st (fun outcome =>
        let st :=
          match outcome with
          | Some responseText =>
              if truthy responseText then
                let steps := cleanSegments (split 0xA responseText) in
                if (length steps =? 0)%nat then fallback st
                else generateFlowFromSteps steps isHorizontal st
              else fallback st
          | None => fallback st
          end in
        setLoading false st).

(** *** handleSendMessage *)

(** [/Шаг\s+(\d+)/gi] *)
Definition stepRegex : Regex.regex :=
  Regex.Cat (Regex.litI (str "Шаг"))
    (Regex.Cat (Regex.Plus isWhiteSpace) (Regex.Grp (Regex.Plus isDigit))).

(** [/верти(кальн|кал)/i] and [/гориз(онтальн|онтал)/i] *)
Definition verticalRegex : Regex.regex :=
  Regex.Cat (Regex.litI (str "верти"))
    (Regex.Grp (Regex.Alt (Regex.litI (str "кальн"))
                          (Regex.litI (str "кал")))).

Definition horizontalRegex : Regex.regex :=
  Regex.Cat (Regex.litI (str "гориз"))
    (Regex.Grp (Regex.Alt (Regex.litI (str "онтальн"))
                          (Regex.litI (str "онтал")))).

(** [/шаг\s+\d+/i] *)
Definition stepNumberRegex : Regex.regex :=
  Regex.Cat (Regex.litI (str "шаг"))
    (Regex.Cat (Regex.Plus isWhiteSpace) (Regex.Plus isDigit)).

Definition rearrangedReply (hasHorizontalCommand : bool) : jsstring :=
  str "Готово! Блок-схема переорганизована в "
  ++ (if hasHorizontalCommand then str "горизонтальный"
      else str "вертикальный")
  ++ str " вид.".

Definition noAnswer : jsstring :=
  str "Извините, не удалось получить ответ.".

Definition geminiStub : jsstring :=
  str "Извините, в данный момент API Google Gemini не настроен. Используйте Ollama.".

Definition chatError : jsstring :=
  str "Извините, произошла ошибка при обработке вашего запроса. Пожалуйста, проверьте подключение к Ollama и убедитесь, что сервер запущен.".

(** The filter applied to the lines of a reply that mentions no step. *)
Definition plainLine (step : jsstring) : bool :=
  (0 <? length step)%nat
  && negb (startsWith (str "```") step)
  && negb (startsWith (str "`mermaid") step)
  && negb (startsWith (str "graph") step)
  && negb (startsWith (str "A[") step)
  && negb (bool_decide (step = [0x22] ++ str "mermaid" ++ [0x22])).

(** The steps read from the assistant's reply (the last [else] branch of
    the handler); [None] when no diagram is generated. *)
Definition stepsOfReply (responseText : jsstring) : option (list jsstring) :=
  let matches := Regex.execAll stepRegex responseText in
  if (0 <? length matches)%nat then
    let lines := List.filter truthy (map trim (split 0xA responseText)) in
    if (length matches <? length lines)%nat then
      Some (List.filter
              (fun line => (0 <? length line)%nat
                           && negb (startsWith (str "```") line))
              lines)
    else Some (map fst matches)
  else
    let steps :=
      List.filter plainLine (cleanSegments (split 0xA responseText)) in
    if (0 <? length steps)%nat then Some steps
    else if (0 <? length (trim responseText))%nat
    then Some [trim responseText]
    else None.

(** Everything the handler does once the reply text is known. *)
Definition afterReply (userInputText : jsstring)
    (userSteps : list jsstring) (matchFound : bool)
    (hasVerticalCommand hasHorizontalCommand : bool)
    (hadNodes : bool) (responseText : jsstring) (st : State) : State :=
  let assistantMessage := {| role := assistant; content := responseText |} in
  let st := setChatHistory (fun prev => prev ++ [assistantMessage]) st in
  let st :=
    if hasVerticalCommand || hasHorizontalCommand
       || Regex.test (Regex.litI (str "вертик")) responseText
       || Regex.test (Regex.litI (str "гориз")) responseText
    then
      if hadNodes then
        rearrangeFlowchart
          (hasHorizontalCommand
           || Regex.test (Regex.litI (str "гориз")) responseText) st
      else st
    else st in
  if matchFound && (0 <? length userSteps)%nat then
    generateFlowFromSteps userSteps hasHorizontalCommand st
  else if lowerIncludes (str "шаг") userInputText
          && negb (Regex.test stepNumberRegex userInputText) then
    generateFlowFromSteps [userInputText] hasHorizontalCommand st
  else
    match stepsOfReply responseText with
    | Some steps => generateFlowFromSteps steps hasHorizontalCommand st
    | None => st
    end.

Definition handleSendMessage (st : State) : Handler State :=
  if negb (truthy (trim (chatInput st))) then Done st
  else
    let userMessage := {| role := user; content := chatInput st |} in
    let userInputText := trim (chatInput st) in
    let found := Regex.execAll stepRegex userInputText in
    let userSteps :=
      map (fun m => str "Шаг " ++ nth 0 (snd m) []) found in
    let matchFound := (0 <? length found)%nat in
    let hasVerticalCommand := Regex.test verticalRegex userInputText in
    let hasHorizontalCommand := Regex.test horizontalRegex userInputText in
    let hadNodes := (0 <? length (nodes st))%nat in
    if hadNodes && (hasVerticalCommand || hasHorizontalCommand) then
      let st := setChatHistory (fun prev => prev ++ [userMessage]) st in
      let st := setChatInput [] st in
      let st := rearrangeFlowchart hasHorizontalCommand st in
      let systemResponse :=
        {| role := assistant;
           content := rearrangedReply hasHorizontalCommand |} in
      Done (setChatHistory (fun prev => prev ++ [systemResponse]) st)
    else
      let st := setChatHistory (fun prev => prev ++ [userMessage]) st in
      let st := setChatInput [] st in
      let st := setLoading true st in
      let continue (responseText : jsstring) : State :=
        afterReply userInputText userSteps matchFound hasVerticalCommand
          hasHorizontalCommand hadNodes responseText st in
      match modelType st with
      | ollama =>
          Fetch st (fun outcome =>
            let st :=
              match outcome with
              | Some content =>
                  continue (if truthy content then content else noAnswer)
              | None =>
                  let errorMessage :=
                    {| role := assistant; content := chatError |} in
                  setChatHistory (fun prev => prev ++ [errorMessage]) st
              end in
            setLoading false st)
      | gemini => Done (setLoading false (continue geminiStub))
      end.

(** *** Sessions

    What a user can do with this variant: the diagram-building operations
    themselves, and the two requests that call them, each with the text
    typed and the outcome of the model call. *)
Inductive Operation :=
| Generate (steps : list jsstring) (isHorizontal : bool)
| GenerateComplex (structure : list Branch)
| Rearrange (isHorizontal : bool)
| AddNode
| SelectModel (model : ModelType)
| RequestFlowchart (text : jsstring) (outcome : option jsstring)
| SendMessage (text : jsstring) (outcome : option jsstring).

Definition perform (st : State) (op : Operation) : State :=
  match op with
  | Generate steps isHorizontal => generateFlowFromSteps steps isHorizontal st
  | GenerateComplex structure => generateComplexFlowchart structure st
  | Rearrange isHorizontal => rearrangeFlowchart isHorizontal st
  | AddNode => addNode st
  | SelectModel model => setModelType model st
  | RequestFlowchart text outcome =>
      finish outcome (generateFlowchart (setInput text st))
  | SendMessage text outcome =>
      finish outcome (handleSendMessage (setChatInput text st))
  end.

(** The state a freshly mounted component reaches by a sequence of
    operations. *)
Definition session (ops : list Operation) : State :=
  fold_left perform ops initial.

End Simple.

(** ** src/unnamed/part_000, first program ([FlowchartApp])

    This variant publishes edges in two steps: [setEdges([])] at once and
    [setEdges(newEdges)] from a timer 200 ms later (and once more 300 ms
    after that).  The functions below give the state once these timers of
    the operation have run, with no other event in between. *)

Module Editable.
Import JS Flow.

Definition nodeWidth : Z := 180.
Definition nodeHeight : Z := 70.
Definition gap : Z := 80.

Definition deleteNode (nodeId : jsstring) (st : State) : State :=
  let st := setNodes (fun nds => filter (fun node => node_id node <> nodeId) nds) st in
  setEdges
    (fun eds =>
       filter (fun edge => source edge <> nodeId /\ target edge <> nodeId) eds)
    st.

Definition addNode (st : State) : State :=
  let id := str "node-" ++ num (nextNodeId st) in
  let newNode :=
    {| node_id := id;
       position := {| pos_x := 100; pos_y := Z.of_nat (nextNodeId st) * 100 |};
       label := str "Новый блок" |} in
  let st' := setNodes (fun nds => nds ++ [newNode]) st in
  setNextNodeId (nextNodeId st + 1) st'.

Definition rearranged (isHorizontal : bool) (index : nat) (node : Node)
  : Node :=
  let newX :=
    if isHorizontal then (Z.of_nat index * (nodeWidth + gap) + 100)%Z
    else 250%Z in
  let newY :=
    if isHorizontal then 100%Z
    else (Z.of_nat index * (nodeHeight + gap) + 50)%Z in
  {| node_id := node_id node;
     position := {| pos_x := newX; pos_y := newY |};
     label := label node |}.

(** The body of the loop that links [updatedNodes[i]] to
    [updatedNodes[i + 1]]; both indices are in range. *)
Definition linkBody (updatedNodes : list Node) (newEdges : list Edge)
    (i : nat) : list Edge :=
  match updatedNodes !! i, updatedNodes !! (i + 1)%nat with
  | Some a, Some b =>
      newEdges ++
      [{| edge_id := str "edge-" ++ num i ++ str "-" ++ num (i + 1);
          source := node_id a;
          target := node_id b |}]
  | _, _ => newEdges
  end.

Definition rearrangeFlowchart (isHorizontal : bool) (st : State) : State :=
  if (length (nodes st) =? 0)%nat then st
  else
    let updatedNodes := imap (rearranged isHorizontal) (nodes st) in
    let newEdges :=
      forLoop (linkBody updatedNodes) 0
        (upTo (Z.of_nat (length updatedNodes) - 1)) [] in
    let st := setNodes (fun _ => updatedNodes) st in
    let st := setEdges (fun _ => []) st in
    setEdges (fun _ => newEdges) st.

Definition nodeBody (isHorizontal : bool) (newNodes : list Node)
    (step : jsstring) (index : nat) : list Node :=
  let id := str "node-" ++ num index in
  let positionX :=
    if isHorizontal then (Z.of_nat index * (nodeWidth + gap) + 100)%Z
    else 250%Z in
  let positionY :=
    if isHorizontal then 100%Z
    else (Z.of_nat index * (nodeHeight + gap) + 50)%Z in
  newNodes ++
  [{| node_id := id;
      position := {| pos_x := positionX; pos_y := positionY |};
      label := step |}].

Definition edgeBody (newEdges : list Edge) (i : nat) : list Edge :=
  let sourceId := str "node-" ++ num i in
  let targetId := str "node-" ++ num (i + 1) in
  newEdges ++
  [{| edge_id := str "edge-" ++ num i ++ str "-" ++ num (i + 1);
      source := sourceId;
      target := targetId |}].

Definition generateFlowFromSteps (steps : list jsstring)
    (isHorizontal : bool) (st : State) : State :=
  let st := setNodes (fun _ => []) st in
  let st := setEdges (fun _ => []) st in
  let processedSteps := processSteps steps in
  let newNodes := forEach (nodeBody isHorizontal) processedSteps [] in
  let newEdges :=
    forLoop edgeBody 0 (upTo (Z.of_nat (length processedSteps) - 1)) [] in
  let st := setNodes (fun _ => newNodes) st in
  let st := setEdges (fun _ => []) st in
  let st := setEdges (fun _ => newEdges) st in
  setNextNodeId (length processedSteps + 1) st.

(** *** Step extraction *)

(** [/^шаг\s+(\d+)\s*:\s*(.+)$/i], applied at the start of the line *)
Definition stepLineRegex : Regex.regex :=
  Regex.Cat (Regex.litI (str "шаг"))
    (Regex.Cat (Regex.Plus isWhiteSpace)
       (Regex.Cat (Regex.Grp (Regex.Plus isDigit))
          (Regex.Cat (Regex.Star isWhiteSpace)
             (Regex.Cat (Regex.Chr (N.eqb 0x3A))
                (Regex.Cat (Regex.Star isWhiteSpace)
                   (Regex.Cat (Regex.Grp (Regex.Plus isDot))
                      Regex.Eol)))))).

(** [responseText.split('\n').map(line => line.trim())
                .filter(line => line.length > 0)] *)
Definition responseLinesOf (responseText : jsstring) : list jsstring :=
  List.filter truthy (map trim (split 0xA responseText)).

(** One turn of the loop [for (const line of responseLines)]. *)
Definition stepLineBody (stepLines : list jsstring) (line : jsstring)
  : list jsstring :=
  match Regex.matchAt stepLineRegex line with
  | Some (_, caps) =>
      let match2 := nth 1 caps [] in
      if truthy match2 then
        let stepContent := trim match2 in
        stepLines ++ [stepContent]
      else stepLines
  | None => stepLines
  end.

Definition extractStepLines (responseLines : list jsstring)
  : list jsstring :=
  fold_left stepLineBody responseLines [].

(** *** generateFlowchart *)

Definition noteOllama : jsstring :=
  str "Note: Using basic processing due to API connection issue. For better results, check your Ollama server.".

Definition unableToProcess : jsstring :=
  str "Unable to process input. Please check your Ollama server connection.".

Definition stepsNotRecognised : jsstring :=
  str "Не удалось распознать шаги в ответе модели. Попробуйте изменить запрос.".

(** [/[\n\r\.\;\-]/] *)
Definition isFallbackSeparator (c : N) : bool :=
  (c =? 0xA) || (c =? 0xD) || (c =? 0x2E) || (c =? 0x3B) || (c =? 0x2D).

(** The [catch] block of [generateFlowchart]. *)
Definition fallback (st : State) : State :=
  let fallbackSteps :=
    List.filter (fun line => (3 <? length line)%nat)
      (map trim (splitBy isFallbackSeparator (input st))) in
  if (0 <? length fallbackSteps)%nat then
    setError noteOllama (generateFlowFromSteps fallbackSteps false st)
  else
    setError unableToProcess
      (generateFlowFromSteps [trim (input st)] false st).

Definition dashFlow (input : jsstring) : bool :=
  includesChar 0x2D input
  && (1 <? length (cleanSegments (split 0x2D input)))%nat.

Definition generateFlowchart (st : State) : Handler State :=
  if negb (truthy (trim (input st))) then Done st
  else
    let st := setLoading true st in
    let st := setError [] st in
    if (length (trim (input st)) <? 5)%nat then
      let st := generateFlowFromSteps [trim (input st)] false st in
      let st := setLoading false st in
      Done (setLoading false st)
    else
      let isHorizontal := dashFlow (input st) in
      Fetch st (fun outcome =>
        let st :=
          match outcome with
          | Some responseText =>
              if truthy responseText then
                let responseLines := responseLinesOf responseText in
                let stepLines := extractStepLines responseLines in
                if (0 <? length stepLines)%nat then
                  generateFlowFromSteps stepLines isHorizontal st
                else if (1 <? length responseLines)%nat then
                  generateFlowFromSteps responseLines isHorizontal st
                else setError stepsNotRecognised st
              else fallback st
          | None => fallback st
          end in
        setLoading false st).

(** *** handleSendMessage *)

Definition horizontalRegex : Regex.regex := Simple.horizontalRegex.

Definition afterReply (chatInput responseText : jsstring) (st : State)
  : State :=
  let assistantMessage := {| role := assistant; content := responseText |} in
  let st := setChatHistory (fun prev => prev ++ [assistantMessage]) st in
  let hasHorizontalCommand :=
    Regex.test horizontalRegex chatInput
    || Regex.test horizontalRegex responseText in
  let isHorizontal := hasHorizontalCommand in
  let responseLines := responseLinesOf responseText in
  let stepLines := extractStepLines responseLines in
  if (0 <? length stepLines)%nat then
    generateFlowFromSteps stepLines isHorizontal st
  else st.

Definition handleSendMessage (st : State) : Handler State :=
  if negb (truthy (trim (chatInput st))) then Done st
  else
    let chatInput := chatInput st in
    let userMessage := {| role := user; content := chatInput |} in
    let st := setChatHistory (fun prev => prev ++ [userMessage]) st in
    let st := setChatInput [] st in
    let st := setLoading true st in
    match modelType st with
    | ollama =>
        Fetch st (fun outcome =>
          let st :=
            match outcome with
            | Some content =>
                afterReply chatInput
                  (if truthy content then content else Simple.noAnswer) st
            | None =>
                let errorMessage :=
                  {| role := assistant; content := Simple.chatError |} in
                setChatHistory (fun prev => prev ++ [errorMessage]) st
            end in
          setLoading false st)
    | gemini =>
        Done (setLoading false (afterReply chatInput Simple.geminiStub st))
    end.

(** *** Sessions *)

Definition welcomeText : jsstring :=
  str "Добро пожаловать! " ++ [0xA]
  ++ str "Добавьте новые блоки или создайте блок-схему с помощью чата или прямого ввода.".

(** The effect run on mount puts a welcome node on the empty canvas. *)
Definition mounted : State :=
  let st := initial in
  if ((length (nodes st) =? 0) && (length (edges st) =? 0))%nat then
    setNodes
      (fun _ => [{| node_id := str "welcome";
                    position := {| pos_x := 250; pos_y := 150 |};
                    label := welcomeText |}]) st
  else st.

(** The effect that runs when nodes or edges change: with at least two
    nodes and no edge, it links the nodes, sorted by position, one after
    the other (from a timer of 500 ms, taken as having run).  The sort is
    the stable insertion sort; the comparison decides per pair whether the
    two nodes lie in a row. *)
Definition compareNodes (a b : Node) : Z :=
  let isHorizontal :=
    (Z.abs (pos_y (position a) - pos_y (position b)) <? 50)%Z in
  if isHorizontal then (pos_x (position a) - pos_x (position b))%Z
  else (pos_y (position a) - pos_y (position b))%Z.

Fixpoint insertSorted (node : Node) (sorted : list Node) : list Node :=
  match sorted with
  | [] => [node]
  | first :: rest =>
      if (compareNodes node first <? 0)%Z then node :: first :: rest
      else first :: insertSorted node rest
  end.

Definition sortNodes (nds : list Node) : list Node :=
  fold_left (fun sorted node => insertSorted node sorted) nds [].

Definition autoLinkBody (sortedNodes : list Node) (newEdges : list Edge)
    (i : nat) : list Edge :=
  match sortedNodes !! i, sortedNodes !! (i + 1)%nat with
  | Some a, Some b =>
      newEdges ++
      [{| edge_id := str "edge-auto-" ++ num i ++ str "-" ++ num (i + 1);
          source := node_id a;
          target := node_id b |}]
  | _, _ => newEdges
  end.

Definition restoreEdges (st : State) : State :=
  if ((2 <=? length (nodes st)) && (length (edges st) =? 0))%nat then
    let sortedNodes := sortNodes (nodes st) in
    let newEdges :=
      forLoop (autoLinkBody sortedNodes) 0
        (upTo (Z.of_nat (length sortedNodes) - 1)) [] in
    if (0 <? length newEdges)%nat then setEdges (fun _ => newEdges) st
    else st
  else st.

(** What a user can do with this variant; [RestoreEdges] is the effect
    above doing its work. *)
Inductive Operation :=
| Generate (steps : list jsstring) (isHorizontal : bool)
| GenerateComplex (structure : list Branch)
| Rearrange (isHorizontal : bool)
| Delete (nodeId : jsstring)
| AddNode
| RestoreEdges
| SelectModel (model : ModelType)
| RequestFlowchart (text : jsstring) (outcome : option jsstring)
| SendMessage (text : jsstring) (outcome : option jsstring).

Definition perform (st : State) (op : Operation) : State :=
  match op with
  | Generate steps isHorizontal => generateFlowFromSteps steps isHorizontal st
  | GenerateComplex structure => generateComplexFlowchart structure st
  | Rearrange isHorizontal => rearrangeFlowchart isHorizontal st
  | Delete nodeId => deleteNode nodeId st
  | AddNode => addNode st
  | RestoreEdges => restoreEdges st
  | SelectModel model => setModelType model st
  | RequestFlowchart text outcome =>
      finish outcome (generateFlowchart (setInput text st))
  | SendMessage text outcome =>
      finish outcome (handleSendMessage (setChatInput text st))
  end.

Definition session (ops : list Operation) : State :=
  fold_left perform ops mounted.

End Editable.

(** ** src/unnamed/part_000, second program (inline vector graphics) *)

Module Svg.
Import JS Flow.

Record Rect := {
  rect_x : Z; rect_y : Z; rect_width : Z; rect_height : Z;
  rect_text : jsstring
}.

Record Line := { x1 : Z; y1 : Z; x2 : Z; y2 : Z }.

(** The markup of [generateSvgFlowchart], kept as data: the view box, the
    rectangles with their text, and the connector lines. *)
Record Picture := {
  totalWidth : Z;
  totalHeight : Z;
  svgNodes : list Rect;
  svgConnectors : list Line
}.

(** What [diagramRef.current.innerHTML] holds: nothing yet, the markup
    of [generateSvgFlowchart], or that of [generateSvgFlowchartComplex]
    for a structure. *)
Inductive Drawing :=
| Blank
| Sequential (picture : Picture)
| Complex (structure : list Branch).

Record State := {
  input : jsstring;
  chatInput : jsstring;
  loading : bool;
  error : jsstring;
  chatHistory : list ChatMessage;
  modelType : ModelType;
  diagram : Drawing
}.

Definition setChatInput (v : jsstring) (st : State) : State :=
  {| input := input st; chatInput := v; loading := loading st;
     error := error st; chatHistory := chatHistory st;
     modelType := modelType st; diagram := diagram st |}.

Definition setLoading (v : bool) (st : State) : State :=
  {| input := input st; chatInput := chatInput st; loading := v;
     error := error st; chatHistory := chatHistory st;
     modelType := modelType st; diagram := diagram st |}.

Definition setError (v : jsstring) (st : State) : State :=
  {| input := input st; chatInput := chatInput st; loading := loading st;
     error := v; chatHistory := chatHistory st;
     modelType := modelType st; diagram := diagram st |}.

Definition setChatHistory (f : list ChatMessage -> list ChatMessage)
    (st : State) : State :=
  {| input := input st; chatInput := chatInput st; loading := loading st;
     error := error st; chatHistory := f (chatHistory st);
     modelType := modelType st; diagram := diagram st |}.

Definition setDiagram (v : Drawing) (st : State) : State :=
  {| input := input st; chatInput := chatInput st; loading := loading st;
     error := error st; chatHistory := chatHistory st;
     modelType := modelType st; diagram := v |}.

(** *** generateSvgFlowchart *)

Definition baseNodeWidth : Z := 150.
Definition baseNodeHeight : Z := 60.
Definition gap : Z := 50.
Definition charWidth : Z := 8.
Definition lineHeight : Z := 20.
Definition padding : Z := 20.

(** [Math.max(...values)] for a list that is not empty (of an empty list
    it is -Infinity; 0 stands in for it here). *)
Definition mathMax (values : list Z) : Z :=
  match values with
  | [] => 0%Z
  | v :: rest => fold_left Z.max rest v
  end.

Definition sum (values : list Z) : Z := fold_left Z.add values 0%Z.

Definition nodeSize (step : jsstring) : Z * Z :=
  let lines := split 0xA step in
  let maxLineLength := mathMax (map (fun line => Z.of_nat (length line)) lines) in
  let width := Z.max baseNodeWidth (maxLineLength * charWidth + padding * 2) in
  let height :=
    Z.max baseNodeHeight (Z.of_nat (length lines) * lineHeight + padding * 2) in
  (width, height).

Record Pen := {
  currentX : Z;
  currentY : Z;
  drawnNodes : list Rect;
  drawnConnectors : list Line
}.

(** The body of [steps.forEach((step, index) => ...)].  The quotients by
    2 are exact: every width and height is even. *)
Definition drawBody (isHorizontal : bool) (nodeSizes : list (Z * Z))
    (totalWidth totalHeight : Z) (pen : Pen) (step : jsstring)
    (index : nat) : Pen :=
  match nodeSizes !! index with
  | None => pen
  | Some (width, height) =>
      let x := if isHorizontal then currentX pen
               else (totalWidth / 2 - width / 2)%Z in
      let y := if isHorizontal then (totalHeight / 2 - height / 2)%Z
               else currentY pen in
      let currentX' :=
        if isHorizontal then (currentX pen + (width + gap))%Z
        else currentX pen in
      let currentY' :=
        if isHorizontal then currentY pen
        else (currentY pen + (height + gap))%Z in
      let rect :=
        {| rect_x := x; rect_y := y; rect_width := width;
           rect_height := height; rect_text := step |} in
      let connectors :=
        if (0 <? index)%nat then
          let line :=
            if isHorizontal then
              {| x1 := x - gap; y1 := totalHeight / 2;
                 x2 := x; y2 := totalHeight / 2 |}
            else
              {| x1 := totalWidth / 2; y1 := y - gap;
                 x2 := totalWidth / 2; y2 := y |} in
          drawnConnectors pen ++ [line]
        else drawnConnectors pen in
      {| currentX := currentX'; currentY := currentY';
         drawnNodes := drawnNodes pen ++ [rect];
         drawnConnectors := connectors |}
  end.

Definition generateSvgFlowchart (steps : list jsstring)
    (isHorizontal : bool) : Picture :=
  let nodeSizes := map nodeSize steps in
  let totalWidth :=
    if isHorizontal then
      (sum (map fst nodeSizes) + (Z.of_nat (length steps) - 1) * gap + 100)%Z
    else (mathMax (map fst nodeSizes) + 100)%Z in
  let totalHeight :=
    if isHorizontal then (mathMax (map snd nodeSizes) + 100)%Z
    else
      (sum (map snd nodeSizes) + (Z.of_nat (length steps) - 1) * gap + 100)%Z in
  let pen :=
    forEach (drawBody isHorizontal nodeSizes totalWidth totalHeight) steps
      {| currentX := 50; currentY := 50;
         drawnNodes := []; drawnConnectors := [] |} in
  {| totalWidth := totalWidth; totalHeight := totalHeight;
     svgNodes := drawnNodes pen; svgConnectors := drawnConnectors pen |}.

Definition renderSvgFlowchart (steps : list jsstring) (isHorizontal : bool)
    (st : State) : State :=
  setDiagram (Sequential (generateSvgFlowchart steps isHorizontal)) st.

Definition renderSvgFlowchartComplex (structure : list Branch) (st : State)
  : State :=
  setDiagram (Complex structure) st.

(** *** generateFlowchart *)

Definition noteBasicProcessing : jsstring := Simple.noteBasicProcessing.

Definition noteCustomStructure : jsstring :=
  str "Using custom structure based on special symbols - and |".

(** One turn of [for (const line of lines)] that reads the [-] and [|]
    notation. *)
Definition structureBody (flowchartStructure : list Branch)
    (line : jsstring) : list Branch :=
  let trimmedLine := trim line in
  if negb (truthy trimmedLine) then flowchartStructure
  else if includesChar 0x2D trimmedLine
          && negb (startsWith (str "-") trimmedLine) then
    let parts := map trim (split 0x2D trimmedLine) in
    let nodeText := nth 0 parts [] in
    let rightText := nth 1 parts [] in
    if truthy nodeText && truthy rightText then
      flowchartStructure ++
      [{| text := nodeText; right := Some rightText; below := None |}]
    else flowchartStructure
  else if includesChar 0x7C trimmedLine
          && negb (startsWith (str "|") trimmedLine) then
    let parts := map trim (split 0x7C trimmedLine) in
    let nodeText := nth 0 parts [] in
    let belowText := nth 1 parts [] in
    if truthy nodeText && truthy belowText then
      flowchartStructure ++
      [{| text := nodeText; right := None; below := Some belowText |}]
    else flowchartStructure
  else
    flowchartStructure ++
    [{| text := trimmedLine; right := None; below := None |}].

Definition structureOf (input : jsstring) : list Branch :=
  fold_left structureBody (split 0xA input) [].

(** The cascade of separators tried once the [-]/[|] notation gave
    nothing: the steps and the direction handed to
    [renderSvgFlowchart]. *)
Definition fallbackSteps (input : jsstring) : list jsstring * bool :=
  let '(fallbackSteps, isHorizontal) :=
    if includesChar 0x2D input then
      let fallbackSteps := cleanSegments (split 0x2D input) in
      if (1 <? length fallbackSteps)%nat then (fallbackSteps, true)
      else (fallbackSteps, false)
    else ([], false) in
  let '(fallbackSteps, isHorizontal) :=
    if negb isHorizontal || (length fallbackSteps <=? 1)%nat then
      if includesChar 0x2E input then
        (cleanSegments (split 0x2E input), false)
      else if includesChar 0xA input then
        (cleanSegments (split 0xA input), false)
      else if includesChar 0x2C input then
        (cleanSegments (split 0x2C input), false)
      else (fallbackSteps, false)
    else (fallbackSteps, isHorizontal) in
  let fallbackSteps :=
    if (length fallbackSteps =? 0)%nat then [trim input]
    else fallbackSteps in
  (fallbackSteps, isHorizontal).

(** The inner [catch] block of [generateFlowchart]. *)
Definition fallback (st : State) : State :=
  let input := input st in
  let flowchartStructure :=
    if includesChar 0x2D input || includesChar 0x7C input
    then structureOf input else [] in
  if (0 <? length flowchartStructure)%nat then
    let st := renderSvgFlowchartComplex flowchartStructure st in
    let st := setError noteCustomStructure st in
    setLoading false st
  else
    let '(steps, isHorizontal) := fallbackSteps input in
    let st := renderSvgFlowchart steps isHorizontal st in
    setError noteBasicProcessing st.

Definition dashFlow (input : jsstring) : bool :=
  includesChar 0x2D input
  && (1 <? length (cleanSegments (split 0x2D input)))%nat.

Definition generateFlowchart (st : State) : Handler State :=
  if negb (truthy (trim (input st))) then Done st
  else
    let st := setLoading true st in
    let st := setError [] st in
    if (length (trim (input st)) <? 5)%nat then
      let st := renderSvgFlowchart [trim (input st)] false st in
      let st := setLoading false st in
      Done (setLoading false st)
    else
      let isHorizontal := dashFlow (input st) in
      Fetch st (fun outcome =>
        let st :=
          match outcome with
          | Some responseText =>
              if truthy responseText then
                let steps := cleanSegments (split 0xA responseText) in
                if (length steps =? 0)%nat then fallback st
                else renderSvgFlowchart steps isHorizontal st
              else fallback st
          | None => fallback st
          end in
        setLoading false st).

(** *** sendChatMessage *)

Definition chatError : jsstring :=
  str "Извините, произошла ошибка при обработке вашего запроса. Пожалуйста, попробуйте еще раз.".

(** The reply is searched for [FLOWCHART:] first, which
    [COMPLEX_FLOWCHART:] contains as well. *)
Definition afterReply (aiResponse : jsstring) (st : State) : State :=
  let assistantMessage := {| role := assistant; content := aiResponse |} in
  let st := setChatHistory (fun prev => prev ++ [assistantMessage]) st in
  if includes (str "FLOWCHART:") aiResponse then
    let flowchartText :=
      trim (nth 1 (Regex.split (Regex.lit (str "FLOWCHART:")) aiResponse) []) in
    let steps := cleanSegments (split 0xA flowchartText) in
    if (0 <? length steps)%nat then renderSvgFlowchart steps false st
    else st
  else st.

Definition sendChatMessage (st : State) : Handler State :=
  if negb (truthy (trim (chatInput st))) then Done st
  else
    let userMessage := {| role := user; content := chatInput st |} in
    let st := setChatHistory (fun prev => prev ++ [userMessage]) st in
    let st := setChatInput [] st in
    let st := setLoading true st in
    Fetch st (fun outcome =>
      let st :=
        match outcome with
        | Some aiResponse =>
            if truthy aiResponse then afterReply aiResponse st
            else
              setChatHistory
                (fun prev => prev ++ [{| role := assistant;
                                         content := chatError |}]) st
        | None =>
            setChatHistory
              (fun prev => prev ++ [{| role := assistant;
                                       content := chatError |}]) st
        end in
      setLoading false st).

End Svg.

(** ** Functions outside the generation paths *)

(** *** escapeHtml

    The same function in all three programs: five global replacements in
    a row, of the ampersand by [&amp;], then of the angle brackets by
    [&lt;] and [&gt;], then of the double quote by [&quot;] and of the
    apostrophe by [&#039;]. *)

Module Html.
Import JS.

Definition escapeHtml (unsafe : jsstring) : jsstring :=
  Regex.replaceAll (Regex.Chr (N.eqb 0x27)) (str "&#039;")
    (Regex.replaceAll (Regex.Chr (N.eqb 0x22)) (str "&quot;")
       (Regex.replaceAll (Regex.Chr (N.eqb 0x3E)) (str "&gt;")
          (Regex.replaceAll (Regex.Chr (N.eqb 0x3C)) (str "&lt;")
             (Regex.replaceAll (Regex.Chr (N.eqb 0x26)) (str "&amp;")
                unsafe)))).

End Html.

(** *** Editing a node's text (src/unnamed/part_000, first program)

    The two state cells [editingNode] and [editingText], the handler of
    a double click on a node, the text field, and the two buttons of the
    dialog. *)

Module Editor.
Import JS Flow.

Record Editing := {
  editingNode : option jsstring;
  editingText : jsstring
}.

(** [useState<string | null>(null)] and [useState('')] *)
Definition closed : Editing := {| editingNode := None; editingText := [] |}.

Definition onNodeDoubleClick (node : Node) (ed : Editing) : Editing :=
  {| editingNode := Some (node_id node); editingText := label node |}.

(** [onChange={(e) => setEditingText(e.target.value)}] *)
Definition setEditingText (value : jsstring) (ed : Editing) : Editing :=
  {| editingNode := editingNode ed; editingText := value |}.

(** The cancel button: [setEditingNode(null)] *)
Definition cancel (ed : Editing) : Editing :=
  {| editingNode := None; editingText := editingText ed |}.

(** The node as [updateNodeText] rebuilds it: the label replaced, the
    rest (and the node's handlers) kept. *)
Definition relabel (editing : jsstring) (newText : jsstring) (node : Node)
  : Node :=
  if decide (node_id node = editing) then
    {| node_id := node_id node;
       position := position node;
       label := newText |}
  else node.

Definition updateNodeText (ed : Editing) (st : State) : State * Editing :=
  match present (editingNode ed) with
  | None => (st, ed)
  | Some editing =>
      (setNodes (fun nds => map (relabel editing (editingText ed)) nds) st,
       {| editingNode := None; editingText := editingText ed |})
  end.

End Editor.

(** *** formatText of the custom node (src/unnamed/part_000, first program)

    The fragments the node shows for its label: the lines of the text,
    each but the last followed by a line break. *)

Module Format.
Import JS.

Inductive Fragment :=
| Line (text : jsstring)
| Break.

Definition formatText (text : jsstring) : list Fragment :=
  if negb (truthy text) then []
  else
    concat
      (imap (fun i line =>
               Line line ::
               if (Z.of_nat i <? Z.of_nat (length (split 0xA text)) - 1)%Z
               then [Break] else [])
            (split 0xA text)).

End Format.

(** *** The reply of the assistant in sendChatMessage, with both branches
    as written (src/unnamed/part_000, second program) *)

Module SvgChat.
Import JS Flow.

Definition afterReply (aiResponse : jsstring) (st : Svg.State) : Svg.State :=
  let assistantMessage := {| role := assistant; content := aiResponse |} in
  let st := Svg.setChatHistory (fun prev => prev ++ [assistantMessage]) st in
  if includes (str "FLOWCHART:") aiResponse then
    let flowchartText :=
      trim (nth 1 (Regex.split (Regex.lit (str "FLOWCHART:")) aiResponse) []) in
    let steps := cleanSegments (split 0xA flowchartText) in
    if (0 <? length steps)%nat then Svg.renderSvgFlowchart steps false st
    else st
  else if includes (str "COMPLEX_FLOWCHART:") aiResponse then
    let flowchartText :=
      trim (nth 1 (Regex.split (Regex.lit (str "COMPLEX_FLOWCHART:"))
                     aiResponse) []) in
    let flowchartStructure :=
      fold_left Svg.structureBody (split 0xA flowchartText) [] in
    if (0 <? length flowchartStructure)%nat
    then Svg.renderSvgFlowchartComplex flowchartStructure st
    else st
  else st.

End SvgChat.

(** *** generateSvgFlowchartComplex (src/unnamed/part_000, second program)

    The markup is kept as data, as for [generateSvgFlowchart].  The map
    [textSizes] holds, for every text that is looked up in it, the size
    that [generateSvgFlowchart] computes for a step with the same
    constants; the grid is an array of rows, the second of which has
    holes; [nodePositions] is a map from ids to placed boxes, here a list
    of bindings with the latest first. *)

Module SvgComplex.
Import JS Flow.

Definition gap : Z := 70.

Record Cell := {
  cell_text : jsstring;
  cell_id : jsstring;
  cell_width : Z;
  cell_height : Z
}.

Definition cellOf (text id : jsstring) : Cell :=
  {| cell_text := text; cell_id := id;
     cell_width := fst (Svg.nodeSize text);
     cell_height := snd (Svg.nodeSize text) |}.

(** [`node_${index}_0`], [`node_${index}_right`], [`node_${index}_1`] *)
Definition mainId (index : nat) : jsstring :=
  str "node_" ++ num index ++ str "_0".

Definition rightId (index : nat) : jsstring :=
  str "node_" ++ num index ++ str "_right".

Definition belowId (index : nat) : jsstring :=
  str "node_" ++ num index ++ str "_1".

(** The first row: the main nodes ... *)
Definition mainBody (firstRow : list Cell) (node : Branch) (index : nat)
  : list Cell :=
  firstRow ++ [cellOf (text node) (mainId index)].

(** ... and a node on the right where [grid[0][rowIndex + 1]] is not
    taken. *)
Definition rightBody (firstRow : list Cell) (node : Branch) (rowIndex : nat)
  : list Cell :=
  match present (right node) with
  | Some r =>
      match firstRow !! (rowIndex + 1)%nat with
      | Some _ => firstRow
      | None => firstRow ++ [cellOf r (rightId rowIndex)]
      end
  | None => firstRow
  end.

(** [row[i] = x] on an array with holes: an index beyond the end extends
    the array. *)
Definition assign {A : Type} (i : nat) (x : A) (row : list (option A))
  : list (option A) :=
  if (i <? length row)%nat then <[i := Some x]> row
  else row ++ replicate (i - length row) None ++ [Some x].

(** The second row, created by the first node below. *)
Definition belowBody (secondRow : option (list (option Cell)))
    (node : Branch) (colIndex : nat) : option (list (option Cell)) :=
  match present (below node) with
  | Some d =>
      let row := match secondRow with Some row => row | None => [] end in
      Some (assign colIndex (cellOf d (belowId colIndex)) row)
  | None => secondRow
  end.

Definition gridOf (structure : list Branch) : list (list (option Cell)) :=
  let firstRow := forEach mainBody structure [] in
  let firstRow := forEach rightBody structure firstRow in
  let secondRow := forEach belowBody structure None in
  map Some firstRow ::
  match secondRow with
  | Some row => [row]
  | None => []
  end.

(** [if (node && colWidths[colIndex] < node.width) ...] and the same for
    the heights of the rows; [forEach] passes over the holes. *)
Definition widen (colWidths : list Z) (node : option Cell) (colIndex : nat)
  : list Z :=
  match node, colWidths !! colIndex with
  | Some cell, Some width =>
      if (width <? cell_width cell)%Z
      then <[colIndex := cell_width cell]> colWidths
      else colWidths
  | _, _ => colWidths
  end.

Definition heighten (rowIndex : nat) (rowHeights : list Z)
    (node : option Cell) (colIndex : nat) : list Z :=
  match node, rowHeights !! rowIndex with
  | Some cell, Some height =>
      if (height <? cell_height cell)%Z
      then <[rowIndex := cell_height cell]> rowHeights
      else rowHeights
  | _, _ => rowHeights
  end.

Definition colsOf (grid : list (list (option Cell))) : nat :=
  Z.to_nat (Svg.mathMax (map (fun row => Z.of_nat (length row)) grid)).

Definition colWidthsOf (grid : list (list (option Cell))) : list Z :=
  forEach (fun colWidths row (_ : nat) => forEach widen row colWidths) grid
    (replicate (colsOf grid) 0%Z).

Definition rowHeightsOf (grid : list (list (option Cell))) : list Z :=
  forEach (fun rowHeights row rowIndex =>
             forEach (heighten rowIndex) row rowHeights) grid
    (replicate (length grid) 0%Z).

(** [pos = gap; for (i = 0; i < index; i++) pos += extents[i] + gap] *)
Definition along (extents : list Z) (index : nat) : Z :=
  forLoop (fun pos i => (pos + (nth i extents 0 + gap))%Z) 0 index gap.

Record Placed := {
  placed_x : Z;
  placed_y : Z;
  placed_width : Z;
  placed_height : Z
}.

Record Pen := {
  nodePositions : list (jsstring * Placed);
  drawnNodes : list Svg.Rect
}.

Definition get (id : jsstring) (positions : list (jsstring * Placed))
  : option Placed :=
  snd <$> List.find (fun binding => bool_decide (fst binding = id)) positions.

(** One cell of a row.  [xPos] starts at [gap] in every row and is
    computed anew for each cell that is not in the first column. *)
Definition placeBody (colWidths : list Z) (yPos : Z) (pen : Pen)
    (node : option Cell) (colIndex : nat) : Pen :=
  match node with
  | None => pen
  | Some cell =>
      let xPos := if (0 <? colIndex)%nat then along colWidths colIndex
                  else gap in
      {| nodePositions :=
           (cell_id cell,
            {| placed_x := xPos; placed_y := yPos;
               placed_width := cell_width cell;
               placed_height := cell_height cell |})
           :: nodePositions pen;
         drawnNodes :=
           drawnNodes pen ++
           [{| Svg.rect_x := xPos; Svg.rect_y := yPos;
               Svg.rect_width := cell_width cell;
               Svg.rect_height := cell_height cell;
               Svg.rect_text := cell_text cell |}] |}
  end.

Definition rowBody (colWidths rowHeights : list Z) (pen : Pen)
    (row : list (option Cell)) (rowIndex : nat) : Pen :=
  forEach (placeBody colWidths (along rowHeights rowIndex)) row pen.

(** The connectors of one entry: to the node on its right, or else to
    the next main node, and to the node below.  The quotients by 2 are
    exact: every width and height of a cell is even. *)
Definition connectBody (positions : list (jsstring * Placed))
    (svgConnectors : list Svg.Line) (node : Branch) (index : nat)
  : list Svg.Line :=
  match get (mainId index) positions with
  | None => svgConnectors
  | Some sourcePos =>
      let svgConnectors :=
        match present (right node) with
        | Some _ =>
            let targetPos :=
              match get (rightId index) positions with
              | Some targetPos => Some targetPos
              | None => get (mainId (index + 1)) positions
              end in
            match targetPos with
            | Some targetPos =>
                svgConnectors ++
                [{| Svg.x1 := placed_x sourcePos + placed_width sourcePos;
                    Svg.y1 := placed_y sourcePos + placed_height sourcePos / 2;
                    Svg.x2 := placed_x targetPos;
                    Svg.y2 := placed_y targetPos
                              + placed_height targetPos / 2 |}]
            | None => svgConnectors
            end
        | None => svgConnectors
        end in
      match present (below node) with
      | Some _ =>
          match get (belowId index) positions with
          | Some targetPos =>
              svgConnectors ++
              [{| Svg.x1 := placed_x sourcePos + placed_width sourcePos / 2;
                  Svg.y1 := placed_y sourcePos + placed_height sourcePos;
                  Svg.x2 := placed_x targetPos + placed_width targetPos / 2;
                  Svg.y2 := placed_y targetPos |}]
          | None => svgConnectors
          end
      | None => svgConnectors
      end
  end.

Definition generateSvgFlowchartComplex (structure : list Branch)
  : Svg.Picture :=
  let grid := gridOf structure in
  let colWidths := colWidthsOf grid in
  let rowHeights := rowHeightsOf grid in
  let svgWidth :=
    (Svg.sum colWidths + (Z.of_nat (colsOf grid) + 1) * gap)%Z in
  let svgHeight :=
    (Svg.sum rowHeights + (Z.of_nat (length grid) + 1) * gap)%Z in
  let pen :=
    forEach (rowBody colWidths rowHeights) grid
      {| nodePositions := []; drawnNodes := [] |} in
  let svgConnectors :=
    forEach (connectBody (nodePositions pen)) structure [] in
  {| Svg.totalWidth := svgWidth; Svg.totalHeight := svgHeight;
     Svg.svgNodes := drawnNodes pen; Svg.svgConnectors := svgConnectors |}.

End SvgComplex.

(** ** Vocabulary of the properties *)

Module Spec.
Import JS Flow.

(** [`node-${i}`] *)
Definition nodeId (i : nat) : jsstring := str "node-" ++ num i.

(** The edge that leads from node [i] to node [i + 1]. *)
Definition link (i : nat) : Edge :=
  {| edge_id := str "edge-" ++ num i ++ str "-" ++ num (i + 1);
     source := nodeId i;
     target := nodeId (i + 1) |}.

(** Where the sequential layout puts the node of index [i]: in a column
    at x = 250 starting at y = 50, or in a row at y = 100 starting at
    x = 100. *)
Definition place (nodeWidth nodeHeight gap : Z) (isHorizontal : bool)
    (i : nat) : Position :=
  if isHorizontal then
    {| pos_x := (Z.of_nat i * (nodeWidth + gap) + 100)%Z; pos_y := 100%Z |}
  else
    {| pos_x := 250%Z; pos_y := (Z.of_nat i * (nodeHeight + gap) + 50)%Z |}.

(** The same position with the two axes exchanged. *)
Definition mirrored (p : Position) : Position :=
  {| pos_x := pos_y p; pos_y := pos_x p |}.

Definition nodeAt (nodeWidth nodeHeight gap : Z) (isHorizontal : bool)
    (i : nat) (step : jsstring) : Node :=
  {| node_id := nodeId i;
     position := place nodeWidth nodeHeight gap isHorizontal i;
     label := step |}.

Definition moved (nodeWidth nodeHeight gap : Z) (isHorizontal : bool)
    (i : nat) (node : Node) : Node :=
  {| node_id := node_id node;
     position := place nodeWidth nodeHeight gap isHorizontal i;
     label := label node |}.

(** Every edge starts at a node of the diagram and ends at one. *)
Definition wired (st : State) : Prop :=
  forall e, e ∈ edges st ->
    (exists n, n ∈ nodes st /\ node_id n = source e) /\
    (exists n, n ∈ nodes st /\ node_id n = target e).

(** The two ends of an edge. *)
Definition endpoints (e : Edge) : jsstring * jsstring := (source e, target e).

(** The number of edges that lead from [a] to [b]. *)
Definition edgesBetween (a b : jsstring) (eds : list Edge) : nat :=
  length (filter (fun e => source e = a /\ target e = b) eds).

(** *** The picture of the vector-graphics variant *)

Definition widthOf (step : jsstring) : Z := fst (Svg.nodeSize step).
Definition heightOf (step : jsstring) : Z := snd (Svg.nodeSize step).

(** Where the box of index [i] starts along the axis of the flow: 50,
    plus the extent of every earlier box and the gap after it. *)
Definition startOf (extents : list Z) (i : nat) : Z :=
  (50 + Svg.sum (map (fun extent => extent + Svg.gap) (take i extents)))%Z.

(** The box of the step of index [i]: stacked along the axis of the
    flow, centred on the other axis. *)
Definition boxAt (isHorizontal : bool) (steps : list jsstring)
    (totalWidth totalHeight : Z) (i : nat) (step : jsstring) : Svg.Rect :=
  {| Svg.rect_x :=
       if isHorizontal then startOf (map widthOf steps) i
       else (totalWidth / 2 - widthOf step / 2)%Z;
     Svg.rect_y :=
       if isHorizontal then (totalHeight / 2 - heightOf step / 2)%Z
       else startOf (map heightOf steps) i;
     Svg.rect_width := widthOf step;
     Svg.rect_height := heightOf step;
     Svg.rect_text := step |}.

(** The connector that arrives at a box: a segment of length [gap] along
    the middle line of the picture. *)
Definition connectorInto (isHorizontal : bool) (totalWidth totalHeight : Z)
    (box : Svg.Rect) : Svg.Line :=
  if isHorizontal then
    {| Svg.x1 := (Svg.rect_x box - Svg.gap)%Z; Svg.y1 := (totalHeight / 2)%Z;
       Svg.x2 := Svg.rect_x box; Svg.y2 := (totalHeight / 2)%Z |}
  else
    {| Svg.x1 := (totalWidth / 2)%Z; Svg.y1 := (Svg.rect_y box - Svg.gap)%Z;
       Svg.x2 := (totalWidth / 2)%Z; Svg.y2 := Svg.rect_y box |}.

Definition pictureWidth (steps : list jsstring) (isHorizontal : bool) : Z :=
  if isHorizontal then
    (Svg.sum (map widthOf steps)
     + (Z.of_nat (length steps) - 1) * Svg.gap + 100)%Z
  else (Svg.mathMax (map widthOf steps) + 100)%Z.

Definition pictureHeight (steps : list jsstring) (isHorizontal : bool) : Z :=
  if isHorizontal then (Svg.mathMax (map heightOf steps) + 100)%Z
  else
    (Svg.sum (map heightOf steps)
     + (Z.of_nat (length steps) - 1) * Svg.gap + 100)%Z.

(** *** The fallback cascade *)





(** *** The chat transcript *)

(** [new] is [old], or [old] followed by one message of the user with
    the text [said] and one message of the assistant. *)
Definition exchanged (said : jsstring) (old new : list ChatMessage) : Prop :=
  new = old \/
  exists reply,
    new = old ++ [{| role := user; content := said |};
                  {| role := assistant; content := reply |}].

(** The transcript while the request is in flight. *)
Definition asked (said : jsstring) (old new : list ChatMessage) : Prop :=
  new = old ++ [{| role := user; content := said |}].

(** *** Auxiliary notions *)

(** [closed ns es]: the edges [es] start and end at nodes of [ns]. *)
Definition closed (ns : list Node) (es : list Edge) : Prop :=
  forall e, e ∈ es ->
    source e ∈ map node_id ns /\ target e ∈ map node_id ns.

(** The id of the main node of entry [i] of a structure. *)
Definition mainId (i : nat) : jsstring := str "node-" ++ num i ++ str "-main".

(** The string is empty or starts with a character that is not white
    space. *)
Definition headNonWs (s : jsstring) : Prop :=
  match s with
  | [] => True
  | c :: _ => isWhiteSpace c = false
  end.

Definition allWs (s : jsstring) : Prop :=
  Forall (fun c => isWhiteSpace c = true) s.

(** [boundary c s]: a greedy run of [c] cannot be extended into [s]. *)
Definition boundary (c : N -> bool) (s : jsstring) : Prop :=
  match s with
  | [] => True
  | x :: _ => c x = false
  end.

(** A lower bound on the number of characters a match consumes. *)
Fixpoint minLen (r : Regex.regex) : nat :=
  match r with
  | Regex.Eps | Regex.Star _ | Regex.Eol => 0
  | Regex.Chr _ | Regex.Plus _ => 1
  | Regex.Cat r1 r2 => minLen r1 + minLen r2
  | Regex.Alt r1 r2 => Nat.min (minLen r1) (minLen r2)
  | Regex.Grp r1 => minLen r1
  end.

End Spec.

(** ** Vocabulary of the further properties *)

Module Notions.
Import JS Flow Spec.

(** *** Escaping *)

(** What stands for one character in escaped text. *)
Definition entity (c : N) : jsstring :=
  if c =? 0x26 then str "&amp;"
  else if c =? 0x3C then str "&lt;"
  else if c =? 0x3E then str "&gt;"
  else if c =? 0x22 then str "&quot;"
  else if c =? 0x27 then str "&#039;"
  else [c].

(** The characters that escaping rewrites: ampersand, angle brackets and
    the two quotes. *)
Definition special (c : N) : bool :=
  (c =? 0x26) || (c =? 0x3C) || (c =? 0x3E) || (c =? 0x22) || (c =? 0x27).

(** The characters that delimit markup and attribute values. *)
Definition delimiter (c : N) : bool :=
  (c =? 0x3C) || (c =? 0x3E) || (c =? 0x22) || (c =? 0x27).

(** *** Identifiers *)

(** [`node-${i}${suffix}`] *)
Definition tagged (i : nat) (suffix : jsstring) : jsstring :=
  str "node-" ++ num i ++ suffix.

Definition rightId (i : nat) : jsstring := tagged i (str "-right").
Definition belowId (i : nat) : jsstring := tagged i (str "-below").

(** The node ids of the diagram are pairwise distinct, and neither the
    id the next manual addition takes nor that of any later one is in
    use. *)
Definition uniqueIds (st : State) : Prop :=
  NoDup (map node_id (nodes st)) /\
  forall k, (nextNodeId st <= k)%nat -> nodeId k ∉ map node_id (nodes st).

(** *** What an entry of a structure contributes to the diagram *)

(** Entry [i] has its main node in the column x = 250, in the row
    y = 230 i + 50; the node to its right in the same row at x = 700; the
    node below it in the same column, 155 further down. *)
Definition branchNodes (i : nat) (b : Branch) : list Node :=
  let rowY := (Z.of_nat i * 230 + 50)%Z in
  [{| node_id := mainId i;
      position := {| pos_x := 250; pos_y := rowY |};
      label := text b |}]
  ++ match present (right b) with
     | Some r => [{| node_id := rightId i;
                     position := {| pos_x := 700; pos_y := rowY |};
                     label := r |}]
     | None => []
     end
  ++ match present (below b) with
     | Some d => [{| node_id := belowId i;
                     position := {| pos_x := 250; pos_y := (rowY + 155)%Z |};
                     label := d |}]
     | None => []
     end.

(** Its edges: from the main node to the node on the right, to the node
    below, and, for every entry but the first, from the main node of the
    entry before. *)
Definition branchEdges (i : nat) (b : Branch) : list Edge :=
  match present (right b) with
  | Some _ => [{| edge_id := str "edge-" ++ num i ++ str "-right";
                  source := mainId i; target := rightId i |}]
  | None => []
  end
  ++ match present (below b) with
     | Some _ => [{| edge_id := str "edge-" ++ num i ++ str "-below";
                     source := mainId i; target := belowId i |}]
     | None => []
     end
  ++ if (0 <? i)%nat
     then [{| edge_id := str "edge-" ++ num (i - 1) ++ str "-" ++ num i;
              source := mainId (i - 1); target := mainId i |}]
     else [].

(** The number of entries that have a given optional part. *)
Definition having (part : Branch -> option jsstring)
    (structure : list Branch) : nat :=
  length (List.filter (fun b => bool_decide (is_Some (present (part b))))
            structure).

(** *** Chains *)

(** The pairs of neighbours of a list: first and second, second and
    third, and so on. *)
Definition chainOf (ids : list jsstring) : list (jsstring * jsstring) :=
  zip ids (drop 1 ids).

(** *** Structures read from the dash and bar notation *)

(** A text that is not empty and has no white space at either end. *)
Definition tidy (s : jsstring) : Prop := s <> [] /\ trim s = s.

(** An entry with a tidy text and at most one neighbour, tidy as well. *)
Definition wellFormed (b : Branch) : Prop :=
  tidy (text b) /\
  match right b, below b with
  | Some r, None => tidy r
  | None, Some d => tidy d
  | None, None => True
  | Some _, Some _ => False
  end.

(** *** Requests *)


(** A chat message that the variant of src/src/App.tsx answers itself:
    there are nodes, and the message asks for the vertical or the
    horizontal layout. *)
Definition layoutCommand (st : State) : bool :=
  (0 <? length (nodes st))%nat
  && (Regex.test Simple.verticalRegex (trim (chatInput st))
      || Regex.test Simple.horizontalRegex (trim (chatInput st))).

(** *** The label as a node shows it *)

(** The text that a list of fragments displays, a line break standing for
    the newline character. *)
Definition shown (fragments : list Format.Fragment) : jsstring :=
  flat_map (fun fragment =>
              match fragment with
              | Format.Line text => text
              | Format.Break => [0xA]
              end) fragments.

Definition breaks (fragments : list Format.Fragment) : nat :=
  length (List.filter (fun fragment =>
                         match fragment with
                         | Format.Break => true
                         | Format.Line _ => false
                         end) fragments).

(** Lines with a break between each two. *)
Fixpoint interleaved (lines : list jsstring) : list Format.Fragment :=
  match lines with
  | [] => []
  | [line] => [Format.Line line]
  | line :: rest => Format.Line line :: Format.Break :: interleaved rest
  end.

(** The edge ids of the diagram are pairwise distinct. *)
Definition uniqueEdgeIds (st : State) : Prop :=
  NoDup (map edge_id (edges st)).

(** *** Patterns *)

(** The number of capturing groups of a pattern, and whether it is free
    of alternatives (so that every group takes part in every match). *)
Fixpoint groups (r : Regex.regex) : nat :=
  match r with
  | Regex.Cat r1 r2 | Regex.Alt r1 r2 => groups r1 + groups r2
  | Regex.Grp r1 => S (groups r1)
  | _ => 0
  end.

Fixpoint altFree (r : Regex.regex) : bool :=
  match r with
  | Regex.Cat r1 r2 => altFree r1 && altFree r2
  | Regex.Alt _ _ => false
  | Regex.Grp r1 => altFree r1
  | _ => true
  end.

(** *** Conditions read from the input *)

(** An entry made of lines of the input: its text is one of them; a
    neighbour to the right is a line with "then", a neighbour below a
    line with "else"; and only a line with "if" has neighbours. *)
Definition conditional (lines : list jsstring) (b : Branch) : Prop :=
  text b ∈ lines /\
  (forall r, right b = Some r ->
     r ∈ lines /\ Simple.lowerIncludes (str "then") r = true) /\
  (forall d, below b = Some d ->
     d ∈ lines /\ Simple.lowerIncludes (str "else") d = true) /\
  (Simple.lowerIncludes (str "if") (text b) = true
   \/ (right b = None /\ below b = None)).

(** *** The grid of the picture of a structure *)

Definition mainCell (i : nat) (node : Branch) : SvgComplex.Cell :=
  SvgComplex.cellOf (text node) (SvgComplex.mainId i).

(** The node to the right of the last entry, the only one that has a
    cell of its own. *)
Definition lastRight (structure : list Branch) : list SvgComplex.Cell :=
  match list.last structure with
  | Some node =>
      match present (right node) with
      | Some r =>
          [SvgComplex.cellOf r (SvgComplex.rightId (length structure - 1))]
      | None => []
      end
  | None => []
  end.

(** The cell below entry [c], if the entry has a node below. *)
Definition belowCell (c : nat) (node : Branch) : option SvgComplex.Cell :=
  (fun d => SvgComplex.cellOf d (SvgComplex.belowId c)) <$> present (below node).

(** The cells of a row with their columns, holes left out. *)
Definition cellsOf (row : list (option SvgComplex.Cell))
  : list (nat * SvgComplex.Cell) :=
  omap (fun entry => (fun cell => (fst entry, cell)) <$> snd entry)
    (imap (fun c node => (c, node)) row).

(** Where the cell of column [c] in row [r] is drawn. *)
Definition boxOf (colWidths rowHeights : list Z) (r : nat)
    (entry : nat * SvgComplex.Cell) : Svg.Rect :=
  {| Svg.rect_x := SvgComplex.along colWidths (fst entry);
     Svg.rect_y := SvgComplex.along rowHeights r;
     Svg.rect_width := SvgComplex.cell_width (snd entry);
     Svg.rect_height := SvgComplex.cell_height (snd entry);
     Svg.rect_text := SvgComplex.cell_text (snd entry) |}.

Definition placedOf (colWidths rowHeights : list Z) (r : nat)
    (entry : nat * SvgComplex.Cell) : jsstring * SvgComplex.Placed :=
  (SvgComplex.cell_id (snd entry),
   {| SvgComplex.placed_x := SvgComplex.along colWidths (fst entry);
      SvgComplex.placed_y := SvgComplex.along rowHeights r;
      SvgComplex.placed_width := SvgComplex.cell_width (snd entry);
      SvgComplex.placed_height := SvgComplex.cell_height (snd entry) |}).

(** [raised l l']: the list [l'] has the length of [l] and at every
    index an entry that is at least the one of [l]. *)
Definition raised (l l' : list Z) : Prop :=
  length l' = length l /\
  forall j w, l !! j = Some w -> exists w', l' !! j = Some w' /\ (w <= w')%Z.

(** [covers extent extents index row]: for every cell of the row, in
    column [c], the entry [index c] of [extents] is at least the extent
    of the cell. *)
Definition covers (extent : SvgComplex.Cell -> Z) (extents : list Z)
    (index : nat -> nat) (row : list (option SvgComplex.Cell)) : Prop :=
  forall c cell, row !! c = Some (Some cell) ->
    exists w, extents !! index c = Some w /\ (extent cell <= w)%Z.

(** The connector from the middle of the right side of box [a] to the
    middle of the left side of box [b], and the one from the middle of
    the bottom of [a] to the middle of the top of [b]. *)
Definition across (a b : Svg.Rect) : Svg.Line :=
  {| Svg.x1 := Svg.rect_x a + Svg.rect_width a;
     Svg.y1 := Svg.rect_y a + Svg.rect_height a / 2;
     Svg.x2 := Svg.rect_x b;
     Svg.y2 := Svg.rect_y b + Svg.rect_height b / 2 |}%Z.

Definition down (a b : Svg.Rect) : Svg.Line :=
  {| Svg.x1 := Svg.rect_x a + Svg.rect_width a / 2;
     Svg.y1 := Svg.rect_y a + Svg.rect_height a;
     Svg.x2 := Svg.rect_x b + Svg.rect_width b / 2;
     Svg.y2 := Svg.rect_y b |}%Z.

(** The first row of the grid of a structure. *)
Definition firstRowOf (structure : list Branch) : list SvgComplex.Cell :=
  imap mainCell structure ++ lastRight structure.

(** The connectors of entry [i] of a structure, for the extents of the
    columns and rows: to the cell in the next column of the first row if
    the entry has a part on its right, and to the cell below it. *)
Definition connectorsOf (colWidths rowHeights : list Z)
    (structure : list Branch) (i : nat) (node : Branch) : list Svg.Line :=
  let source := boxOf colWidths rowHeights 0 (i, mainCell i node) in
  match present (right node), firstRowOf structure !! (i + 1)%nat with
  | Some _, Some target =>
      [across source (boxOf colWidths rowHeights 0 ((i + 1)%nat, target))]
  | _, _ => []
  end ++
  match belowCell i node with
  | Some target => [down source (boxOf colWidths rowHeights 1 (i, target))]
  | None => []
  end.

End Notions.

(** * Properties *)

Import JS Flow Spec.

(** Case analysis on every branch of a handler. *)
Ltac split_branches :=
  repeat match goal with
         | |- context [let '(_, _) := ?e in _] => destruct e
         | |- context [if ?b then _ else _] => destruct b
         end.


(** ** The string and pattern operations at work *)

Example trim_example :
  trim ([0x20; 0x9] ++ str "two words" ++ [0x20; 0xD; 0xA]) = str "two words".
Proof. reflexivity. Qed.

Example split_example :
  JS.split 0x2D (str "a-b--c") = [str "a"; str "b"; []; str "c"].
Proof. reflexivity. Qed.

Example cleanSegments_example :
  cleanSegments (JS.split 0x2C (str " wash , ,rinse,")) = [str "wash"; str "rinse"].
Proof. reflexivity. Qed.

Example sentence_split_example :
  Regex.split Simple.sentenceRegex (str "One. Two 2.5 l.  Three.")
  = [str "One"; str "Two 2.5 l"; str "Three"; []].
Proof. reflexivity. Qed.

Example arrow_split_example :
  Regex.split Simple.arrowRegex (str "a -> b→c") = [str "a "; str " b"; str "c"].
Proof. reflexivity. Qed.

Example exec_example :
  map fst (Regex.execAll Simple.stepRegex (str "шаг 1, затем ШАГ  22 и Шаг3"))
  = [str "шаг 1"; str "ШАГ  22"].
Proof. reflexivity. Qed.

Example orientation_example :
  Regex.test Simple.horizontalRegex (str "сделай ГОРИЗОНТАЛЬНО") = true /\
  Regex.test Simple.verticalRegex (str "сделай ГОРИЗОНТАЛЬНО") = false.
Proof. split; reflexivity. Qed.

Example cleanStep_example :
  cleanStep (str " ```mermaid Graph   td Start ``` ") = str "Start" /\
  cleanStep (str "graph TD graph TD") = str "graph TD".
Proof. split; reflexivity. Qed.

Example extract_example :
  Editable.extractStepLines
    [str "Хорошо, создаю схему."; str "Шаг 1: Вскипятить воду.";
     str "шаг 2 :Залить"; str "Шаг 3:"; str "Шаг четыре: нет"]
  = [str "Вскипятить воду."; str "Залить"].
Proof. reflexivity. Qed.

(** ** Loops *)

Lemma forEachFrom_snoc {A T : Type} (body : T -> A -> nat -> T)
    (l : list A) (a : A) (k : nat) (acc : T) :
  forEachFrom body (l ++ [a]) k acc
  = body (forEachFrom body l k acc) a (k + length l)%nat.
Proof.
  revert k acc. induction l as [|b l IH]; intros k acc; simpl.
  - f_equal. lia.
  - rewrite IH. f_equal. lia.
Qed.

Lemma forEach_snoc {A T : Type} (body : T -> A -> nat -> T)
    (l : list A) (a : A) (acc : T) :
  forEach body (l ++ [a]) acc = body (forEach body l acc) a (length l).
Proof. unfold forEach. now rewrite forEachFrom_snoc. Qed.

Lemma forLoop_snoc {T : Type} (body : T -> nat -> T) (from count : nat)
    (acc : T) :
  forLoop body from (S count) acc
  = body (forLoop body from count acc) (from + count)%nat.
Proof.
  revert from acc. induction count as [|n IH]; intros from acc.
  - simpl. f_equal. lia.
  - change (forLoop body from (S (S n)) acc)
      with (forLoop body (S from) (S n) (body acc from)).
    rewrite IH. simpl. f_equal. lia.
Qed.

(** ** Identifiers *)

Lemma digits_inj (d1 d2 : Decimal.uint) : digits d1 = digits d2 -> d1 = d2.
Proof.
  revert d2. induction d1; destruct d2; simpl; intros H;
    try discriminate; try reflexivity;
    injection H as H; f_equal; auto.
Qed.

Lemma num_inj (i j : nat) : num i = num j -> i = j.
Proof.
  unfold num. intros H%digits_inj.
  rewrite <- (Unsigned.of_to i), <- (Unsigned.of_to j). now rewrite H.
Qed.

Lemma nodeId_inj (i j : nat) : nodeId i = nodeId j -> i = j.
Proof. unfold nodeId. intros H%app_inv_head. now apply num_inj. Qed.

Lemma nodeIds_distinct (n : nat) : NoDup (map nodeId (seq 0 n)).
Proof.
  apply NoDup_fmap_2.
  - intros i j. apply nodeId_inj.
  - apply NoDup_seq.
Qed.

(** ** What generateFlowFromSteps builds *)

Lemma simple_forEach (isHorizontal : bool) (l : list jsstring) :
  forEach (Simple.flowBody isHorizontal) l ([], [])
  = (imap (nodeAt Simple.nodeWidth Simple.nodeHeight Simple.gap isHorizontal) l,
     map link (seq 0 (length l - 1))).
Proof.
  induction l as [|a l IH] using rev_ind; [reflexivity|].
  rewrite forEach_snoc, IH. unfold Simple.flowBody.
  rewrite imap_app, length_app. cbn [imap length].
  replace (length l + 0)%nat with (length l) by lia.
  replace (length l + 1 - 1)%nat with (length l) by lia.
  assert (Hnode :
    {| node_id := str "node-" ++ num (length l);
       position :=
         {| pos_x := if isHorizontal
                     then (Z.of_nat (length l) * (Simple.nodeWidth + Simple.gap) + 100)%Z
                     else 250%Z;
            pos_y := if isHorizontal then 100%Z
                     else (Z.of_nat (length l) * (Simple.nodeHeight + Simple.gap) + 50)%Z |};
       label := a |}
    = nodeAt Simple.nodeWidth Simple.nodeHeight Simple.gap isHorizontal
        (length l) a).
  { unfold nodeAt, nodeId, place. destruct isHorizontal; reflexivity. }
  rewrite Hnode.
  destruct (Nat.ltb_spec 0 (length l)) as [Hpos|Hzero].
  - destruct (length l) as [|m]; [lia|].
    replace (S m - 1)%nat with m by lia.
    rewrite seq_S, map_app. cbn [map Nat.add]. unfold link, nodeId.
    now rewrite Nat.add_1_r.
  - replace (length l) with 0%nat by lia. reflexivity.
Qed.

Lemma editable_forEach (isHorizontal : bool) (l : list jsstring) :
  forEach (Editable.nodeBody isHorizontal) l []
  = imap (nodeAt Editable.nodeWidth Editable.nodeHeight Editable.gap
            isHorizontal) l.
Proof.
  induction l as [|a l IH] using rev_ind; [reflexivity|].
  rewrite forEach_snoc, IH. unfold Editable.nodeBody.
  rewrite imap_app. cbn [imap].
  replace (length l + 0)%nat with (length l) by lia.
  unfold nodeAt, nodeId, place. destruct isHorizontal; reflexivity.
Qed.

Lemma editable_forLoop (count : nat) :
  forLoop Editable.edgeBody 0 count [] = map link (seq 0 count).
Proof.
  induction count as [|n IH]; [reflexivity|].
  rewrite forLoop_snoc, IH, seq_S, map_app. reflexivity.
Qed.

Lemma upTo_pred (n : nat) : upTo (Z.of_nat n - 1) = (n - 1)%nat.
Proof. unfold upTo. lia. Qed.

Lemma simple_generate (steps : list jsstring) (isHorizontal : bool)
    (st : State) :
  Simple.generateFlowFromSteps steps isHorizontal st
  = {| input := input st; chatInput := chatInput st; loading := loading st;
       error := error st; chatHistory := chatHistory st;
       modelType := modelType st;
       nodes := imap (nodeAt Simple.nodeWidth Simple.nodeHeight Simple.gap
                        isHorizontal) (processSteps steps);
       edges := map link (seq 0 (length (processSteps steps) - 1));
       nextNodeId := length (processSteps steps) + 1 |}.
Proof.
  unfold Simple.generateFlowFromSteps. rewrite simple_forEach. reflexivity.
Qed.

Lemma editable_generate (steps : list jsstring) (isHorizontal : bool)
    (st : State) :
  Editable.generateFlowFromSteps steps isHorizontal st
  = {| input := input st; chatInput := chatInput st; loading := loading st;
       error := error st; chatHistory := chatHistory st;
       modelType := modelType st;
       nodes := imap (nodeAt Editable.nodeWidth Editable.nodeHeight
                        Editable.gap isHorizontal) (processSteps steps);
       edges := map link (seq 0 (length (processSteps steps) - 1));
       nextNodeId := length (processSteps steps) + 1 |}.
Proof.
  unfold Editable.generateFlowFromSteps.
  rewrite editable_forEach, upTo_pred, editable_forLoop. reflexivity.
Qed.

Lemma imap_nodeAt_ids (w h g : Z) (isHorizontal : bool) (l : list jsstring) :
  map node_id (imap (nodeAt w h g isHorizontal) l)
  = map nodeId (seq 0 (length l)).
Proof.
  induction l as [|a l IH] using rev_ind; [reflexivity|].
  rewrite imap_app, map_app, IH, length_app, Nat.add_1_r, seq_S, map_app.
  simpl. now rewrite Nat.add_0_r.
Qed.

Lemma imap_nodeAt_labels (w h g : Z) (isHorizontal : bool)
    (l : list jsstring) :
  map label (imap (nodeAt w h g isHorizontal) l) = l.
Proof.
  induction l as [|a l IH] using rev_ind; [reflexivity|].
  rewrite imap_app, map_app, IH. reflexivity.
Qed.

Lemma imap_nodeAt_positions (w h g : Z) (isHorizontal : bool)
    (l : list jsstring) :
  map position (imap (nodeAt w h g isHorizontal) l)
  = map (place w h g isHorizontal) (seq 0 (length l)).
Proof.
  induction l as [|a l IH] using rev_ind; [reflexivity|].
  rewrite imap_app, map_app, IH, length_app, Nat.add_1_r, seq_S, map_app.
  simpl. now rewrite Nat.add_0_r.
Qed.

Lemma edgesBetween_chain (i m : nat) :
  edgesBetween (nodeId i) (nodeId (i + 1)) (map link (seq 0 m))
  = if (i <? m)%nat then 1%nat else 0%nat.
Proof.
  unfold edgesBetween. induction m as [|m IH]; [reflexivity|].
  rewrite seq_S, map_app, list.filter_app, length_app, IH. cbn [map].
  destruct (decide (m = i)) as [->|Hne].
  - rewrite filter_cons_True by (simpl; auto). simpl.
    rewrite Nat.ltb_irrefl.
    destruct (Nat.ltb_spec i (S i)); [reflexivity|lia].
  - rewrite filter_cons_False.
    2:{ simpl. intros [H _]. apply nodeId_inj in H. congruence. }
    simpl. destruct (Nat.ltb_spec i m), (Nat.ltb_spec i (S m)); lia.
Qed.

Lemma processSteps_nonempty (steps : list jsstring) :
  Forall (fun step => step <> []) (processSteps steps).
Proof.
  unfold processSteps. apply Forall_forall. intros s Hs.
  apply filter_In in Hs. destruct Hs as [_ Hs].
  destruct s; [discriminate|congruence].
Qed.

(** ** Edges and the nodes they refer to *)

Lemma wired_closed (st : State) : wired st <-> closed (nodes st) (edges st).
Proof.
  unfold wired, closed. split; intros H e He; destruct (H e He) as [Hs Ht].
  - split; apply list_elem_of_fmap.
    + destruct Hs as (n & Hn & Hid). eauto.
    + destruct Ht as (n & Hn & Hid). eauto.
  - apply list_elem_of_fmap in Hs, Ht.
    destruct Hs as (n & Hn & Hs), Ht as (m & Hm & Ht). split; eauto.
Qed.




Lemma closed_same_ids (ns ns' : list Node) (es : list Edge) :
  map node_id ns' = map node_id ns -> closed ns es -> closed ns' es.
Proof. unfold closed. intros ->. auto. Qed.






Lemma imap_keeps_ids (f : nat -> Node -> Node) (ns : list Node) :
  (forall i n, node_id (f i n) = node_id n) ->
  map node_id (imap f ns) = map node_id ns.
Proof.
  intros Hf. revert f Hf. induction ns as [|n ns IH]; intros f Hf; [reflexivity|].
  cbn [imap map]. rewrite Hf. f_equal. apply IH. intros i m. apply Hf.
Qed.






























(** C5. Deleting a node keeps exactly the nodes whose id differs from the
    given one and exactly the edges that neither start nor end at it, in
    their order and number; what is dropped are nodes of that id and edges
    touching it, and nothing else of the state changes. *)
Theorem deleteNode_removes_exactly (nodeId : jsstring) (st : State) :
  let st' := Editable.deleteNode nodeId st in
  (forall n, n ∈ nodes st' <-> n ∈ nodes st /\ node_id n <> nodeId) /\
  (forall e, e ∈ edges st' <->
     e ∈ edges st /\ source e <> nodeId /\ target e <> nodeId) /\
  sublist (nodes st') (nodes st) /\
  sublist (edges st') (edges st) /\
  (exists removed,
     nodes st ≡ₚ nodes st' ++ removed /\
     Forall (fun n => node_id n = nodeId) removed) /\
  (exists removed,
     edges st ≡ₚ edges st' ++ removed /\
     Forall (fun e => source e = nodeId \/ target e = nodeId) removed) /\
  input st' = input st /\ chatInput st' = chatInput st /\
  loading st' = loading st /\ error st' = error st /\
  chatHistory st' = chatHistory st /\ modelType st' = modelType st /\
  nextNodeId st' = nextNodeId st.
Proof.
  cbn zeta. unfold Editable.deleteNode.
  cbn [nodes edges setNodes setEdges input chatInput loading error
       chatHistory modelType nextNodeId].
  split_and!; try reflexivity.
  - intros n. rewrite list_elem_of_filter. tauto.
  - intros e. rewrite list_elem_of_filter. tauto.
  - apply sublist_filter.
  - apply sublist_filter.
  - exists (filter (fun n => ~ node_id n <> nodeId) (nodes st)). split.
    + symmetry. apply filter_app_complement.
    + apply Forall_forall. intros n Hn. apply list_elem_of_In in Hn.
      apply list_elem_of_filter in Hn. destruct Hn as [Hn _].
      destruct (decide (node_id n = nodeId)); tauto.
  - exists (filter (fun e => ~ (source e <> nodeId /\ target e <> nodeId))
              (edges st)). split.
    + symmetry. apply filter_app_complement.
    + apply Forall_forall. intros e He. apply list_elem_of_In in He.
      apply list_elem_of_filter in He. destruct He as [He _].
      destruct (decide (source e = nodeId)), (decide (target e = nodeId)); tauto.
Qed.

(** ** Trimming *)

Lemma trimStart_decompose (s : jsstring) :
  exists l, s = l ++ trimStart s /\ allWs l.
Proof.
  induction s as [|c s IH].
  - exists []. split; [reflexivity|constructor].
  - cbn [trimStart]. destruct (isWhiteSpace c) eqn:Hc.
    + destruct IH as (l & Hl & Hws). exists (c :: l). split.
      * cbn. now rewrite <- Hl.
      * now constructor.
    + exists []. split; [reflexivity|constructor].
Qed.

Lemma trimStart_head (s : jsstring) : headNonWs (trimStart s).
Proof.
  induction s as [|c s IH]; cbn [trimStart]; [exact I|].
  destruct (isWhiteSpace c) eqn:Hc; [exact IH|exact Hc].
Qed.

Lemma trimStart_skip (l s : jsstring) :
  allWs l -> trimStart (l ++ s) = trimStart s.
Proof.
  induction 1 as [|c l Hc _ IH]; [reflexivity|].
  cbn [app trimStart]. now rewrite Hc.
Qed.

Lemma trimStart_id (s : jsstring) : headNonWs s -> trimStart s = s.
Proof. destruct s as [|c s]; [reflexivity|]. cbn. now intros ->. Qed.

Lemma trimStart_app_nonws (a b : jsstring) :
  headNonWs b -> b <> [] -> trimStart (a ++ b) = trimStart a ++ b.
Proof.
  intros Hb Hne. induction a as [|c a IH].
  - cbn [app trimStart]. now apply trimStart_id.
  - cbn [app trimStart]. destruct (isWhiteSpace c); [exact IH|reflexivity].
Qed.

Lemma trimEnd_skip (s r : jsstring) : allWs r -> trimEnd (s ++ r) = trimEnd s.
Proof.
  intros Hr. unfold trimEnd. rewrite rev_app_distr, trimStart_skip; [reflexivity|].
  unfold allWs. now apply Forall_rev.
Qed.

Lemma trimEnd_app_nonws (a b : jsstring) :
  headNonWs (rev b) -> b <> [] -> trimEnd (a ++ b) = a ++ b.
Proof.
  intros Hb Hne. unfold trimEnd.
  rewrite rev_app_distr, trimStart_id, <- rev_app_distr, rev_involutive;
    [reflexivity|].
  destruct (rev b) as [|c b'] eqn:Hrev.
  - apply (f_equal (@rev N)) in Hrev. rewrite rev_involutive in Hrev.
    now subst b.
  - exact Hb.
Qed.

(** A string is its trimmed text between two runs of white space; the
    trimmed text neither starts nor ends with white space. *)
Lemma trim_decompose (s : jsstring) :
  exists l r,
    s = l ++ trim s ++ r /\ allWs l /\ allWs r /\
    headNonWs (trim s) /\ headNonWs (rev (trim s)).
Proof.
  destruct (trimStart_decompose s) as (l & Hl & Hlws).
  destruct (trimStart_decompose (rev (trimStart s))) as (r' & Hr & Hrws).
  exists l, (rev r'). unfold trim, trimEnd.
  assert (Hs1 : trimStart s = rev (trimStart (rev (trimStart s))) ++ rev r').
  { rewrite <- rev_app_distr, <- Hr. now rewrite rev_involutive. }
  split_and!.
  - now rewrite <- Hs1.
  - exact Hlws.
  - unfold allWs. now apply Forall_rev.
  - pose proof (trimStart_head s) as Hhead. rewrite Hs1 in Hhead.
    destruct (rev (trimStart (rev (trimStart s)))) as [|c t]; [exact I|exact Hhead].
  - rewrite rev_involutive. apply trimStart_head.
Qed.

Lemma trim_exact (l m r : jsstring) :
  allWs l -> allWs r -> headNonWs m -> headNonWs (rev m) ->
  trim (l ++ m ++ r) = m.
Proof.
  intros Hl Hr Hm Hm'. unfold trim.
  rewrite trimStart_skip by exact Hl.
  destruct m as [|c m].
  - cbn [app]. destruct (trimStart_decompose r) as (l' & Hl' & _).
    assert (Hnil : trimStart r = []).
    { clear - Hr. induction Hr as [|c r Hc _ IH]; [reflexivity|].
      cbn [trimStart]. now rewrite Hc. }
    now rewrite Hnil.
  - rewrite trimStart_id by exact Hm.
    rewrite trimEnd_skip by exact Hr.
    rewrite <- (app_nil_l (c :: m)) at 1.
    now rewrite trimEnd_app_nonws.
Qed.

Lemma trim_idempotent (s : jsstring) : trim (trim s) = trim s.
Proof.
  destruct (trim_decompose s) as (l & r & _ & _ & _ & Hh & Hl).
  rewrite <- (app_nil_r (trim s)) at 1.
  rewrite <- (app_nil_l (trim s ++ [])).
  apply trim_exact; auto; constructor.
Qed.

(** ** The matcher *)

Lemma star_munch {A : Type} (c : N -> bool) (w rest : jsstring)
    (k : jsstring -> option A) (a : A) :
  Forall (fun x => c x = true) w -> boundary c rest ->
  k rest = Some a -> Regex.star c (w ++ rest) k = Some a.
Proof.
  intros Hw Hb Hk. induction Hw as [|x w Hx _ IH].
  - cbn [app]. destruct rest as [|y rest]; cbn [Regex.star]; [exact Hk|].
    cbn in Hb. now rewrite Hb.
  - cbn [app Regex.star]. now rewrite Hx, IH.
Qed.

Lemma rmatch_star_munch {A : Type} (c : N -> bool) (w rest : jsstring)
    (caps : list jsstring) (k : jsstring -> list jsstring -> option A) (a : A) :
  Forall (fun x => c x = true) w -> boundary c rest ->
  k rest caps = Some a ->
  Regex.rmatch (Regex.Star c) (w ++ rest) caps k = Some a.
Proof. intros. cbn [Regex.rmatch]. now apply star_munch. Qed.

Lemma rmatch_plus_munch {A : Type} (c : N -> bool) (w rest : jsstring)
    (caps : list jsstring) (k : jsstring -> list jsstring -> option A) (a : A) :
  w <> [] -> Forall (fun x => c x = true) w -> boundary c rest ->
  k rest caps = Some a ->
  Regex.rmatch (Regex.Plus c) (w ++ rest) caps k = Some a.
Proof.
  intros Hne Hw Hb Hk. destruct w as [|x w]; [congruence|].
  inversion Hw as [|? ? Hx Hw']; subst.
  cbn [app Regex.rmatch]. rewrite Hx. now apply star_munch.
Qed.

Lemma rmatch_lit {A : Type} (p s : jsstring) (caps : list jsstring)
    (k : jsstring -> list jsstring -> option A) :
  Regex.rmatch (Regex.lit p) s caps k
  = if startsWith p s then k (drop (length p) s) caps else None.
Proof.
  revert s. induction p as [|a p IH]; intros s.
  - cbn. now rewrite drop_0.
  - unfold Regex.lit in *. cbn [foldr Regex.rmatch startsWith].
    destruct s as [|b s]; [reflexivity|].
    destruct (N.eqb_spec a b) as [Heq|Hne]; cbn [andb length drop].
    + apply IH.
    + reflexivity.
Qed.

Lemma star_suffix {A : Type} (c : N -> bool) (s : jsstring)
    (k : jsstring -> option A) (a : A) :
  Regex.star c s k = Some a ->
  exists s', k s' = Some a /\ (length s' <= length s)%nat.
Proof.
  induction s as [|x s IH]; cbn [Regex.star]; intros H.
  - eauto.
  - destruct (c x).
    + destruct (Regex.star c s k) as [b|] eqn:Hstar.
      * injection H as ->. destruct (IH eq_refl) as (s' & Hk & Hlen).
        exists s'. cbn [length]. split; [exact Hk|lia].
      * eauto.
    + eauto.
Qed.

Lemma rmatch_minLen {A : Type} (r : Regex.regex) (s : jsstring)
    (caps : list jsstring) (k : jsstring -> list jsstring -> option A) (a : A) :
  Regex.rmatch r s caps k = Some a ->
  exists s' caps',
    k s' caps' = Some a /\ (length s' + minLen r <= length s)%nat.
Proof.
  revert s caps k. induction r as [|c|c|c|r1 IH1 r2 IH2|r1 IH1 r2 IH2|r1 IH1|];
    intros s caps k H; cbn [Regex.rmatch minLen] in *.
  - exists s, caps. split; [exact H|lia].
  - destruct s as [|x s]; [discriminate|]. destruct (c x); [|discriminate].
    exists s, caps. cbn [length]. split; [exact H|lia].
  - apply star_suffix in H. destruct H as (s' & Hk & Hlen).
    exists s', caps. split; [exact Hk|lia].
  - destruct s as [|x s]; [discriminate|]. destruct (c x); [|discriminate].
    apply star_suffix in H. destruct H as (s' & Hk & Hlen).
    exists s', caps. cbn [length]. split; [exact Hk|lia].
  - apply IH1 in H. destruct H as (s1 & caps1 & H & Hlen1).
    apply IH2 in H. destruct H as (s2 & caps2 & H & Hlen2).
    exists s2, caps2. split; [exact H|lia].
  - destruct (Regex.rmatch r1 s caps k) as [b|] eqn:H1.
    + injection H as ->. apply IH1 in H1.
      destruct H1 as (s' & caps' & Hk & Hlen). exists s', caps'.
      split; [exact Hk|lia].
    + apply IH2 in H. destruct H as (s' & caps' & Hk & Hlen).
      exists s', caps'. split; [exact Hk|lia].
  - apply IH1 in H. destruct H as (s' & caps' & Hk & Hlen). eauto.
  - destruct s; [|discriminate]. exists [], caps. split; [exact H|cbn; lia].
Qed.

Lemma matchAt_minLen (r : Regex.regex) (s : jsstring) :
  (length s < minLen r)%nat -> Regex.matchAt r s = None.
Proof.
  intros Hlen. unfold Regex.matchAt.
  destruct (Regex.rmatch r s [] _) as [m|] eqn:H; [|reflexivity].
  apply rmatch_minLen in H. destruct H as (s' & caps' & _ & H). lia.
Qed.

Lemma searchFrom_minLen (r : Regex.regex) (i : nat) (s : jsstring) :
  (length s < minLen r)%nat -> Regex.searchFrom r i s = None.
Proof.
  revert i. induction s as [|x s IH]; intros i Hlen; cbn [Regex.searchFrom].
  - now rewrite matchAt_minLen.
  - rewrite matchAt_minLen by exact Hlen. apply IH. cbn [length] in Hlen. lia.
Qed.

Lemma replace_short (r : Regex.regex) (repl s : jsstring) :
  (length s < minLen r)%nat -> Regex.replace r repl s = s.
Proof.
  intros Hlen. unfold Regex.replace, Regex.search.
  now rewrite searchFrom_minLen.
Qed.

(** ** Cleaning a step *)

Lemma matchAt_fence_none (s : jsstring) :
  startsWith (str "```") s = false -> Regex.matchAt reFence s = None.
Proof.
  intros Hs. unfold Regex.matchAt, reFence. cbn [Regex.rmatch].
  rewrite !rmatch_lit, Hs.
  assert (Hlong : startsWith (str "```mermaid") s = false).
  { change (str "```") with [0x60; 0x60; 0x60] in Hs.
    change (str "```mermaid") with (0x60 :: 0x60 :: 0x60 :: str "mermaid").
    destruct s as [|a [|b [|c s]]]; cbn [startsWith] in *;
      repeat match goal with
             | |- context [N.eqb ?x ?y] => destruct (N.eqb x y); cbn [andb] in *
             end;
      try reflexivity; discriminate. }
  now rewrite Hlong.
Qed.

Lemma replaceAll_fence_absent (s : jsstring) :
  includes (str "```") s = false -> Regex.replaceAll reFence [] s = s.
Proof.
  unfold Regex.replaceAll. induction s as [|c s IH]; intros H.
  - cbn [Regex.replaceAllFrom].
    now destruct (Regex.matchAt reFence []).
  - cbn [includes] in H. apply orb_false_elim in H. destruct H as [H1 H2].
    cbn [Regex.replaceAllFrom]. rewrite matchAt_fence_none by exact H1.
    now rewrite IH.
Qed.

(** A short trimmed text without a code fence is left as it is. *)
Lemma cleanStep_short (s : jsstring) :
  (length (trim s) < 5)%nat -> includes (str "```") (trim s) = false ->
  cleanStep (trim s) = trim s.
Proof.
  intros Hlen Hfence. unfold cleanStep.
  rewrite replaceAll_fence_absent by exact Hfence.
  rewrite (replace_short reGraphTD) by (change (minLen reGraphTD) with 8%nat; lia).
  rewrite (replace_short reGraphLR) by (change (minLen reGraphLR) with 8%nat; lia).
  apply trim_idempotent.
Qed.

(** ** Step lines of the editable variant *)

Lemma digit_not_ws (c : N) : isDigit c = true -> isWhiteSpace c = false.
Proof.
  unfold isDigit. intros H. apply andb_true_iff in H. destruct H as [H1 H2].
  apply N.leb_le in H1, H2. unfold isWhiteSpace, isLineTerminator.
  repeat apply orb_false_intro;
    try (apply N.eqb_neq; lia);
    apply andb_false_intro1; apply N.leb_gt; lia.
Qed.

Lemma ws_not_digit (c : N) : isWhiteSpace c = true -> isDigit c = false.
Proof.
  intros H. destruct (isDigit c) eqn:Hd; [|reflexivity].
  apply digit_not_ws in Hd. congruence.
Qed.

Lemma take_matched (a b : jsstring) :
  take (length (a ++ b) - length b) (a ++ b) = a.
Proof.
  rewrite length_app. replace (length a + length b - length b)%nat
    with (length a) by lia.
  now rewrite take_app_length.
Qed.

Lemma rmatch_chr {A : Type} (c : N -> bool) (x : N) (s caps : list _)
    (k : jsstring -> list jsstring -> option A) :
  c x = true -> Regex.rmatch (Regex.Chr c) (x :: s) caps k = k s caps.
Proof. intros H. cbn [Regex.rmatch]. now rewrite H. Qed.

Lemma stepLineRegex_unfold :
  Editable.stepLineRegex
  = Regex.Cat
      (Regex.Cat (Regex.Chr (Regex.chrI 0x448))
         (Regex.Cat (Regex.Chr (Regex.chrI 0x430))
            (Regex.Cat (Regex.Chr (Regex.chrI 0x433)) Regex.Eps)))
      (Regex.Cat (Regex.Plus isWhiteSpace)
         (Regex.Cat (Regex.Grp (Regex.Plus isDigit))
            (Regex.Cat (Regex.Star isWhiteSpace)
               (Regex.Cat (Regex.Chr (N.eqb 0x3A))
                  (Regex.Cat (Regex.Star isWhiteSpace)
                     (Regex.Cat (Regex.Grp (Regex.Plus isDot))
                        Regex.Eol)))))).
Proof. reflexivity. Qed.

Lemma boundary_head (c : N -> bool) (x : N) (s : jsstring) :
  c x = false -> boundary c (x :: s).
Proof. intros H. exact H. Qed.

Lemma boundary_app (c : N -> bool) (a b : jsstring) :
  a <> [] -> Forall (fun x => c x = false) a -> boundary c (a ++ b).
Proof.
  intros Hne Ha. destruct a as [|x a]; [congruence|].
  inversion Ha; subst. assumption.
Qed.

Lemma rmatch_cat {A : Type} (r1 r2 : Regex.regex) (s : jsstring)
    (caps : list jsstring) (k : jsstring -> list jsstring -> option A) :
  Regex.rmatch (Regex.Cat r1 r2) s caps k
  = Regex.rmatch r1 s caps (fun s' caps' => Regex.rmatch r2 s' caps' k).
Proof. reflexivity. Qed.

Lemma rmatch_grp {A : Type} (r : Regex.regex) (s : jsstring)
    (caps : list jsstring) (k : jsstring -> list jsstring -> option A) :
  Regex.rmatch (Regex.Grp r) s caps k
  = Regex.rmatch r s caps
      (fun s' caps' => k s' (caps' ++ [take (length s - length s') s])).
Proof. reflexivity. Qed.

Lemma rmatch_eps {A : Type} (s : jsstring) (caps : list jsstring)
    (k : jsstring -> list jsstring -> option A) :
  Regex.rmatch Regex.Eps s caps k = k s caps.
Proof. reflexivity. Qed.

(** A trimmed line of the shape [Шаг <N>: <text>] matches, and its second
    capture is the text. *)
Lemma stepLine_match (w1 w2 w3 : N) (ws1 ds ws2 ws3 t : jsstring) :
  Regex.chrI 0x448 w1 = true -> Regex.chrI 0x430 w2 = true ->
  Regex.chrI 0x433 w3 = true ->
  ws1 <> [] -> allWs ws1 ->
  ds <> [] -> Forall (fun c => isDigit c = true) ds ->
  allWs ws2 -> allWs ws3 ->
  t <> [] -> headNonWs t -> Forall (fun c => isDot c = true) t ->
  let line := w1 :: w2 :: w3 :: ws1 ++ ds ++ ws2 ++ 0x3A :: ws3 ++ t in
  Regex.matchAt Editable.stepLineRegex line = Some (line, [ds; t]).
Proof.
  intros H1 H2 H3 Hws1 Hws1' Hds Hds' Hws2 Hws3 Ht Hhead Hdot line.
  unfold Regex.matchAt. rewrite stepLineRegex_unfold. unfold line at 1.
  rewrite rmatch_cat, rmatch_cat, (rmatch_chr _ _ _ _ _ H1).
  rewrite rmatch_cat, (rmatch_chr _ _ _ _ _ H2).
  rewrite rmatch_cat, (rmatch_chr _ _ _ _ _ H3), rmatch_eps.
  rewrite rmatch_cat. apply rmatch_plus_munch; [exact Hws1|exact Hws1'| |].
  { apply boundary_app; [exact Hds|].
    eapply Forall_impl; [|exact Hds']. intros c Hc. now apply digit_not_ws. }
  rewrite rmatch_cat, rmatch_grp.
  apply rmatch_plus_munch; [exact Hds|exact Hds'| |].
  { destruct ws2 as [|c ws2]; cbn [app].
    - reflexivity.
    - inversion Hws2; subst. apply boundary_head. now apply ws_not_digit. }
  rewrite take_matched. cbn [app].
  rewrite rmatch_cat. apply rmatch_star_munch; [exact Hws2|reflexivity|].
  rewrite rmatch_cat, (rmatch_chr _ _ _ _ _ (N.eqb_refl _)).
  rewrite rmatch_cat. apply rmatch_star_munch; [exact Hws3| |].
  { destruct t as [|c t]; [congruence|exact Hhead]. }
  rewrite rmatch_cat, rmatch_grp.
  rewrite <- (app_nil_r t) at 1.
  apply rmatch_plus_munch; [exact Ht|exact Hdot|exact I|].
  cbn [Regex.rmatch length]. rewrite !Nat.sub_0_r, !firstn_all. reflexivity.
Qed.

Lemma stepLineBody_grows (acc : list jsstring) (line x : jsstring) :
  x ∈ acc -> x ∈ Editable.stepLineBody acc line.
Proof.
  intros Hx. unfold Editable.stepLineBody.
  destruct (Regex.matchAt Editable.stepLineRegex line) as [[m caps]|]; [|exact Hx].
  destruct (truthy (nth 1 caps [])); [|exact Hx].
  apply elem_of_app. now left.
Qed.

Lemma extract_grows (lines acc : list jsstring) (x : jsstring) :
  x ∈ acc -> x ∈ fold_left Editable.stepLineBody lines acc.
Proof.
  revert acc. induction lines as [|l lines IH]; intros acc Hx; cbn [fold_left].
  - exact Hx.
  - apply IH. now apply stepLineBody_grows.
Qed.

Lemma extract_member (lines : list jsstring) (line t : jsstring) :
  line ∈ lines ->
  (forall acc, Editable.stepLineBody acc line = acc ++ [t]) ->
  forall acc, t ∈ fold_left Editable.stepLineBody lines acc.
Proof.
  intros Hin Hbody. induction lines as [|l lines IH]; intros acc.
  - inversion Hin.
  - cbn [fold_left]. apply elem_of_cons in Hin. destruct Hin as [<-|Hin].
    + apply extract_grows. rewrite Hbody. apply elem_of_app. right.
      now apply list_elem_of_singleton.
    + now apply IH.
Qed.

Lemma sha_letter (w : N) :
  w = 0x428 \/ w = 0x448 ->
  Regex.chrI 0x448 w = true /\ isWhiteSpace w = false.
Proof. intros [->| ->]; split; reflexivity. Qed.

Lemma a_letter (w : N) :
  w = 0x410 \/ w = 0x430 -> Regex.chrI 0x430 w = true.
Proof. intros [->| ->]; reflexivity. Qed.

Lemma ge_letter (w : N) :
  w = 0x413 \/ w = 0x433 -> Regex.chrI 0x433 w = true.
Proof. intros [->| ->]; reflexivity. Qed.

Lemma headNonWs_rev_app (p t : jsstring) :
  t <> [] -> headNonWs (rev t) -> headNonWs (rev (p ++ t)).
Proof.
  intros Hne Ht. rewrite rev_app_distr.
  destruct (rev t) as [|c t'] eqn:Hrev.
  - apply (f_equal (@rev N)) in Hrev. rewrite rev_involutive in Hrev.
    now subst t.
  - exact Ht.
Qed.

(** C1 (editable variant).  Take any line of the model's reply that reads,
    after optional leading white space, "Шаг" in any letter case, white
    space, a number, optional white space, a colon and a text that has a
    character other than white space and no line terminator inside.  The
    extraction loop turns it into the step that is exactly the text with
    surrounding white space removed, and so that step is among the steps
    handed to generateFlowFromSteps. *)
Theorem step_line_yields_trimmed_text
    (responseText raw lead ws1 ds ws2 text : jsstring) (w1 w2 w3 : N) :
  raw ∈ JS.split 0xA responseText ->
  raw = lead ++ w1 :: w2 :: w3 :: ws1 ++ ds ++ ws2 ++ 0x3A :: text ->
  allWs lead ->
  (w1 = 0x428 \/ w1 = 0x448) ->
  (w2 = 0x410 \/ w2 = 0x430) ->
  (w3 = 0x413 \/ w3 = 0x433) ->
  ws1 <> [] -> allWs ws1 ->
  ds <> [] -> Forall (fun c => isDigit c = true) ds ->
  allWs ws2 ->
  trim text <> [] ->
  Forall (fun c => isLineTerminator c = false) (trim text) ->
  (forall stepLines,
     Editable.stepLineBody stepLines (trim raw) = stepLines ++ [trim text]) /\
  trim text ∈ Editable.extractStepLines (Editable.responseLinesOf responseText).
Proof.
  intros Hin Hraw Hlead Hw1 Hw2 Hw3 Hws1 Hws1' Hds Hds' Hws2 Hne Hterm.
  destruct (sha_letter w1 Hw1) as [Hc1 Hw1ws].
  pose proof (a_letter w2 Hw2) as Hc2. pose proof (ge_letter w3 Hw3) as Hc3.
  destruct (trim_decompose text) as (ws3 & r & Htext & Hws3 & Hr & Hhead & Hlast).
  set (t := trim text) in *.
  set (line := w1 :: w2 :: w3 :: ws1 ++ ds ++ ws2 ++ 0x3A :: ws3 ++ t).
  assert (Hline : trim raw = line).
  { rewrite Hraw, Htext.
    replace (lead ++ w1 :: w2 :: w3 :: ws1 ++ ds ++ ws2 ++ 0x3A :: ws3 ++ t ++ r)
      with (lead ++ line ++ r).
    2:{ unfold line.
        repeat (rewrite <- app_assoc || rewrite <- app_comm_cons).
        reflexivity. }
    apply trim_exact; try assumption.
    unfold line.
    change (w1 :: w2 :: w3 :: ws1 ++ ds ++ ws2 ++ 0x3A :: ws3 ++ t)
      with ([w1; w2; w3] ++ ws1 ++ ds ++ ws2 ++ [0x3A] ++ ws3 ++ t).
    rewrite !app_assoc. now apply headNonWs_rev_app. }
  assert (Hmatch : Regex.matchAt Editable.stepLineRegex line = Some (line, [ds; t])).
  { apply stepLine_match; try assumption.
    eapply Forall_impl; [|exact Hterm]. intros c Hc. unfold isDot. now rewrite Hc. }
  assert (Hbody : forall stepLines,
             Editable.stepLineBody stepLines (trim raw) = stepLines ++ [t]).
  { intros stepLines. rewrite Hline. unfold Editable.stepLineBody.
    rewrite Hmatch. cbn [nth].
    destruct t as [|c t'] eqn:Ht; [congruence|]. cbn [truthy].
    rewrite <- Ht. unfold t. now rewrite trim_idempotent. }
  split; [exact Hbody|].
  unfold Editable.extractStepLines.
  apply (extract_member _ (trim raw)); [|exact Hbody].
  unfold Editable.responseLinesOf. apply list_elem_of_In, filter_In. split.
  - apply in_map, list_elem_of_In, Hin.
  - rewrite Hline. reflexivity.
Qed.

Lemma step_line_yields_trimmed_text_witness :
  str "Boil water"
    ∈ Editable.extractStepLines
        (Editable.responseLinesOf
           (str "Ok" ++ [0xA] ++ str "  ШАГ  12 :  Boil water " ++ [0xA]
            ++ str "Шаг 13: Pour")).
Proof.
  apply (step_line_yields_trimmed_text
           (str "Ok" ++ [0xA] ++ str "  ШАГ  12 :  Boil water " ++ [0xA]
            ++ str "Шаг 13: Pour")
           (str "  ШАГ  12 :  Boil water ")
           (str "  ") (str "  ") (str "12") (str " ") (str "  Boil water ")
           0x428 0x410 0x413).
  - vm_compute. apply list_elem_of_In. vm_compute. tauto.
  - reflexivity.
  - vm_compute. repeat constructor.
  - vm_compute. tauto.
  - vm_compute. tauto.
  - vm_compute. tauto.
  - vm_compute. discriminate.
  - vm_compute. repeat constructor.
  - vm_compute. discriminate.
  - vm_compute. repeat constructor.
  - vm_compute. repeat constructor.
  - vm_compute. discriminate.
  - vm_compute. repeat constructor.
Defined.

(** C1 as stated fails in src/src/App.tsx: for the reply line
    "Шаг 1: Boil water" its chat handler produces the step "Шаг 1", not
    "Boil water". *)
Lemma simple_reply_step_is_not_the_text :
  let st := {| input := []; chatInput := str "tea, please"; loading := false;
               error := []; chatHistory := []; modelType := ollama;
               nodes := []; edges := []; nextNodeId := 1 |} in
  let reply := str "Шаг 1: Boil water" in
  Simple.stepsOfReply reply = Some [str "Шаг 1"] /\
  map label (nodes (finish (Some reply) (Simple.handleSendMessage st)))
  = [str "Шаг 1"] /\
  str "Шаг 1" <> trim (str " Boil water").
Proof. vm_compute. split_and!; [reflexivity|reflexivity|discriminate]. Qed.

(** ** The picture of the vector-graphics variant *)

Lemma sum_from (values : list Z) (z : Z) :
  fold_left Z.add values z = (z + Svg.sum values)%Z.
Proof.
  unfold Svg.sum. revert z. induction values as [|v values IH]; intros z.
  - cbn. lia.
  - cbn [fold_left]. rewrite IH, (IH (0 + v)%Z). lia.
Qed.

Lemma sum_app (a b : list Z) : Svg.sum (a ++ b) = (Svg.sum a + Svg.sum b)%Z.
Proof. unfold Svg.sum at 1. rewrite fold_left_app. apply sum_from. Qed.

Lemma startOf_next (extents : list Z) (i : nat) (extent : Z) :
  extents !! i = Some extent ->
  startOf extents (S i) = (startOf extents i + (extent + Svg.gap))%Z.
Proof.
  intros H. unfold startOf. rewrite (take_S_r _ _ _ H), map_app, sum_app.
  cbn. lia.
Qed.

Lemma svg_forEach (isHorizontal : bool) (l rest : list jsstring) (W H : Z) :
  let steps := l ++ rest in
  forEach (Svg.drawBody isHorizontal (map Svg.nodeSize steps) W H) l
    {| Svg.currentX := 50; Svg.currentY := 50;
       Svg.drawnNodes := []; Svg.drawnConnectors := [] |}
  = {| Svg.currentX :=
         if isHorizontal then startOf (map widthOf steps) (length l) else 50%Z;
       Svg.currentY :=
         if isHorizontal then 50%Z else startOf (map heightOf steps) (length l);
       Svg.drawnNodes := imap (boxAt isHorizontal steps W H) l;
       Svg.drawnConnectors :=
         map (connectorInto isHorizontal W H)
           (drop 1 (imap (boxAt isHorizontal steps W H) l)) |}.
Proof.
  revert rest. induction l as [|a l IH] using rev_ind; intros rest steps.
  - unfold steps. cbn. destruct isHorizontal; reflexivity.
  - unfold steps. rewrite forEach_snoc.
    rewrite <- app_assoc. cbn [app].
    specialize (IH (a :: rest)). cbn zeta in IH. rewrite IH. clear IH.
    set (all := l ++ a :: rest).
    assert (Hat : all !! length l = Some a).
    { unfold all. rewrite lookup_app_r by lia.
      now rewrite Nat.sub_diag. }
    unfold Svg.drawBody.
    rewrite list_lookup_fmap, Hat. cbn [fmap option_fmap option_map].
    destruct (Svg.nodeSize a) as [width height] eqn:Hsize.
    assert (Hw : widthOf a = width) by (unfold widthOf; now rewrite Hsize).
    assert (Hh : heightOf a = height) by (unfold heightOf; now rewrite Hsize).
    cbn [Svg.currentX Svg.currentY Svg.drawnNodes Svg.drawnConnectors].
    rewrite imap_app, length_app. cbn [imap length].
    replace (length l + 0)%nat with (length l) by lia.
    replace (length l + 1)%nat with (S (length l)) by lia.
    assert (Hbox :
      {| Svg.rect_x := if isHorizontal
                       then if isHorizontal
                            then startOf (map widthOf all) (length l) else 50%Z
                       else (W / 2 - width / 2)%Z;
         Svg.rect_y := if isHorizontal then (H / 2 - height / 2)%Z
                       else if isHorizontal then 50%Z
                            else startOf (map heightOf all) (length l);
         Svg.rect_width := width; Svg.rect_height := height;
         Svg.rect_text := a |}
      = boxAt isHorizontal all W H (length l) a).
    { unfold boxAt. rewrite Hw, Hh. destruct isHorizontal; reflexivity. }
    f_equal.
    + destruct isHorizontal; [|reflexivity].
      rewrite (startOf_next _ _ width); [reflexivity|].
      rewrite list_lookup_fmap, Hat. cbn [fmap option_fmap option_map].
      now rewrite Hw.
    + destruct isHorizontal; [reflexivity|].
      rewrite (startOf_next _ _ height); [reflexivity|].
      rewrite list_lookup_fmap, Hat. cbn [fmap option_fmap option_map].
      now rewrite Hh.
    + now rewrite Hbox.
    + destruct (Nat.ltb_spec 0 (length l)) as [Hpos|Hzero].
      * rewrite drop_app_le by (rewrite length_imap; lia).
        rewrite map_app. f_equal. cbn [map]. f_equal.
        rewrite <- Hbox. unfold connectorInto.
        destruct isHorizontal; reflexivity.
      * assert (l = []) as -> by (destruct l; [reflexivity|cbn in Hzero; lia]).
        reflexivity.
Qed.

Lemma svg_picture (steps : list jsstring) (isHorizontal : bool) :
  let W := pictureWidth steps isHorizontal in
  let H := pictureHeight steps isHorizontal in
  Svg.generateSvgFlowchart steps isHorizontal
  = {| Svg.totalWidth := W; Svg.totalHeight := H;
       Svg.svgNodes := imap (boxAt isHorizontal steps W H) steps;
       Svg.svgConnectors :=
         map (connectorInto isHorizontal W H)
           (drop 1 (imap (boxAt isHorizontal steps W H) steps)) |}.
Proof.
  cbn zeta. unfold Svg.generateSvgFlowchart.
  assert (Hfst : map fst (map Svg.nodeSize steps) = map widthOf steps)
    by (rewrite map_map; reflexivity).
  assert (Hsnd : map snd (map Svg.nodeSize steps) = map heightOf steps)
    by (rewrite map_map; reflexivity).
  rewrite Hfst, Hsnd.
  fold (pictureWidth steps isHorizontal). fold (pictureHeight steps isHorizontal).
  pose proof (svg_forEach isHorizontal steps []
                (pictureWidth steps isHorizontal)
                (pictureHeight steps isHorizontal)) as Hloop.
  cbn zeta in Hloop. rewrite app_nil_r in Hloop. rewrite Hloop. reflexivity.
Qed.

(** Every width and height is even, so the halves taken when centring a
    box are exact. *)
Lemma nodeSize_even (step : jsstring) :
  Z.even (widthOf step) = true /\ Z.even (heightOf step) = true.
Proof.
  unfold widthOf, heightOf, Svg.nodeSize. cbn [fst snd].
  assert (Hmax : forall a b, Z.even a = true -> Z.even b = true ->
                             Z.even (Z.max a b) = true).
  { intros a b Ha Hb. destruct (Z.max_spec a b) as [[_ ->]|[_ ->]]; assumption. }
  split; apply Hmax; try reflexivity.
  - unfold Svg.charWidth, Svg.padding.
    rewrite Z.even_add, Z.even_mul. cbn. now rewrite orb_true_r.
  - unfold Svg.lineHeight, Svg.padding.
    rewrite Z.even_add, Z.even_mul. cbn. now rewrite orb_true_r.
Qed.

Lemma sum_even (values : list Z) :
  Forall (fun v => Z.even v = true) values -> Z.even (Svg.sum values) = true.
Proof.
  induction 1 as [|v values Hv _ IH]; [reflexivity|].
  change (v :: values) with ([v] ++ values). rewrite sum_app, Z.even_add, IH.
  unfold Svg.sum. cbn [fold_left]. now rewrite Z.add_0_l, Hv.
Qed.

Lemma mathMax_even (values : list Z) :
  Forall (fun v => Z.even v = true) values ->
  Z.even (Svg.mathMax values) = true.
Proof.
  intros H. destruct H as [|v values Hv Hrest]; [reflexivity|].
  cbn [Svg.mathMax]. revert v Hv.
  induction Hrest as [|w values Hw _ IH]; intros v Hv; cbn [fold_left].
  - exact Hv.
  - apply IH. destruct (Z.max_spec v w) as [[_ ->]|[_ ->]]; assumption.
Qed.

(** The view box has even sides as well, so its middle lines are at whole
    coordinates. *)
Lemma picture_even (steps : list jsstring) (isHorizontal : bool) :
  Z.even (pictureWidth steps isHorizontal) = true /\
  Z.even (pictureHeight steps isHorizontal) = true.
Proof.
  assert (Hw : Forall (fun v => Z.even v = true) (map widthOf steps)).
  { apply Forall_forall. intros v Hv. apply in_map_iff in Hv.
    destruct Hv as (s & <- & _). apply nodeSize_even. }
  assert (Hh : Forall (fun v => Z.even v = true) (map heightOf steps)).
  { apply Forall_forall. intros v Hv. apply in_map_iff in Hv.
    destruct Hv as (s & <- & _). apply nodeSize_even. }
  unfold pictureWidth, pictureHeight, Svg.gap.
  destruct isHorizontal;
    rewrite ?Z.even_add, ?Z.even_mul, ?sum_even, ?mathMax_even by assumption;
    cbn; now rewrite ?orb_true_r.
Qed.

(** ** Sequential flowcharts *)

Lemma insertSorted_last (node : Node) (sorted : list Node) :
  Forall (fun m => (Editable.compareNodes node m <? 0)%Z = false) sorted ->
  Editable.insertSorted node sorted = sorted ++ [node].
Proof.
  induction 1 as [|m sorted Hm _ IH]; cbn [Editable.insertSorted app].
  - reflexivity.
  - now rewrite Hm, IH.
Qed.

Lemma compare_later (isHorizontal : bool) (i j : nat) (a b : jsstring) :
  (j < i)%nat ->
  (Editable.compareNodes
     (nodeAt Editable.nodeWidth Editable.nodeHeight Editable.gap isHorizontal i a)
     (nodeAt Editable.nodeWidth Editable.nodeHeight Editable.gap isHorizontal j b)
   <? 0)%Z = false.
Proof.
  intros Hlt. unfold Editable.compareNodes, nodeAt, place,
    Editable.nodeWidth, Editable.nodeHeight, Editable.gap.
  destruct isHorizontal; cbn [position pos_x pos_y].
  - rewrite Z.sub_diag. change (Z.abs 0 <? 50)%Z with true. cbv iota.
    apply Z.ltb_ge. lia.
  - destruct (Z.ltb_spec
                (Z.abs (Z.of_nat i * (70 + 80) + 50 - (Z.of_nat j * (70 + 80) + 50)))
                50) as [Hclose|_].
    + lia.
    + apply Z.ltb_ge. lia.
Qed.

Lemma sortNodes_generated (isHorizontal : bool) (l : list jsstring) :
  Editable.sortNodes
    (imap (nodeAt Editable.nodeWidth Editable.nodeHeight Editable.gap
             isHorizontal) l)
  = imap (nodeAt Editable.nodeWidth Editable.nodeHeight Editable.gap
            isHorizontal) l.
Proof.
  unfold Editable.sortNodes.
  induction l as [|a l IH] using rev_ind; [reflexivity|].
  rewrite imap_app, fold_left_app, IH. cbn [imap fold_left].
  apply insertSorted_last. apply Forall_forall. intros m Hm.
  apply list_elem_of_In, list_elem_of_lookup in Hm. destruct Hm as (j & Hj).
  rewrite list_lookup_imap in Hj.
  destruct (l !! j) as [b|] eqn:Hb; [|discriminate].
  injection Hj as <-. apply compare_later.
  apply lookup_lt_Some in Hb. lia.
Qed.

Lemma autoLink_generated (w h g : Z) (isHorizontal : bool) (l : list jsstring)
    (count : nat) :
  (count + 1 <= length l)%nat ->
  map endpoints
    (forLoop (Editable.autoLinkBody (imap (nodeAt w h g isHorizontal) l)) 0
       count [])
  = map endpoints (map link (seq 0 count)).
Proof.
  induction count as [|n IH]; intros Hlen; [reflexivity|].
  rewrite forLoop_snoc, seq_S, !map_app, <- IH by lia.
  unfold Editable.autoLinkBody at 1. rewrite !list_lookup_imap.
  assert (is_Some (l !! (0 + n)%nat)) as [a Ha]
    by (apply lookup_lt_is_Some_2; lia).
  assert (is_Some (l !! (0 + n + 1)%nat)) as [b Hb]
    by (apply lookup_lt_is_Some_2; lia).
  rewrite Ha, Hb. cbn [fmap option_fmap option_map]. rewrite map_app.
  reflexivity.
Qed.

(** If the edge-restoring effect is the last to set the edges of a freshly
    generated flowchart, the edges have other ids but the same ends. *)
Lemma restored_edges_link_the_same (steps : list jsstring)
    (isHorizontal : bool) (st : State) :
  let generated := Editable.generateFlowFromSteps steps isHorizontal st in
  map endpoints
    (edges (Editable.restoreEdges (setEdges (fun _ => []) generated)))
  = map endpoints (edges generated).
Proof.
  cbn zeta. rewrite editable_generate. unfold Editable.restoreEdges.
  cbn [nodes edges setEdges length Nat.eqb andb].
  rewrite length_imap, andb_true_r.
  set (n := length (processSteps steps)).
  destruct (Nat.leb_spec 2 n) as [Hmany|Hfew].
  - rewrite sortNodes_generated, length_imap, upTo_pred.
    fold n.
    pose proof (autoLink_generated Editable.nodeWidth Editable.nodeHeight
                  Editable.gap isHorizontal (processSteps steps) (n - 1)) as H.
    destruct (forLoop _ 0 (n - 1)%nat []) as [|e es] eqn:Hloop.
    + cbn [length Nat.ltb Nat.leb edges]. rewrite <- H by (unfold n; lia).
      reflexivity.
    + cbn [length Nat.ltb Nat.leb edges setEdges].
      rewrite <- H by (unfold n; lia). reflexivity.
  - cbn [edges]. replace (n - 1)%nat with 0%nat by lia. reflexivity.
Qed.

(** C3. With n the number of nodes created, that is, of steps that are not
    empty once cleaned, both interactive variants create the nodes
    node-0 ... node-(n-1) and exactly the n-1 edges that lead from node-i
    to node-(i+1), each of them once.  The vector-graphics variant draws
    one box per step and one connector fewer, each connector leading from
    the far side of a box to the near side of the next.  (In part_000 the
    edges are set from timers; should its edge-restoring effect set them
    last, they have other ids and the same ends.) *)
Theorem edges_chain_the_created_nodes
    (steps : list jsstring) (isHorizontal : bool) (st : State) :
  let n := length (processSteps steps) in
  let simple := Simple.generateFlowFromSteps steps isHorizontal st in
  let editable := Editable.generateFlowFromSteps steps isHorizontal st in
  let picture := Svg.generateSvgFlowchart steps isHorizontal in
  (map node_id (nodes simple) = map nodeId (seq 0 n) /\
   edges simple = map link (seq 0 (n - 1))) /\
  (map node_id (nodes editable) = map nodeId (seq 0 n) /\
   edges editable = map link (seq 0 (n - 1))) /\
  length (edges simple) = (n - 1)%nat /\
  length (edges editable) = (n - 1)%nat /\
  map endpoints
    (edges (Editable.restoreEdges (setEdges (fun _ => []) editable)))
  = map endpoints (edges editable) /\
  (forall i, (i + 1 < n)%nat ->
     edgesBetween (nodeId i) (nodeId (i + 1)) (edges simple) = 1%nat /\
     edgesBetween (nodeId i) (nodeId (i + 1)) (edges editable) = 1%nat) /\
  length (Svg.svgNodes picture) = length steps /\
  length (Svg.svgConnectors picture) = (length steps - 1)%nat /\
  (forall i a b line,
     Svg.svgNodes picture !! i = Some a ->
     Svg.svgNodes picture !! (i + 1)%nat = Some b ->
     Svg.svgConnectors picture !! i = Some line ->
     if isHorizontal then
       Svg.x1 line = (Svg.rect_x a + Svg.rect_width a)%Z /\
       Svg.x2 line = Svg.rect_x b /\
       Svg.y1 line = Svg.y2 line
     else
       Svg.y1 line = (Svg.rect_y a + Svg.rect_height a)%Z /\
       Svg.y2 line = Svg.rect_y b /\
       Svg.x1 line = Svg.x2 line).
Proof.
  cbn zeta.
  pose proof (restored_edges_link_the_same steps isHorizontal st) as Hrestored.
  cbn zeta in Hrestored. revert Hrestored.
  rewrite simple_generate, editable_generate, svg_picture.
  cbn [nodes edges Svg.svgNodes Svg.svgConnectors].
  rewrite !imap_nodeAt_ids, !length_map, !length_seq, length_drop, length_imap.
  intros Hrestored.
  split_and!; try reflexivity.
  - exact Hrestored.
  - intros i Hi. rewrite edgesBetween_chain.
    destruct (Nat.ltb_spec i (length (processSteps steps) - 1));
      [split; reflexivity|lia].
  - intros i a b line Ha Hb Hline.
    rewrite list_lookup_fmap, lookup_drop in Hline.
    replace (1 + i)%nat with (i + 1)%nat in Hline by lia.
    rewrite Hb in Hline. injection Hline as <-.
    rewrite list_lookup_imap in Ha, Hb.
    destruct (steps !! i) as [sa|] eqn:Hsa; [|discriminate].
    destruct (steps !! (i + 1)%nat) as [sb|] eqn:Hsb; [|discriminate].
    injection Ha as <-. injection Hb as <-.
    unfold connectorInto, boxAt.
    replace (i + 1)%nat with (S i) by lia.
    destruct isHorizontal;
      cbn [Svg.x1 Svg.x2 Svg.y1 Svg.y2 Svg.rect_x Svg.rect_y
           Svg.rect_width Svg.rect_height].
    + rewrite (startOf_next _ _ (widthOf sa)).
      * split_and!; [lia|reflexivity|reflexivity].
      * rewrite list_lookup_fmap, Hsa. reflexivity.
    + rewrite (startOf_next _ _ (heightOf sa)).
      * split_and!; [lia|reflexivity|reflexivity].
      * rewrite list_lookup_fmap, Hsa. reflexivity.
Qed.

Lemma edges_chain_the_created_nodes_witness :
  edgesBetween (nodeId 0) (nodeId 1)
    (edges (Simple.generateFlowFromSteps [str "boil"; str "pour"] false initial))
  = 1%nat.
Proof.
  pose proof (edges_chain_the_created_nodes [str "boil"; str "pour"] false
                initial) as (_ & _ & _ & _ & _ & Hbetween & _).
  apply (Hbetween 0%nat). vm_compute. lia.
Defined.

(** C3 as stated fails: of the two steps "```" and "a" only the second
    becomes a node, so there is no edge at all instead of one. *)
Lemma two_steps_without_edge :
  let steps := [str "```"; str "a"] in
  length steps = 2%nat /\
  edges (Simple.generateFlowFromSteps steps false initial) = [] /\
  edges (Editable.generateFlowFromSteps steps false initial) = [] /\
  ~ (forall (steps : list jsstring) (isHorizontal : bool) (st : State),
       (1 <= length steps)%nat ->
       length (edges (Simple.generateFlowFromSteps steps isHorizontal st))
       = (length steps - 1)%nat).
Proof.
  cbn zeta. split_and!; try reflexivity.
  intros H. specialize (H [str "```"; str "a"] false initial).
  vm_compute in H. specialize (H (le_S _ _ (le_n 1))). discriminate.
Qed.

(** C4. In both interactive variants the node of index i is placed, in
    vertical mode, at x = 250 and y = i * (nodeHeight + gap) + 50 and, in
    horizontal mode, at x = i * (nodeWidth + gap) + 100 and y = 100, with
    nodeWidth, nodeHeight, gap being 200, 80, 100 in src/src/App.tsx and
    180, 70, 80 in part_000, both when a flowchart is generated and when it
    is rearranged.  The vector-graphics variant stacks the boxes from 50
    on, each after the previous box's own extent plus 50, and centres them
    on the other axis. *)
Theorem sequential_layout_positions
    (steps : list jsstring) (isHorizontal : bool) (st : State) :
  let n := length (processSteps steps) in
  let picture := Svg.generateSvgFlowchart steps isHorizontal in
  map position (nodes (Simple.generateFlowFromSteps steps isHorizontal st))
  = map (place 200 80 100 isHorizontal) (seq 0 n) /\
  map position (nodes (Editable.generateFlowFromSteps steps isHorizontal st))
  = map (place 180 70 80 isHorizontal) (seq 0 n) /\
  map position (nodes (Simple.rearrangeFlowchart isHorizontal st))
  = map (place 200 80 100 isHorizontal) (seq 0 (length (nodes st))) /\
  map position (nodes (Editable.rearrangeFlowchart isHorizontal st))
  = map (place 180 70 80 isHorizontal) (seq 0 (length (nodes st))) /\
  Svg.svgNodes picture
  = imap (boxAt isHorizontal steps (Svg.totalWidth picture)
            (Svg.totalHeight picture)) steps.
Proof.
  cbn zeta. rewrite simple_generate, editable_generate, svg_picture.
  cbn [nodes Svg.svgNodes Svg.totalWidth Svg.totalHeight].
  assert (Hmoved : forall w h g (ns : list Node),
            map position (imap (moved w h g isHorizontal) ns)
            = map (place w h g isHorizontal) (seq 0 (length ns))).
  { intros w h g ns. induction ns as [|a ns IH] using rev_ind; [reflexivity|].
    rewrite imap_app, map_app, IH, length_app, Nat.add_1_r, seq_S, map_app.
    cbn [imap map moved position]. now rewrite Nat.add_0_r. }
  split_and!; try apply imap_nodeAt_positions; try reflexivity.
  - unfold Simple.rearrangeFlowchart.
    destruct (Nat.eqb_spec (length (nodes st)) 0) as [Hz|Hnz].
    + rewrite Hz. destruct (nodes st); [reflexivity|discriminate].
    + cbn [nodes setNodes]. rewrite <- (Hmoved 200%Z 80%Z 100%Z). f_equal.
      apply imap_ext. intros i node _. unfold Simple.rearranged, moved, place.
      destruct isHorizontal; reflexivity.
  - unfold Editable.rearrangeFlowchart.
    destruct (Nat.eqb_spec (length (nodes st)) 0) as [Hz|Hnz].
    + rewrite Hz. destruct (nodes st); [reflexivity|discriminate].
    + cbn [nodes setNodes setEdges]. rewrite <- (Hmoved 180%Z 70%Z 80%Z).
      f_equal. apply imap_ext. intros i node _.
      unfold Editable.rearranged, moved, place.
      destruct isHorizontal; reflexivity.
Qed.

(** C4 as stated fails: the horizontal position of a node is not its
    vertical position with the axes exchanged, and the two interactive
    variants do not place it at the same point. *)
Lemma horizontal_is_not_vertical_mirrored :
  let steps := [str "boil"; str "pour"] in
  let at1 (st : State) := position <$> nodes st !! 1%nat in
  at1 (Simple.generateFlowFromSteps steps false initial)
  = Some {| pos_x := 250; pos_y := 230 |} /\
  at1 (Simple.generateFlowFromSteps steps true initial)
  = Some {| pos_x := 400; pos_y := 100 |} /\
  at1 (Editable.generateFlowFromSteps steps true initial)
  = Some {| pos_x := 360; pos_y := 100 |} /\
  at1 (Simple.generateFlowFromSteps steps true initial)
  <> mirrored <$> at1 (Simple.generateFlowFromSteps steps false initial) /\
  at1 (Simple.generateFlowFromSteps steps true initial)
  <> at1 (Editable.generateFlowFromSteps steps true initial).
Proof.
  cbn zeta. split_and!; try reflexivity; vm_compute; discriminate.
Qed.

(** C10. generateFlowFromSteps labels its nodes with the cleaned steps
    (code fences removed, the first "graph TD" and the first "graph LR"
    removed, trimmed) that are not empty, in order; a step that is just one
    of the markers gives no node.  Every label is non-empty and has no
    white space at either end, the node of index i has the id node-i, the
    ids are pairwise distinct, and the counter for the next node id is the
    number of nodes plus one. *)
Theorem generated_nodes_are_well_formed
    (steps : list jsstring) (isHorizontal : bool) (st : State) :
  let wellFormed (st' : State) :=
    map label (nodes st') = List.filter truthy (map cleanStep steps) /\
    Forall (fun node => label node <> [] /\ trim (label node) = label node)
      (nodes st') /\
    map node_id (nodes st') = map nodeId (seq 0 (length (nodes st'))) /\
    NoDup (map node_id (nodes st')) /\
    nextNodeId st' = (length (nodes st') + 1)%nat in
  wellFormed (Simple.generateFlowFromSteps steps isHorizontal st) /\
  wellFormed (Editable.generateFlowFromSteps steps isHorizontal st) /\
  processSteps [str "```mermaid"; str "```"; str "graph TD"; str "graph LR";
                str " ```mermaid graph  td  A ``` "]
  = [str "A"].
Proof.
  cbn zeta. rewrite simple_generate, editable_generate.
  cbn [nodes nextNodeId].
  rewrite !imap_nodeAt_ids, !imap_nodeAt_labels, !length_imap.
  assert (Hlabels : forall w h g,
            Forall (fun node => label node <> [] /\ trim (label node) = label node)
              (imap (nodeAt w h g isHorizontal) (processSteps steps))).
  { intros w h g. apply Forall_forall. intros node Hnode.
    apply (in_map label) in Hnode. rewrite imap_nodeAt_labels in Hnode.
    split.
    - pose proof (processSteps_nonempty steps) as Hall.
      rewrite Forall_forall in Hall. now apply Hall.
    - unfold processSteps in Hnode. apply filter_In in Hnode.
      destruct Hnode as [Hnode _]. apply in_map_iff in Hnode.
      destruct Hnode as (step & <- & _). unfold cleanStep.
      apply trim_idempotent. }
  split_and!; try reflexivity; try apply Hlabels; apply nodeIds_distinct.
Qed.

(** ** Generation requests *)

Lemma chatHistory_simple_generate (steps : list jsstring) (isHorizontal : bool)
    (st : State) :
  chatHistory (Simple.generateFlowFromSteps steps isHorizontal st)
  = chatHistory st.
Proof. now rewrite simple_generate. Qed.

Lemma chatHistory_editable_generate (steps : list jsstring)
    (isHorizontal : bool) (st : State) :
  chatHistory (Editable.generateFlowFromSteps steps isHorizontal st)
  = chatHistory st.
Proof. now rewrite editable_generate. Qed.

Lemma chatHistory_complex (structure : list Branch) (st : State) :
  chatHistory (generateComplexFlowchart structure st) = chatHistory st.
Proof.
  unfold generateComplexFlowchart.
  now destruct (forEach complexBody structure ([], [])).
Qed.

Lemma chatHistory_simple_rearrange (isHorizontal : bool) (st : State) :
  chatHistory (Simple.rearrangeFlowchart isHorizontal st) = chatHistory st.
Proof.
  unfold Simple.rearrangeFlowchart.
  now destruct (length (nodes st) =? 0)%nat.
Qed.

Lemma chatHistory_simple_fallback (st : State) :
  chatHistory (Simple.fallback st) = chatHistory st.
Proof.
  unfold Simple.fallback. split_branches;
    cbn [chatHistory setError];
    auto using chatHistory_complex, chatHistory_simple_generate.
Qed.

Lemma chatHistory_editable_fallback (st : State) :
  chatHistory (Editable.fallback st) = chatHistory st.
Proof.
  unfold Editable.fallback. split_branches;
    cbn [chatHistory setError]; apply chatHistory_editable_generate.
Qed.

Lemma chatHistory_svg_fallback (sv : Svg.State) :
  Svg.chatHistory (Svg.fallback sv) = Svg.chatHistory sv.
Proof. unfold Svg.fallback. split_branches; reflexivity. Qed.

Lemma chatHistory_simple_generateFlowchart (st : State)
    (outcome : option jsstring) :
  chatHistory (finish outcome (Simple.generateFlowchart st)) = chatHistory st.
Proof.
  unfold Simple.generateFlowchart.
  destruct (negb (truthy (trim (input st)))); [reflexivity|].
  cbn [input setLoading setError].
  destruct (length (trim (input st)) <? 5)%nat; cbn [finish chatHistory setLoading].
  - now rewrite chatHistory_simple_generate.
  - destruct outcome as [responseText|];
      [destruct (truthy responseText);
       [destruct (length (cleanSegments (JS.split 0xA responseText)) =? 0)%nat|]|];
      rewrite ?chatHistory_simple_fallback, ?chatHistory_simple_generate;
      reflexivity.
Qed.

Lemma chatHistory_editable_generateFlowchart (st : State)
    (outcome : option jsstring) :
  chatHistory (finish outcome (Editable.generateFlowchart st)) = chatHistory st.
Proof.
  unfold Editable.generateFlowchart.
  destruct (negb (truthy (trim (input st)))); [reflexivity|].
  cbn [input setLoading setError].
  destruct (length (trim (input st)) <? 5)%nat; cbn [finish chatHistory setLoading].
  - now rewrite chatHistory_editable_generate.
  - destruct outcome as [responseText|];
      [destruct (truthy responseText)|];
      split_branches;
      rewrite ?chatHistory_editable_fallback, ?chatHistory_editable_generate;
      reflexivity.
Qed.

Lemma chatHistory_svg_generateFlowchart (sv : Svg.State)
    (outcome : option jsstring) :
  Svg.chatHistory (finish outcome (Svg.generateFlowchart sv))
  = Svg.chatHistory sv.
Proof.
  unfold Svg.generateFlowchart.
  destruct (negb (truthy (trim (Svg.input sv)))); [reflexivity|].
  cbn [Svg.input Svg.setLoading Svg.setError].
  destruct (length (trim (Svg.input sv)) <? 5)%nat; [reflexivity|].
  cbn [finish].
  destruct outcome as [responseText|];
    [destruct (truthy responseText);
     [destruct (length (cleanSegments (JS.split 0xA responseText)) =? 0)%nat|]|];
    cbn [Svg.chatHistory Svg.setLoading Svg.renderSvgFlowchart Svg.setDiagram];
    rewrite ?chatHistory_svg_fallback; reflexivity.
Qed.

(** C7. A generation request replaces the nodes and the edges: what
    generateFlowFromSteps and generateComplexFlowchart leave in place does
    not depend on the nodes and edges there were before.  The chat history
    is not cleared: generateFlowchart, in all three variants and whatever
    the outcome of the model call, leaves it as it was. *)
Theorem generation_replaces_diagram_not_chat :
  (forall steps isHorizontal st1 st2,
     nodes (Simple.generateFlowFromSteps steps isHorizontal st1)
     = nodes (Simple.generateFlowFromSteps steps isHorizontal st2) /\
     edges (Simple.generateFlowFromSteps steps isHorizontal st1)
     = edges (Simple.generateFlowFromSteps steps isHorizontal st2)) /\
  (forall steps isHorizontal st1 st2,
     nodes (Editable.generateFlowFromSteps steps isHorizontal st1)
     = nodes (Editable.generateFlowFromSteps steps isHorizontal st2) /\
     edges (Editable.generateFlowFromSteps steps isHorizontal st1)
     = edges (Editable.generateFlowFromSteps steps isHorizontal st2)) /\
  (forall structure st1 st2,
     nodes (generateComplexFlowchart structure st1)
     = nodes (generateComplexFlowchart structure st2) /\
     edges (generateComplexFlowchart structure st1)
     = edges (generateComplexFlowchart structure st2)) /\
  (forall st outcome,
     chatHistory (finish outcome (Simple.generateFlowchart st))
     = chatHistory st) /\
  (forall st outcome,
     chatHistory (finish outcome (Editable.generateFlowchart st))
     = chatHistory st) /\
  (forall sv outcome,
     Svg.chatHistory (finish outcome (Svg.generateFlowchart sv))
     = Svg.chatHistory sv).
Proof.
  split_and!.
  - intros. now rewrite !simple_generate.
  - intros. now rewrite !editable_generate.
  - intros. unfold generateComplexFlowchart.
    now destruct (forEach complexBody structure ([], [])).
  - apply chatHistory_simple_generateFlowchart.
  - apply chatHistory_editable_generateFlowchart.
  - apply chatHistory_svg_generateFlowchart.
Qed.

(** C7 as stated fails: a generation request leaves the chat history in
    place. *)
Lemma generation_keeps_chat_history :
  let said := {| role := user; content := str "hello" |} in
  let st := {| input := str "tea"; chatInput := []; loading := false;
               error := []; chatHistory := [said]; modelType := ollama;
               nodes := []; edges := []; nextNodeId := 1 |} in
  chatHistory (finish None (Simple.generateFlowchart st)) = [said] /\
  chatHistory (finish None (Editable.generateFlowchart st)) = [said] /\
  chatHistory (finish None (Simple.generateFlowchart st)) <> [].
Proof. cbn zeta. split_and!; [reflexivity|reflexivity|discriminate]. Qed.

(** ** The chat transcript *)

Lemma chatHistory_simple_afterReply (userInputText : jsstring)
    (userSteps : list jsstring) (matchFound hasV hasH hadNodes : bool)
    (responseText : jsstring) (st : State) :
  chatHistory (Simple.afterReply userInputText userSteps matchFound hasV hasH
                 hadNodes responseText st)
  = chatHistory st ++ [{| role := assistant; content := responseText |}].
Proof.
  unfold Simple.afterReply. split_branches;
    rewrite ?chatHistory_simple_generate, ?chatHistory_simple_rearrange;
    try reflexivity;
    destruct (Simple.stepsOfReply responseText);
    rewrite ?chatHistory_simple_generate, ?chatHistory_simple_rearrange;
    reflexivity.
Qed.

Lemma chatHistory_editable_afterReply (chatInput responseText : jsstring)
    (st : State) :
  chatHistory (Editable.afterReply chatInput responseText st)
  = chatHistory st ++ [{| role := assistant; content := responseText |}].
Proof.
  unfold Editable.afterReply. split_branches;
    rewrite ?chatHistory_editable_generate; reflexivity.
Qed.

Lemma chatHistory_svg_afterReply (aiResponse : jsstring) (sv : Svg.State) :
  Svg.chatHistory (Svg.afterReply aiResponse sv)
  = Svg.chatHistory sv ++ [{| role := assistant; content := aiResponse |}].
Proof. unfold Svg.afterReply. split_branches; reflexivity. Qed.

Lemma exchanged_two (said reply : jsstring) (old : list ChatMessage) :
  exchanged said old
    ((old ++ [{| role := user; content := said |}])
       ++ [{| role := assistant; content := reply |}]).
Proof. right. exists reply. now rewrite <- app_assoc. Qed.

Lemma exchanged_extends (said : jsstring) (old new : list ChatMessage) :
  exchanged said old new -> exists added, new = old ++ added.
Proof.
  intros [->|(reply & ->)]; [exists []; now rewrite app_nil_r|eauto].
Qed.

Lemma chatHistory_simple_handleSendMessage (st : State)
    (outcome : option jsstring) :
  exchanged (chatInput st) (chatHistory st)
    (chatHistory (finish outcome (Simple.handleSendMessage st))).
Proof.
  unfold Simple.handleSendMessage.
  destruct (negb (truthy (trim (chatInput st)))); [now left|].
  cbn zeta.
  destruct ((0 <? length (nodes st))%nat
            && (Regex.test Simple.verticalRegex (trim (chatInput st))
                || Regex.test Simple.horizontalRegex (trim (chatInput st)))).
  - cbn [finish chatHistory setChatHistory].
    rewrite chatHistory_simple_rearrange. apply exchanged_two.
  - cbn [modelType setLoading setChatInput setChatHistory].
    destruct (modelType st); cbn [finish chatHistory setLoading].
    + rewrite chatHistory_simple_afterReply. apply exchanged_two.
    + destruct outcome as [content|].
      * rewrite chatHistory_simple_afterReply. apply exchanged_two.
      * apply exchanged_two.
Qed.

Lemma chatHistory_editable_handleSendMessage (st : State)
    (outcome : option jsstring) :
  exchanged (chatInput st) (chatHistory st)
    (chatHistory (finish outcome (Editable.handleSendMessage st))).
Proof.
  unfold Editable.handleSendMessage.
  destruct (negb (truthy (trim (chatInput st)))); [now left|].
  cbn [modelType setLoading setChatInput setChatHistory].
  destruct (modelType st); cbn [finish chatHistory setLoading].
  - rewrite chatHistory_editable_afterReply. apply exchanged_two.
  - destruct outcome as [content|].
    + rewrite chatHistory_editable_afterReply. apply exchanged_two.
    + apply exchanged_two.
Qed.

Lemma unchanged_extends (old new : list ChatMessage) :
  new = old -> exists added, new = old ++ added.
Proof. intros ->. exists []. now rewrite app_nil_r. Qed.

Lemma chatHistory_simple_perform (st : State) (op : Simple.Operation) :
  exists added, chatHistory (Simple.perform st op) = chatHistory st ++ added.
Proof.
  destruct op as [steps h|structure|h| |model|said outcome|said outcome];
    cbn [Simple.perform].
  - apply unchanged_extends, chatHistory_simple_generate.
  - apply unchanged_extends, chatHistory_complex.
  - apply unchanged_extends, chatHistory_simple_rearrange.
  - now apply unchanged_extends.
  - now apply unchanged_extends.
  - apply unchanged_extends.
    now rewrite chatHistory_simple_generateFlowchart.
  - apply (exchanged_extends said).
    apply (chatHistory_simple_handleSendMessage (setChatInput said st)).
Qed.

Lemma chatHistory_editable_perform (st : State) (op : Editable.Operation) :
  exists added, chatHistory (Editable.perform st op) = chatHistory st ++ added.
Proof.
  destruct op as [steps h|structure|h|nodeId| | |model|said outcome
                  |said outcome];
    cbn [Editable.perform].
  - apply unchanged_extends, chatHistory_editable_generate.
  - apply unchanged_extends, chatHistory_complex.
  - apply unchanged_extends. unfold Editable.rearrangeFlowchart.
    now destruct (length (nodes st) =? 0)%nat.
  - now apply unchanged_extends.
  - now apply unchanged_extends.
  - apply unchanged_extends. unfold Editable.restoreEdges.
    now split_branches.
  - now apply unchanged_extends.
  - apply unchanged_extends.
    now rewrite chatHistory_editable_generateFlowchart.
  - apply (exchanged_extends said).
    apply (chatHistory_editable_handleSendMessage (setChatInput said st)).
Qed.

Lemma fold_left_extends {Op : Type} (perform : State -> Op -> State) :
  (forall st op,
     exists added, chatHistory (perform st op) = chatHistory st ++ added) ->
  forall ops st,
    exists added,
      chatHistory (fold_left perform ops st) = chatHistory st ++ added.
Proof.
  intros Hstep ops. induction ops as [|op ops IH]; intros st; cbn [fold_left].
  - exists []. now rewrite app_nil_r.
  - destruct (IH (perform st op)) as (later & ->).
    destruct (Hstep st op) as (added & ->).
    exists (added ++ later). now rewrite app_assoc.
Qed.

(** C8. Sending a chat message, in all three variants and whatever the
    outcome of the model call, leaves the transcript as it was (blank
    input) or appends to it one message of the user, with the text typed,
    followed by one message of the assistant (the reply, the canned
    confirmation or the error text); while a request is in flight the
    transcript is the old one followed by the user's message.  No stored
    message is changed or removed: whatever a session of the interactive
    variants goes on to do, the transcript it had stays in place as the
    beginning of the later one. *)
Theorem chat_transcript_is_append_only
    (st : State) (sv : Svg.State) (outcome : option jsstring) :
  exchanged (chatInput st) (chatHistory st)
    (chatHistory (finish outcome (Simple.handleSendMessage st))) /\
  exchanged (chatInput st) (chatHistory st)
    (chatHistory (finish outcome (Editable.handleSendMessage st))) /\
  exchanged (Svg.chatInput sv) (Svg.chatHistory sv)
    (Svg.chatHistory (finish outcome (Svg.sendChatMessage sv))) /\
  match Simple.handleSendMessage st with
  | Fetch pending _ =>
      asked (chatInput st) (chatHistory st) (chatHistory pending)
  | Done _ => True
  end /\
  match Editable.handleSendMessage st with
  | Fetch pending _ =>
      asked (chatInput st) (chatHistory st) (chatHistory pending)
  | Done _ => True
  end /\
  match Svg.sendChatMessage sv with
  | Fetch pending _ =>
      asked (Svg.chatInput sv) (Svg.chatHistory sv) (Svg.chatHistory pending)
  | Done _ => True
  end /\
  (forall before after : list Simple.Operation,
     exists added,
       chatHistory (Simple.session (before ++ after))
       = chatHistory (Simple.session before) ++ added) /\
  (forall before after : list Editable.Operation,
     exists added,
       chatHistory (Editable.session (before ++ after))
       = chatHistory (Editable.session before) ++ added).
Proof.
  split_and!.
  - apply chatHistory_simple_handleSendMessage.
  - apply chatHistory_editable_handleSendMessage.
  - unfold Svg.sendChatMessage.
    destruct (negb (truthy (trim (Svg.chatInput sv)))); [now left|].
    cbn [finish Svg.chatHistory Svg.setLoading].
    destruct outcome as [aiResponse|]; [destruct (truthy aiResponse)|].
    + rewrite chatHistory_svg_afterReply. apply exchanged_two.
    + apply exchanged_two.
    + apply exchanged_two.
  - unfold Simple.handleSendMessage.
    destruct (negb (truthy (trim (chatInput st)))); [exact I|].
    cbn zeta.
    destruct ((0 <? length (nodes st))%nat
              && (Regex.test Simple.verticalRegex (trim (chatInput st))
                  || Regex.test Simple.horizontalRegex (trim (chatInput st))));
      [exact I|].
    cbn [modelType setLoading setChatInput setChatHistory].
    destruct (modelType st); [exact I|reflexivity].
  - unfold Editable.handleSendMessage.
    destruct (negb (truthy (trim (chatInput st)))); [exact I|].
    cbn [modelType setLoading setChatInput setChatHistory].
    destruct (modelType st); [exact I|reflexivity].
  - unfold Svg.sendChatMessage.
    destruct (negb (truthy (trim (Svg.chatInput sv)))); [exact I|reflexivity].
  - intros before after. unfold Simple.session. rewrite fold_left_app.
    apply fold_left_extends, chatHistory_simple_perform.
  - intros before after. unfold Editable.session. rewrite fold_left_app.
    apply fold_left_extends, chatHistory_editable_perform.
Qed.

(** ** Short inputs *)

Lemma truthy_length (s : jsstring) : (1 <= length s)%nat -> truthy s = true.
Proof. destruct s; cbn; [lia|reflexivity]. Qed.

Lemma processSteps_one (step : jsstring) :
  (length (processSteps [step]) <= 1)%nat.
Proof.
  unfold processSteps. cbn [map List.filter].
  destruct (truthy (cleanStep step)); cbn; lia.
Qed.

Lemma processSteps_short (s : jsstring) :
  (1 <= length (trim s) < 5)%nat ->
  includes (str "```") (trim s) = false ->
  processSteps [trim s] = [trim s].
Proof.
  intros [Hlo Hhi] Hfence. unfold processSteps. cbn [map List.filter].
  rewrite cleanStep_short by assumption.
  now rewrite truthy_length.
Qed.

(** C9. For an input whose trimmed length is at least 1 and less than 5,
    generateFlowchart finishes without a model call, reports no error and
    leaves no edge.  In the interactive variants it leaves exactly one
    node, node-0 at (250, 50), labelled with the trimmed input, whenever
    the trimmed input contains no code fence; in the vector-graphics
    variant it draws exactly one box with the trimmed input and no
    connector. *)
Theorem short_input_is_drawn_directly
    (st : State) (sv : Svg.State) (outcome : option jsstring) :
  (1 <= length (trim (input st)) < 5)%nat ->
  (1 <= length (trim (Svg.input sv)) < 5)%nat ->
  let simple := finish outcome (Simple.generateFlowchart st) in
  let editable := finish outcome (Editable.generateFlowchart st) in
  let svg := finish outcome (Svg.generateFlowchart sv) in
  (callsModel (Simple.generateFlowchart st) = false /\
   callsModel (Editable.generateFlowchart st) = false /\
   callsModel (Svg.generateFlowchart sv) = false) /\
  (edges simple = [] /\ error simple = [] /\ loading simple = false /\
   (includes (str "```") (trim (input st)) = false ->
    nodes simple = [nodeAt 200 80 100 false 0 (trim (input st))])) /\
  (edges editable = [] /\ error editable = [] /\ loading editable = false /\
   (includes (str "```") (trim (input st)) = false ->
    nodes editable = [nodeAt 180 70 80 false 0 (trim (input st))])) /\
  (Svg.error svg = [] /\ Svg.loading svg = false /\
   exists picture,
     Svg.diagram svg = Svg.Sequential picture /\
     map Svg.rect_text (Svg.svgNodes picture) = [trim (Svg.input sv)] /\
     Svg.svgConnectors picture = []).
Proof.
  intros [Hlo Hhi] [Hlo' Hhi']. cbn zeta.
  unfold Simple.generateFlowchart, Editable.generateFlowchart,
    Svg.generateFlowchart.
  rewrite !truthy_length by assumption. cbn [negb].
  cbn [input setLoading setError Svg.input Svg.setLoading Svg.setError].
  destruct (Nat.ltb_spec (length (trim (input st))) 5) as [_|]; [|lia].
  destruct (Nat.ltb_spec (length (trim (Svg.input sv))) 5) as [_|]; [|lia].
  cbn [finish callsModel].
  rewrite simple_generate, editable_generate.
  cbn [edges error loading nodes setLoading].
  pose proof (processSteps_one (trim (input st))) as Hone.
  replace (length (processSteps [trim (input st)]) - 1)%nat with 0%nat by lia.
  split_and!; try reflexivity.
  - intros Hfence. rewrite processSteps_short by (auto; lia). reflexivity.
  - intros Hfence. rewrite processSteps_short by (auto; lia). reflexivity.
  - eexists. split; [reflexivity|]. rewrite svg_picture.
    cbn [Svg.svgNodes Svg.svgConnectors imap map drop boxAt Svg.rect_text].
    split; reflexivity.
Qed.

Lemma short_input_is_drawn_directly_witness :
  let st := {| input := str "  tea "; chatInput := []; loading := false;
               error := []; chatHistory := []; modelType := ollama;
               nodes := []; edges := []; nextNodeId := 1 |} in
  nodes (finish None (Simple.generateFlowchart st))
  = [nodeAt 200 80 100 false 0 (str "tea")].
Proof.
  cbn zeta.
  pose proof (short_input_is_drawn_directly
                {| input := str "  tea "; chatInput := []; loading := false;
                   error := []; chatHistory := []; modelType := ollama;
                   nodes := []; edges := []; nextNodeId := 1 |}
                {| Svg.input := str "tea"; Svg.chatInput := [];
                   Svg.loading := false; Svg.error := [];
                   Svg.chatHistory := []; Svg.modelType := ollama;
                   Svg.diagram := Svg.Blank |}
                None) as H.
  destruct H as (_ & (_ & _ & _ & Hnodes) & _).
  - vm_compute. lia.
  - vm_compute. lia.
  - apply Hnodes. vm_compute. reflexivity.
Defined.

(** C9 as stated fails: the three-character input "```" gives no node at
    all, and the input "```a" gives a node labelled "a". *)
Lemma fence_input_gives_no_node :
  let request (text : jsstring) :=
    {| input := text; chatInput := []; loading := false; error := [];
       chatHistory := []; modelType := ollama; nodes := []; edges := [];
       nextNodeId := 1 |} in
  length (trim (str "```")) = 3%nat /\
  nodes (finish None (Simple.generateFlowchart (request (str "```")))) = [] /\
  nodes (finish None (Editable.generateFlowchart (request (str "```")))) = [] /\
  map label (nodes (finish None (Simple.generateFlowchart (request (str "```a")))))
  = [str "a"].
Proof. cbn zeta. split_and!; reflexivity. Qed.

(** ** The fallback cascade of the vector-graphics variant *)







(** * Further properties *)

Import Notions.

(** ** escapeHtml *)

Lemma replaceAll_chr (p : N -> bool) (repl s : jsstring) :
  Regex.replaceAll (Regex.Chr p) repl s
  = flat_map (fun c => if p c then repl else [c]) s.
Proof.
  unfold Regex.replaceAll. induction s as [|c s IH]; [reflexivity|].
  cbn [Regex.replaceAllFrom flat_map].
  unfold Regex.matchAt. cbn [Regex.rmatch].
  destruct (p c).
  - replace (length (c :: s) - length s)%nat with 1%nat by (cbn [length]; lia).
    cbn [take length]. rewrite take_0. cbn [length]. now rewrite IH.
  - now rewrite IH.
Qed.

Lemma flat_map_flat_map {A B C : Type} (f : A -> list B) (g : B -> list C)
    (l : list A) :
  flat_map g (flat_map f l) = flat_map (fun a => flat_map g (f a)) l.
Proof.
  induction l as [|a l IH]; [reflexivity|].
  cbn [flat_map]. now rewrite flat_map_app, IH.
Qed.

Lemma entity_cases (c : N) :
  (c = 0x26 /\ entity c = [0x26; 0x61; 0x6D; 0x70; 0x3B]) \/
  (c = 0x3C /\ entity c = [0x26; 0x6C; 0x74; 0x3B]) \/
  (c = 0x3E /\ entity c = [0x26; 0x67; 0x74; 0x3B]) \/
  (c = 0x22 /\ entity c = [0x26; 0x71; 0x75; 0x6F; 0x74; 0x3B]) \/
  (c = 0x27 /\ entity c = [0x26; 0x23; 0x30; 0x33; 0x39; 0x3B]) \/
  (special c = false /\ entity c = [c]).
Proof.
  unfold entity, special.
  destruct (N.eqb_spec c 0x26) as [->|]; [left; split; reflexivity|].
  destruct (N.eqb_spec c 0x3C) as [->|]; [right; left; split; reflexivity|].
  destruct (N.eqb_spec c 0x3E) as [->|];
    [right; right; left; split; reflexivity|].
  destruct (N.eqb_spec c 0x22) as [->|];
    [right; right; right; left; split; reflexivity|].
  destruct (N.eqb_spec c 0x27) as [->|];
    [right; right; right; right; left; split; reflexivity|].
  right; right; right; right; right. split; reflexivity.
Qed.

Lemma escapeHtml_entities (s : jsstring) :
  Html.escapeHtml s = flat_map entity s.
Proof.
  unfold Html.escapeHtml. rewrite !replaceAll_chr, !flat_map_flat_map.
  apply flat_map_ext. intros c.
  destruct (entity_cases c) as [[-> ->]|[[-> ->]|[[-> ->]|[[-> ->]|[[-> ->]|[Hc ->]]]]]];
    try reflexivity.
  unfold special in Hc.
  destruct (N.eqb_spec c 0x26) as [|H1]; [discriminate|].
  destruct (N.eqb_spec c 0x3C) as [|H2]; [discriminate|].
  destruct (N.eqb_spec c 0x3E) as [|H3]; [discriminate|].
  destruct (N.eqb_spec c 0x22) as [|H4]; [discriminate|].
  destruct (N.eqb_spec c 0x27) as [|H5]; [discriminate|].
  assert (E1 : (0x26 =? c) = false) by (apply N.eqb_neq; congruence).
  assert (E2 : (0x3C =? c) = false) by (apply N.eqb_neq; congruence).
  assert (E3 : (0x3E =? c) = false) by (apply N.eqb_neq; congruence).
  assert (E4 : (0x22 =? c) = false) by (apply N.eqb_neq; congruence).
  assert (E5 : (0x27 =? c) = false) by (apply N.eqb_neq; congruence).
  rewrite E1. cbn [flat_map app]. rewrite E2. cbn [flat_map app].
  rewrite E3. cbn [flat_map app]. rewrite E4. cbn [flat_map app].
  rewrite E5. reflexivity.
Qed.

Lemma entity_no_delimiter (c : N) :
  Forall (fun x => delimiter x = false) (entity c).
Proof.
  destruct (entity_cases c) as [[-> ->]|[[-> ->]|[[-> ->]|[[-> ->]|[[-> ->]|[Hc ->]]]]]];
    try (repeat constructor).
  unfold special in Hc. unfold delimiter.
  destruct (c =? 0x26); [discriminate|]. exact Hc.
Qed.

(** X1. escapeHtml replaces every character on its own: the ampersand
    and the four delimiters by their entities, any other character by
    itself (the five replacements in a row never escape an entity a
    second time).  The result holds no angle bracket and no quote. *)
Theorem escapeHtml_writes_entities (unsafe : jsstring) :
  Html.escapeHtml unsafe = flat_map entity unsafe /\
  Forall (fun c => delimiter c = false) (Html.escapeHtml unsafe).
Proof.
  split; [apply escapeHtml_entities|].
  rewrite escapeHtml_entities.
  induction unsafe as [|c s IH]; [constructor|].
  cbn [flat_map]. apply Forall_app. split; [apply entity_no_delimiter|exact IH].
Qed.

Lemma entity_prefix_free (a b : N) (x y : jsstring) :
  entity a ++ x = entity b ++ y -> a = b /\ x = y.
Proof.
  intros H.
  destruct (entity_cases a) as [[-> Ea]|[[-> Ea]|[[-> Ea]|[[-> Ea]|[[-> Ea]|[Ha Ea]]]]]];
    destruct (entity_cases b) as [[-> Eb]|[[-> Eb]|[[-> Eb]|[[-> Eb]|[[-> Eb]|[Hb Eb]]]]]];
    rewrite Ea in H; rewrite ?Eb in H; cbn [app] in H;
    try (injection H as H; try discriminate; split; [reflexivity|congruence]);
    try discriminate.
  all: try (injection H as Hc Hx; subst; discriminate).
  injection H as -> ->. split; reflexivity.
Qed.

Lemma flat_map_entity_inj (s t : jsstring) :
  flat_map entity s = flat_map entity t -> s = t.
Proof.
  revert t. induction s as [|a s IH]; intros [|b t] H.
  - reflexivity.
  - cbn [flat_map] in H.
    destruct (entity_cases b) as [[_ E]|[[_ E]|[[_ E]|[[_ E]|[[_ E]|[_ E]]]]]];
      rewrite E in H; discriminate.
  - cbn [flat_map] in H.
    destruct (entity_cases a) as [[_ E]|[[_ E]|[[_ E]|[[_ E]|[[_ E]|[_ E]]]]]];
      rewrite E in H; discriminate.
  - cbn [flat_map] in H. apply entity_prefix_free in H as [-> H].
    f_equal. now apply IH.
Qed.

(** X2. escapeHtml loses nothing: two texts that escape to the same
    markup are the same text. *)
Theorem escapeHtml_is_injective (s t : jsstring) :
  Html.escapeHtml s = Html.escapeHtml t -> s = t.
Proof. rewrite !escapeHtml_entities. apply flat_map_entity_inj. Qed.

Lemma escapeHtml_is_injective_witness :
  str "a<b & c" = [0x61; 0x3C; 0x62; 0x20; 0x26; 0x20; 0x63].
Proof.
  apply (escapeHtml_is_injective (str "a<b & c")
           [0x61; 0x3C; 0x62; 0x20; 0x26; 0x20; 0x63]).
  reflexivity.
Defined.

Lemma entity_length (c : N) :
  (1 <= length (entity c))%nat /\
  (length (entity c) = 1%nat <-> special c = false).
Proof.
  destruct (entity_cases c) as [[-> ->]|[[-> ->]|[[-> ->]|[[-> ->]|[[-> ->]|[Hc ->]]]]]];
    cbn [length]; (split; [lia|]); try (split; [lia|discriminate]).
  split; [intros _; exact Hc|reflexivity].
Qed.

Lemma flat_map_entity_length (s : jsstring) :
  (length s <= length (flat_map entity s))%nat /\
  (length (flat_map entity s) = length s ->
   Forall (fun c => special c = false) s).
Proof.
  induction s as [|c s [IHle IHeq]]; [split; [reflexivity|constructor]|].
  cbn [flat_map]. rewrite length_app. cbn [length].
  destruct (entity_length c) as [Hle Hone]. split; [lia|].
  intros H. constructor.
  - apply Hone. lia.
  - apply IHeq. lia.
Qed.

(** X3. escapeHtml never shortens a text, and it returns the text
    unchanged exactly when the text holds none of the five characters it
    rewrites. *)
Theorem escapeHtml_fixed_points (s : jsstring) :
  (length s <= length (Html.escapeHtml s))%nat /\
  (Html.escapeHtml s = s <-> Forall (fun c => special c = false) s).
Proof.
  rewrite escapeHtml_entities. split; [apply flat_map_entity_length|]. split.
  - intros H. apply flat_map_entity_length. now rewrite H.
  - intros H. induction H as [|c s Hc _ IH]; [reflexivity|].
    cbn [flat_map]. rewrite IH.
    destruct (entity_cases c) as [[-> _]|[[-> _]|[[-> _]|[[-> _]|[[-> _]|[_ ->]]]]]];
      try discriminate.
    reflexivity.
Qed.

(** ** Identifiers of nodes *)

Lemma digits_are_digits (d : Decimal.uint) :
  Forall (fun c => isDigit c = true) (digits d).
Proof. induction d; cbn [digits]; constructor; auto. Qed.

Lemma num_digits (k : nat) : Forall (fun c => isDigit c = true) (num k).
Proof. apply digits_are_digits. Qed.

Lemma digits_then_rest (d1 d2 x y : jsstring) :
  Forall (fun c => isDigit c = true) d1 ->
  Forall (fun c => isDigit c = true) d2 ->
  boundary isDigit x -> boundary isDigit y ->
  d1 ++ x = d2 ++ y -> d1 = d2 /\ x = y.
Proof.
  intros H1. revert d2. induction H1 as [|a d1 Ha _ IH]; intros d2 H2 Hx Hy H.
  - destruct H2 as [|b d2 Hb _]; [split; [reflexivity|exact H]|].
    cbn [app] in H. subst x. cbn [boundary] in Hx. congruence.
  - destruct H2 as [|b d2 Hb H2].
    + cbn [app] in H. subst y. cbn [boundary] in Hy. congruence.
    + cbn [app] in H. injection H as -> H.
      destruct (IH d2 H2 Hx Hy H) as [-> ->]. split; reflexivity.
Qed.

Lemma tagged_inj (i j : nat) (s t : jsstring) :
  boundary isDigit s -> boundary isDigit t ->
  tagged i s = tagged j t -> i = j /\ s = t.
Proof.
  unfold tagged. intros Hs Ht H%app_inv_head.
  apply digits_then_rest in H as [H ->]; auto using num_digits.
  split; [now apply num_inj|reflexivity].
Qed.

Lemma nodeId_tagged (k : nat) : nodeId k = tagged k [].
Proof. unfold nodeId, tagged. now rewrite app_nil_r. Qed.

Lemma nodeId_not_tagged (k i : nat) (s : jsstring) :
  boundary isDigit s -> s <> [] -> nodeId k <> tagged i s.
Proof.
  intros Hs Hne H. rewrite nodeId_tagged in H.
  apply tagged_inj in H as [_ H]; [congruence|exact I|exact Hs].
Qed.

Lemma nodeId_not_welcome (k : nat) : nodeId k <> str "welcome".
Proof. unfold nodeId. intros H. vm_compute in H. discriminate. Qed.

(** ** What generateComplexFlowchart builds *)

Lemma complex_built (structure : list Branch) :
  forEach complexBody structure ([], [])
  = (concat (imap branchNodes structure), concat (imap branchEdges structure)).
Proof.
  induction structure as [|b l IH] using rev_ind; [reflexivity|].
  rewrite forEach_snoc, IH, !imap_app, !concat_app.
  cbn [imap concat]. rewrite !app_nil_r, Nat.add_0_r.
  unfold complexBody, branchNodes, branchEdges, rightId, belowId, tagged.
  fold (mainId (length l)).
  replace (str "node-" ++ num (length l - 1) ++ str "-main")
    with (mainId (length l - 1)) by reflexivity.
  replace (Z.of_nat (length l) * (80 + 150) + 50)%Z
    with (Z.of_nat (length l) * 230 + 50)%Z by lia.
  replace (250 + 200 + 250)%Z with 700%Z by reflexivity.
  replace (Z.of_nat (length l) * 230 + 50 + 80 + 150 / 2)%Z
    with (Z.of_nat (length l) * 230 + 50 + 155)%Z
    by (change (150 / 2)%Z with 75%Z; lia).
  destruct (present (right b)), (present (below b)), (0 <? length l)%nat;
    cbn [app]; rewrite <- ?app_assoc; cbn [app]; rewrite ?app_nil_r;
    reflexivity.
Qed.

Lemma complex_generate (structure : list Branch) (st : State) :
  generateComplexFlowchart structure st
  = {| input := input st; chatInput := chatInput st; loading := loading st;
       error := error st; chatHistory := chatHistory st;
       modelType := modelType st;
       nodes := concat (imap branchNodes structure);
       edges := concat (imap branchEdges structure);
       nextNodeId := length (concat (imap branchNodes structure)) + 1 |}.
Proof.
  unfold generateComplexFlowchart. rewrite complex_built. reflexivity.
Qed.

(** The ids of the nodes of an entry: the entry's number and a suffix. *)
Lemma branchNodes_ids (i : nat) (b : Branch) :
  NoDup (map node_id (branchNodes i b)) /\
  forall id, id ∈ map node_id (branchNodes i b) ->
    exists s, boundary isDigit s /\ s <> [] /\ id = tagged i s.
Proof.
  assert (Hmain : mainId i = tagged i (str "-main")) by reflexivity.
  assert (Hmr : mainId i <> rightId i).
  { rewrite Hmain. intros H. apply tagged_inj in H as [_ H];
      [discriminate|exact eq_refl|exact eq_refl]. }
  assert (Hmb : mainId i <> belowId i).
  { rewrite Hmain. intros H. apply tagged_inj in H as [_ H];
      [discriminate|exact eq_refl|exact eq_refl]. }
  assert (Hrb : rightId i <> belowId i).
  { intros H. apply tagged_inj in H as [_ H];
      [discriminate|exact eq_refl|exact eq_refl]. }
  assert (Hform : forall id,
             id = mainId i \/ id = rightId i \/ id = belowId i ->
             exists s, boundary isDigit s /\ s <> [] /\ id = tagged i s).
  { intros id [->|[->| ->]].
    - exists (str "-main"). split_and!; [exact eq_refl|discriminate|exact Hmain].
    - exists (str "-right"). split_and!; [exact eq_refl|discriminate|reflexivity].
    - exists (str "-below"). split_and!; [exact eq_refl|discriminate|reflexivity]. }
  unfold branchNodes.
  destruct (present (right b)), (present (below b)); cbn [app map node_id];
    (split;
     [repeat (apply NoDup_cons_2;
              [rewrite ?elem_of_cons, elem_of_nil; intuition congruence|]);
      apply NoDup_nil_2
     |intros id Hid; apply Hform;
      rewrite ?elem_of_cons, elem_of_nil in Hid; intuition auto]).
Qed.

Lemma complex_ids (structure : list Branch) :
  NoDup (map node_id (concat (imap branchNodes structure))) /\
  forall id, id ∈ map node_id (concat (imap branchNodes structure)) ->
    exists i s, (i < length structure)%nat /\
                boundary isDigit s /\ s <> [] /\ id = tagged i s.
Proof.
  induction structure as [|b l [IHdup IHform]] using rev_ind.
  - split; [apply NoDup_nil_2|]. intros id Hid. inversion Hid.
  - rewrite imap_app, concat_app, map_app. cbn [imap concat].
    rewrite app_nil_r, Nat.add_0_r.
    destruct (branchNodes_ids (length l) b) as [Hdup Hform]. split.
    + apply list.NoDup_app. split_and!; [exact IHdup| |exact Hdup].
      intros id Hold Hnew.
      destruct (IHform id Hold) as (i & s & Hi & Hs & _ & ->).
      destruct (Hform _ Hnew) as (t & Ht & _ & H).
      apply tagged_inj in H as [H _]; auto. lia.
    + intros id [Hold|Hnew]%elem_of_app; rewrite length_app; cbn [length].
      * destruct (IHform id Hold) as (i & s & Hi & Hs).
        exists i, s. split; [lia|exact Hs].
      * destruct (Hform id Hnew) as (s & Hs). exists (length l), s.
        split; [lia|exact Hs].
Qed.

(** ** Invariants of the diagram along a session

    A property of the nodes, the edges and the counter that every
    diagram-building operation establishes or keeps holds in every state a
    session reaches. *)

Section SimpleSessions.
Variable P : State -> Prop.
Hypothesis P_frame : forall st st',
  nodes st' = nodes st -> edges st' = edges st ->
  nextNodeId st' = nextNodeId st -> P st -> P st'.
Hypothesis P_generate : forall steps isHorizontal st,
  P (Simple.generateFlowFromSteps steps isHorizontal st).
Hypothesis P_complex : forall structure st,
  P (generateComplexFlowchart structure st).
Hypothesis P_rearrange : forall isHorizontal st,
  P st -> P (Simple.rearrangeFlowchart isHorizontal st).
Hypothesis P_addNode : forall st, P st -> P (Simple.addNode st).

Lemma simple_keeps_setLoading (v : bool) (st : State) :
  P st -> P (setLoading v st).
Proof. now apply P_frame. Qed.

Lemma simple_keeps_setError (v : jsstring) (st : State) :
  P st -> P (setError v st).
Proof. now apply P_frame. Qed.

Lemma simple_keeps_setInput (v : jsstring) (st : State) :
  P st -> P (setInput v st).
Proof. now apply P_frame. Qed.

Lemma simple_keeps_setChatInput (v : jsstring) (st : State) :
  P st -> P (setChatInput v st).
Proof. now apply P_frame. Qed.

Lemma simple_keeps_setChatHistory (f : list ChatMessage -> list ChatMessage) (st : State) :
  P st -> P (setChatHistory f st).
Proof. now apply P_frame. Qed.

Lemma simple_keeps_setModelType (v : ModelType) (st : State) :
  P st -> P (setModelType v st).
Proof. now apply P_frame. Qed.

Ltac frame_P :=
  repeat match goal with
         | H : P ?st |- P ?st => exact H
         | |- P (Simple.generateFlowFromSteps _ _ _) => apply P_generate
         | |- P (generateComplexFlowchart _ _) => apply P_complex
         | |- P (Simple.rearrangeFlowchart _ _) => apply P_rearrange
         | |- P (Simple.addNode _) => apply P_addNode
         | |- P (setLoading _ _) => apply simple_keeps_setLoading
         | |- P (setError _ _) => apply simple_keeps_setError
         | |- P (setInput _ _) => apply simple_keeps_setInput
         | |- P (setChatInput _ _) => apply simple_keeps_setChatInput
         | |- P (setChatHistory _ _) => apply simple_keeps_setChatHistory
         | |- P (setModelType _ _) => apply simple_keeps_setModelType
         end.

Lemma simple_fallback_keeps (st : State) : P st -> P (Simple.fallback st).
Proof. intros H. unfold Simple.fallback. split_branches; frame_P. Qed.

Lemma simple_generateFlowchart_keeps (st : State)
    (outcome : option jsstring) :
  P st -> P (finish outcome (Simple.generateFlowchart st)).
Proof.
  intros H. unfold Simple.generateFlowchart.
  destruct (negb (truthy (trim (input st)))); [exact H|].
  cbn zeta.
  destruct (length (trim (input (setError [] (setLoading true st)))) <? 5)%nat;
    cbn [finish]; [frame_P|].
  assert (Hst : P (setError [] (setLoading true st))) by frame_P.
  destruct outcome as [responseText|];
    [destruct (truthy responseText);
     [destruct (length (cleanSegments (JS.split 0xA responseText)) =? 0)%nat|]|];
    frame_P; now apply simple_fallback_keeps.
Qed.

Lemma simple_afterReply_keeps (userInputText : jsstring)
    (userSteps : list jsstring) (matchFound hasV hasH hadNodes : bool)
    (responseText : jsstring) (st : State) :
  P st ->
  P (Simple.afterReply userInputText userSteps matchFound hasV hasH
       hadNodes responseText st).
Proof.
  intros H. unfold Simple.afterReply.
  assert (Hst : forall m, P (setChatHistory (fun prev => prev ++ [m]) st))
    by (intros m; frame_P).
  split_branches; frame_P;
    destruct (Simple.stepsOfReply responseText); frame_P.
Qed.

Lemma simple_handleSendMessage_keeps (st : State)
    (outcome : option jsstring) :
  P st -> P (finish outcome (Simple.handleSendMessage st)).
Proof.
  intros H. unfold Simple.handleSendMessage.
  destruct (negb (truthy (trim (chatInput st)))); [exact H|].
  cbn zeta.
  destruct ((0 <? length (nodes st))%nat
            && (Regex.test Simple.verticalRegex (trim (chatInput st))
                || Regex.test Simple.horizontalRegex (trim (chatInput st)))).
  - cbn [finish]. frame_P.
  - change (modelType (setLoading true (setChatInput [] (setChatHistory _ st))))
      with (modelType st).
    destruct (modelType st); cbn [finish].
    + frame_P. apply simple_afterReply_keeps. frame_P.
    + destruct outcome as [content|]; frame_P.
      apply simple_afterReply_keeps. frame_P.
Qed.

Lemma simple_perform_keeps (st : State) (op : Simple.Operation) :
  P st -> P (Simple.perform st op).
Proof.
  intros H. destruct op; cbn [Simple.perform]; frame_P.
  - apply simple_generateFlowchart_keeps. frame_P.
  - apply simple_handleSendMessage_keeps. frame_P.
Qed.

Lemma simple_session_keeps (ops : list Simple.Operation) :
  P initial -> P (Simple.session ops).
Proof.
  unfold Simple.session. generalize initial.
  induction ops as [|op ops IH]; intros st Hst; [exact Hst|].
  cbn [fold_left]. apply IH. now apply simple_perform_keeps.
Qed.

End SimpleSessions.

Section EditableSessions.
Variable P : State -> Prop.
Hypothesis P_frame : forall st st',
  nodes st' = nodes st -> edges st' = edges st ->
  nextNodeId st' = nextNodeId st -> P st -> P st'.
Hypothesis P_generate : forall steps isHorizontal st,
  P (Editable.generateFlowFromSteps steps isHorizontal st).
Hypothesis P_complex : forall structure st,
  P (generateComplexFlowchart structure st).
Hypothesis P_rearrange : forall isHorizontal st,
  P st -> P (Editable.rearrangeFlowchart isHorizontal st).
Hypothesis P_addNode : forall st, P st -> P (Editable.addNode st).
Hypothesis P_deleteNode : forall nodeId st,
  P st -> P (Editable.deleteNode nodeId st).
Hypothesis P_restoreEdges : forall st, P st -> P (Editable.restoreEdges st).

Lemma editable_keeps_setLoading (v : bool) (st : State) :
  P st -> P (setLoading v st).
Proof. now apply P_frame. Qed.

Lemma editable_keeps_setError (v : jsstring) (st : State) :
  P st -> P (setError v st).
Proof. now apply P_frame. Qed.

Lemma editable_keeps_setInput (v : jsstring) (st : State) :
  P st -> P (setInput v st).
Proof. now apply P_frame. Qed.

Lemma editable_keeps_setChatInput (v : jsstring) (st : State) :
  P st -> P (setChatInput v st).
Proof. now apply P_frame. Qed.

Lemma editable_keeps_setChatHistory (f : list ChatMessage -> list ChatMessage) (st : State) :
  P st -> P (setChatHistory f st).
Proof. now apply P_frame. Qed.

Lemma editable_keeps_setModelType (v : ModelType) (st : State) :
  P st -> P (setModelType v st).
Proof. now apply P_frame. Qed.

Ltac frame_P :=
  repeat match goal with
         | H : P ?st |- P ?st => exact H
         | |- P (Editable.generateFlowFromSteps _ _ _) => apply P_generate
         | |- P (generateComplexFlowchart _ _) => apply P_complex
         | |- P (Editable.rearrangeFlowchart _ _) => apply P_rearrange
         | |- P (Editable.addNode _) => apply P_addNode
         | |- P (Editable.deleteNode _ _) => apply P_deleteNode
         | |- P (Editable.restoreEdges _) => apply P_restoreEdges
         | |- P (setLoading _ _) => apply editable_keeps_setLoading
         | |- P (setError _ _) => apply editable_keeps_setError
         | |- P (setInput _ _) => apply editable_keeps_setInput
         | |- P (setChatInput _ _) => apply editable_keeps_setChatInput
         | |- P (setChatHistory _ _) => apply editable_keeps_setChatHistory
         | |- P (setModelType _ _) => apply editable_keeps_setModelType
         end.

Lemma editable_fallback_keeps (st : State) : P st -> P (Editable.fallback st).
Proof. intros H. unfold Editable.fallback. split_branches; frame_P. Qed.

Lemma editable_generateFlowchart_keeps (st : State)
    (outcome : option jsstring) :
  P st -> P (finish outcome (Editable.generateFlowchart st)).
Proof.
  intros H. unfold Editable.generateFlowchart.
  destruct (negb (truthy (trim (input st)))); [exact H|].
  cbn zeta.
  destruct (length (trim (input (setError [] (setLoading true st)))) <? 5)%nat;
    cbn [finish]; [frame_P|].
  assert (Hst : P (setError [] (setLoading true st))) by frame_P.
  destruct outcome as [responseText|];
    [destruct (truthy responseText)|]; split_branches; frame_P;
    now apply editable_fallback_keeps.
Qed.

Lemma editable_afterReply_keeps (chatInput responseText : jsstring)
    (st : State) :
  P st -> P (Editable.afterReply chatInput responseText st).
Proof.
  intros H. unfold Editable.afterReply. split_branches; frame_P.
Qed.

Lemma editable_handleSendMessage_keeps (st : State)
    (outcome : option jsstring) :
  P st -> P (finish outcome (Editable.handleSendMessage st)).
Proof.
  intros H. unfold Editable.handleSendMessage.
  destruct (negb (truthy (trim (chatInput st)))); [exact H|].
  change (modelType (setLoading true (setChatInput [] (setChatHistory _ st))))
    with (modelType st).
  destruct (modelType st); cbn [finish].
  - frame_P. apply editable_afterReply_keeps. frame_P.
  - destruct outcome as [content|]; frame_P.
    apply editable_afterReply_keeps. frame_P.
Qed.

Lemma editable_perform_keeps (st : State) (op : Editable.Operation) :
  P st -> P (Editable.perform st op).
Proof.
  intros H. destruct op; cbn [Editable.perform]; frame_P.
  - apply editable_generateFlowchart_keeps. frame_P.
  - apply editable_handleSendMessage_keeps. frame_P.
Qed.

Lemma editable_session_keeps (ops : list Editable.Operation) :
  P Editable.mounted -> P (Editable.session ops).
Proof.
  unfold Editable.session. generalize Editable.mounted.
  induction ops as [|op ops IH]; intros st Hst; [exact Hst|].
  cbn [fold_left]. apply IH. now apply editable_perform_keeps.
Qed.

End EditableSessions.

(** ** Node ids stay unique *)

Lemma uniqueIds_frame (st st' : State) :
  nodes st' = nodes st -> edges st' = edges st ->
  nextNodeId st' = nextNodeId st -> uniqueIds st -> uniqueIds st'.
Proof. unfold uniqueIds. intros -> _ ->. auto. Qed.

Lemma uniqueIds_chain (ns : list Node) (n next : nat) :
  map node_id ns = map nodeId (seq 0 n) -> (n <= next)%nat ->
  NoDup (map node_id ns) /\
  forall k, (next <= k)%nat -> nodeId k ∉ map node_id ns.
Proof.
  intros -> Hn. split; [apply nodeIds_distinct|].
  intros k Hk Hin. apply list_elem_of_fmap in Hin as (j & Hj & Hin).
  apply nodeId_inj in Hj. subst j. apply elem_of_seq in Hin. lia.
Qed.

Lemma uniqueIds_simple_generate (steps : list jsstring) (isHorizontal : bool)
    (st : State) :
  uniqueIds (Simple.generateFlowFromSteps steps isHorizontal st).
Proof.
  rewrite simple_generate. unfold uniqueIds. cbn [nodes nextNodeId].
  apply (uniqueIds_chain _ (length (processSteps steps)));
    [apply imap_nodeAt_ids|lia].
Qed.

Lemma uniqueIds_editable_generate (steps : list jsstring)
    (isHorizontal : bool) (st : State) :
  uniqueIds (Editable.generateFlowFromSteps steps isHorizontal st).
Proof.
  rewrite editable_generate. unfold uniqueIds. cbn [nodes nextNodeId].
  apply (uniqueIds_chain _ (length (processSteps steps)));
    [apply imap_nodeAt_ids|lia].
Qed.

Lemma uniqueIds_complex (structure : list Branch) (st : State) :
  uniqueIds (generateComplexFlowchart structure st).
Proof.
  rewrite complex_generate. unfold uniqueIds. cbn [nodes nextNodeId].
  destruct (complex_ids structure) as [Hdup Hform]. split; [exact Hdup|].
  intros k _ Hin. destruct (Hform _ Hin) as (i & s & _ & Hs & Hne & H).
  now apply nodeId_not_tagged in H.
Qed.

Lemma uniqueIds_same_ids (ns : list Node) (st : State) :
  map node_id ns = map node_id (nodes st) ->
  uniqueIds st -> uniqueIds (setNodes (fun _ => ns) st).
Proof.
  unfold uniqueIds. cbn [nodes setNodes nextNodeId]. intros ->. auto.
Qed.

Lemma uniqueIds_simple_rearrange (isHorizontal : bool) (st : State) :
  uniqueIds st -> uniqueIds (Simple.rearrangeFlowchart isHorizontal st).
Proof.
  intros H. unfold Simple.rearrangeFlowchart.
  destruct (length (nodes st) =? 0)%nat; [exact H|].
  apply uniqueIds_same_ids; [|exact H]. now apply imap_keeps_ids.
Qed.

Lemma uniqueIds_editable_rearrange (isHorizontal : bool) (st : State) :
  uniqueIds st -> uniqueIds (Editable.rearrangeFlowchart isHorizontal st).
Proof.
  intros H. unfold Editable.rearrangeFlowchart.
  destruct (length (nodes st) =? 0)%nat; [exact H|].
  unfold uniqueIds in *. cbn [nodes setNodes setEdges nextNodeId].
  rewrite imap_keeps_ids; [exact H|reflexivity].
Qed.

Lemma uniqueIds_add (node : Node) (st : State) :
  node_id node = nodeId (nextNodeId st) ->
  uniqueIds st ->
  uniqueIds (setNextNodeId (nextNodeId st + 1)
               (setNodes (fun nds => nds ++ [node]) st)).
Proof.
  unfold uniqueIds. cbn [nodes setNodes setNextNodeId nextNodeId].
  intros Hid [Hdup Hfresh]. rewrite map_app. cbn [map]. rewrite Hid. split.
  - apply list.NoDup_app. split_and!; [exact Hdup| |].
    + intros id Hold Hnew. apply list_elem_of_singleton in Hnew. subst id.
      now apply (Hfresh (nextNodeId st)).
    + apply NoDup_singleton.
  - intros k Hk [Hold|Hnew]%elem_of_app.
    + apply (Hfresh k); [lia|exact Hold].
    + apply list_elem_of_singleton, nodeId_inj in Hnew. lia.
Qed.

Lemma uniqueIds_simple_addNode (st : State) :
  uniqueIds st -> uniqueIds (Simple.addNode st).
Proof. apply uniqueIds_add. reflexivity. Qed.

Lemma uniqueIds_editable_addNode (st : State) :
  uniqueIds st -> uniqueIds (Editable.addNode st).
Proof. apply uniqueIds_add. reflexivity. Qed.

Lemma uniqueIds_deleteNode (nodeId : jsstring) (st : State) :
  uniqueIds st -> uniqueIds (Editable.deleteNode nodeId st).
Proof.
  unfold uniqueIds, Editable.deleteNode.
  cbn [nodes setNodes setEdges nextNodeId]. intros [Hdup Hfresh].
  assert (Hsub : sublist (map node_id (filter (fun node => node_id node <> nodeId)
                                         (nodes st)))
                   (map node_id (nodes st)))
    by (apply (fmap_sublist node_id), sublist_filter).
  split.
  - eapply sublist_NoDup; eassumption.
  - intros k Hk Hin. apply (Hfresh k Hk).
    eapply elem_of_sublist; eassumption.
Qed.

Lemma uniqueIds_restoreEdges (st : State) :
  uniqueIds st -> uniqueIds (Editable.restoreEdges st).
Proof.
  intros H. unfold Editable.restoreEdges.
  destruct ((2 <=? length (nodes st)) && (length (edges st) =? 0))%nat;
    [|exact H].
  cbn zeta.
  match goal with
  | |- uniqueIds (if ?b then _ else _) => destruct b; [|exact H]
  end.
  exact H.
Qed.

Lemma uniqueIds_initial : uniqueIds initial.
Proof.
  split; [apply NoDup_nil_2|]. intros k _ Hin. inversion Hin.
Qed.

Lemma uniqueIds_mounted : uniqueIds Editable.mounted.
Proof.
  split; [apply NoDup_singleton|].
  intros k _ Hin. apply list_elem_of_singleton in Hin.
  now apply nodeId_not_welcome in Hin.
Qed.

Lemma uniqueIds_simple_session (ops : list Simple.Operation) :
  uniqueIds (Simple.session ops).
Proof.
  apply simple_session_keeps;
    eauto using uniqueIds_frame, uniqueIds_simple_generate, uniqueIds_complex,
      uniqueIds_simple_rearrange, uniqueIds_simple_addNode, uniqueIds_initial.
Qed.

Lemma uniqueIds_editable_session (ops : list Editable.Operation) :
  uniqueIds (Editable.session ops).
Proof.
  apply editable_session_keeps;
    eauto using uniqueIds_frame, uniqueIds_editable_generate,
      uniqueIds_complex, uniqueIds_editable_rearrange,
      uniqueIds_editable_addNode, uniqueIds_deleteNode,
      uniqueIds_restoreEdges, uniqueIds_mounted.
Qed.

(** X4. In every state that a session reaches, in either interactive
    variant, no two nodes have the same id, and the id that addNode gives
    the next node is not in use. *)
Theorem node_ids_stay_unique :
  (forall ops : list Simple.Operation,
     let st := Simple.session ops in
     NoDup (map node_id (nodes st)) /\
     (nodeId (nextNodeId st) ∉ map node_id (nodes st))) /\
  (forall ops : list Editable.Operation,
     let st := Editable.session ops in
     NoDup (map node_id (nodes st)) /\
     (nodeId (nextNodeId st) ∉ map node_id (nodes st))).
Proof.
  split; intros ops; cbn zeta.
  - destruct (uniqueIds_simple_session ops) as [Hdup Hfresh]. auto.
  - destruct (uniqueIds_editable_session ops) as [Hdup Hfresh]. auto.
Qed.

(** ** Editing the text of a node *)

Lemma relabel_keeps (editing newText : jsstring) (node : Node) :
  node_id (Editor.relabel editing newText node) = node_id node /\
  position (Editor.relabel editing newText node) = position node.
Proof. unfold Editor.relabel. destruct (decide _); split; reflexivity. Qed.

Lemma same_id_same_node (ns : list Node) (a b : Node) :
  NoDup (map node_id ns) -> a ∈ ns -> b ∈ ns -> node_id a = node_id b ->
  a = b.
Proof.
  induction ns as [|n ns IH]; intros Hdup Ha Hb Hid; [inversion Ha|].
  cbn [map] in Hdup. apply list.NoDup_cons in Hdup as [Hn Hdup].
  apply elem_of_cons in Ha as [->|Ha]; apply elem_of_cons in Hb as [->|Hb].
  - reflexivity.
  - exfalso. apply Hn. rewrite Hid. apply list_elem_of_fmap. now exists b.
  - exfalso. apply Hn. rewrite <- Hid. apply list_elem_of_fmap. now exists a.
  - now apply IH.
Qed.

Lemma relabel_own_label (ns : list Node) (node : Node) :
  NoDup (map node_id ns) -> node ∈ ns ->
  map (Editor.relabel (node_id node) (label node)) ns = ns.
Proof.
  intros Hdup Hnode. rewrite <- (map_id ns) at 2.
  apply map_ext_in. intros n Hn%list_elem_of_In.
  unfold Editor.relabel. destruct (decide (node_id n = node_id node)) as [Hid|];
    [|reflexivity].
  rewrite (same_id_same_node ns n node Hdup Hn Hnode Hid).
  now destruct node.
Qed.

Lemma setNodes_same (f : list Node -> list Node) (st : State) :
  f (nodes st) = nodes st -> setNodes f st = st.
Proof. intros H. destruct st. unfold setNodes. cbn in *. now rewrite H. Qed.

(** X5. Saving the text of the editor changes the label of the node that
    is being edited to the text typed and closes the editor.  Every node
    keeps its place in the list, its id and its position, every other
    node its label too; the edges and the rest of the state are as
    before, so edges still end at nodes of the diagram.  With no node
    being edited, saving changes nothing. *)
Theorem updateNodeText_changes_one_label (ed : Editor.Editing) (st : State) :
  let st' := fst (Editor.updateNodeText ed st) in
  let ed' := snd (Editor.updateNodeText ed st) in
  (present (Editor.editingNode ed) = None -> st' = st /\ ed' = ed) /\
  (forall editing, present (Editor.editingNode ed) = Some editing ->
     Editor.editingNode ed' = None /\
     length (nodes st') = length (nodes st) /\
     forall i node, nodes st !! i = Some node ->
       exists node',
         nodes st' !! i = Some node' /\
         node_id node' = node_id node /\
         position node' = position node /\
         label node'
         = if decide (node_id node = editing) then Editor.editingText ed
           else label node) /\
  map node_id (nodes st') = map node_id (nodes st) /\
  edges st' = edges st /\ nextNodeId st' = nextNodeId st /\
  input st' = input st /\ chatInput st' = chatInput st /\
  loading st' = loading st /\ error st' = error st /\
  chatHistory st' = chatHistory st /\ modelType st' = modelType st /\
  (wired st -> wired st').
Proof.
  cbn zeta. unfold Editor.updateNodeText.
  destruct (present (Editor.editingNode ed)) as [editing|]; cbn [fst snd].
  - cbn [nodes edges setNodes nextNodeId input chatInput loading error
         chatHistory modelType].
    assert (Hids : map node_id
                     (map (Editor.relabel editing (Editor.editingText ed))
                        (nodes st))
                   = map node_id (nodes st)).
    { rewrite map_map. apply map_ext. intros n. apply relabel_keeps. }
    split_and!; try reflexivity; try discriminate; try exact Hids.
    + intros editing' [= <-]. split_and!; [reflexivity|apply length_map|].
      intros i node Hi.
      exists (Editor.relabel editing (Editor.editingText ed) node).
      split_and!; try apply relabel_keeps.
      * change (map ?f ?l) with (f <$> l). rewrite list_lookup_fmap, Hi.
        reflexivity.
      * unfold Editor.relabel. destruct (decide _); reflexivity.
    + intros H. apply wired_closed. apply wired_closed in H.
      cbn [nodes edges setNodes]. eapply closed_same_ids; eassumption.
  - split_and!; try reflexivity; auto. intros editing. discriminate.
Qed.

(** X6. Opening the editor on a node of the diagram by a double click
    and saving without typing leaves the state as it was, provided the
    node ids are pairwise distinct (as they are in every state a session
    reaches). *)
Theorem edit_without_typing_changes_nothing
    (st : State) (node : Node) (ed : Editor.Editing) :
  NoDup (map node_id (nodes st)) -> node ∈ nodes st ->
  fst (Editor.updateNodeText (Editor.onNodeDoubleClick node ed) st) = st.
Proof.
  intros Hdup Hnode. unfold Editor.updateNodeText, Editor.onNodeDoubleClick.
  cbn [Editor.editingNode Editor.editingText present].
  destruct (truthy (node_id node)); cbn [fst]; [|reflexivity].
  now apply setNodes_same, relabel_own_label.
Qed.

Lemma edit_without_typing_changes_nothing_witness :
  let welcome := {| node_id := str "welcome";
                    position := {| pos_x := 250; pos_y := 150 |};
                    label := Editable.welcomeText |} in
  fst (Editor.updateNodeText (Editor.onNodeDoubleClick welcome Editor.closed)
         Editable.mounted)
  = Editable.mounted.
Proof.
  cbn zeta.
  apply (edit_without_typing_changes_nothing Editable.mounted
           {| node_id := str "welcome";
              position := {| pos_x := 250; pos_y := 150 |};
              label := Editable.welcomeText |} Editor.closed).
  - apply NoDup_singleton.
  - apply list_elem_of_here.
Defined.

(** ** Rearranging and deleting *)

Lemma imap_imap_rearranged (f g : nat -> Node -> Node) (ns : list Node) :
  (forall i n, f i (g i n) = f i n) -> imap f (imap g ns) = imap f ns.
Proof.
  intros H. apply list_eq. intros i.
  rewrite !list_lookup_imap. destruct (ns !! i); cbn; [|reflexivity].
  now rewrite H.
Qed.

Lemma neighbours_chain (body : list Edge -> nat -> list Edge)
    (ns : list Node) (count : nat) :
  (forall acc i a b, ns !! i = Some a -> ns !! (i + 1)%nat = Some b ->
     map endpoints (body acc i) = map endpoints acc ++ [(node_id a, node_id b)]) ->
  (count + 1 <= length ns)%nat ->
  map endpoints (forLoop body 0 count [])
  = take count (chainOf (map node_id ns)).
Proof.
  intros Hbody. induction count as [|c IH]; intros Hc; [reflexivity|].
  rewrite forLoop_snoc. cbn [Nat.add].
  assert (is_Some (ns !! c)) as [a Ha] by (apply lookup_lt_is_Some_2; lia).
  assert (is_Some (ns !! (c + 1)%nat)) as [b Hb]
    by (apply lookup_lt_is_Some_2; lia).
  rewrite (Hbody _ c a b Ha Hb), IH by lia.
  symmetry. apply take_S_r. unfold chainOf.
  apply lookup_zip_with_Some. exists (node_id a), (node_id b).
  split_and!; [reflexivity| |].
  - change (map node_id ns) with (node_id <$> ns).
    now rewrite list_lookup_fmap, Ha.
  - rewrite lookup_drop. change (map node_id ns) with (node_id <$> ns).
    rewrite list_lookup_fmap. replace (1 + c)%nat with (c + 1)%nat by lia.
    now rewrite Hb.
Qed.

Lemma chainOf_length (ids : list jsstring) :
  length (chainOf ids) = (length ids - 1)%nat.
Proof.
  unfold chainOf. rewrite length_zip_with, length_drop. lia.
Qed.

Lemma linkBody_chain (ns : list Node) :
  map endpoints
    (forLoop (Editable.linkBody ns) 0 (upTo (Z.of_nat (length ns) - 1)) [])
  = chainOf (map node_id ns).
Proof.
  rewrite upTo_pred. destruct ns as [|n ns]; [reflexivity|].
  rewrite (neighbours_chain _ (n :: ns)).
  - apply take_ge. rewrite chainOf_length, length_map. lia.
  - intros acc i a b Ha Hb. unfold Editable.linkBody. rewrite Ha, Hb.
    now rewrite map_app.
  - cbn [length]. lia.
Qed.

(** X7. Rearranging keeps the nodes in their order with their ids and
    labels, and the layout asked for last is the one that stays: to
    rearrange twice is to rearrange once, in the second direction.  The
    variant of src/src/App.tsx leaves the edges alone; that of part_000
    discards them and links every node to the next one of the list. *)
Theorem rearranging_keeps_nodes_last_layout_wins
    (first second : bool) (st : State) :
  let simple := Simple.rearrangeFlowchart second st in
  let editable := Editable.rearrangeFlowchart second st in
  (map node_id (nodes simple) = map node_id (nodes st) /\
   map label (nodes simple) = map label (nodes st) /\
   edges simple = edges st) /\
  (map node_id (nodes editable) = map node_id (nodes st) /\
   map label (nodes editable) = map label (nodes st) /\
   (nodes st <> [] ->
    map endpoints (edges editable) = chainOf (map node_id (nodes st)) /\
    length (edges editable) = (length (nodes st) - 1)%nat)) /\
  Simple.rearrangeFlowchart second (Simple.rearrangeFlowchart first st)
  = simple /\
  Editable.rearrangeFlowchart second (Editable.rearrangeFlowchart first st)
  = editable.
Proof.
  cbn zeta.
  assert (Hlabels : forall f : nat -> Node -> Node,
             (forall i n, label (f i n) = label n) ->
             map label (imap f (nodes st)) = map label (nodes st)).
  { intros f Hf. apply list_eq. intros i.
    change (map label ?l) with (label <$> l).
    rewrite !list_lookup_fmap, list_lookup_imap.
    destruct (nodes st !! i); cbn; [|reflexivity]. now rewrite Hf. }
  unfold Simple.rearrangeFlowchart, Editable.rearrangeFlowchart.
  destruct (nodes st) as [|n ns] eqn:Hnodes.
  - cbn [length Nat.eqb]. rewrite Hnodes. cbn [length Nat.eqb].
    split_and!; try reflexivity. intros H. now contradiction H.
  - assert (Hlen : forall f : nat -> Node -> Node,
               (length (imap f (n :: ns)) =? 0)%nat = false)
      by (intros f; now rewrite length_imap).
    change (length (n :: ns) =? 0)%nat with false. cbv iota.
    cbn [nodes edges setNodes setEdges]. rewrite !Hlen.
    rewrite <- Hnodes in *. split_and!.
    + now apply imap_keeps_ids.
    + now apply Hlabels.
    + reflexivity.
    + now apply imap_keeps_ids.
    + now apply Hlabels.
    + intros _.
      assert (Hchain := linkBody_chain
                          (imap (Editable.rearranged second) (nodes st))).
      rewrite imap_keeps_ids in Hchain by reflexivity.
      split; [exact Hchain|].
      rewrite <- (length_map endpoints), Hchain, chainOf_length, length_map.
      reflexivity.
    + destruct st. unfold setNodes. cbn [nodes] in *.
      now rewrite imap_imap_rearranged.
    + destruct st. unfold setNodes, setEdges. cbn [nodes edges] in *.
      now rewrite !imap_imap_rearranged.
Qed.

Lemma filter_twice {A : Type} (P Q : A -> Prop)
    `{!forall x, Decision (P x)} `{!forall x, Decision (Q x)} (l : list A) :
  filter P (filter Q l) = filter Q (filter P l).
Proof.
  induction l as [|x l IH]; [reflexivity|].
  rewrite !(filter_cons _ x).
  destruct (decide (Q x)), (decide (P x)); rewrite ?(filter_cons _ x);
    repeat case_decide; try tauto; now rewrite IH.
Qed.

Lemma filter_again {A : Type} (P : A -> Prop)
    `{!forall x, Decision (P x)} (l : list A) :
  filter P (filter P l) = filter P l.
Proof.
  induction l as [|x l IH]; [reflexivity|].
  rewrite (filter_cons _ x). destruct (decide (P x)); [|exact IH].
  rewrite (filter_cons _ x). case_decide; [|tauto]. now rewrite IH.
Qed.

Lemma filter_all {A : Type} (P : A -> Prop)
    `{!forall x, Decision (P x)} (l : list A) :
  Forall P l -> filter P l = l.
Proof.
  induction 1 as [|x l Hx _ IH]; [reflexivity|].
  rewrite filter_cons. case_decide; [|tauto]. now rewrite IH.
Qed.

(** X8. Deleting the same node twice is deleting it once; two deletions
    give the same state in either order; deleting an id that no node has
    and no edge mentions changes nothing; and after a deletion no node
    has the id and no edge starts or ends at it. *)
Theorem deleting_composes (a b : jsstring) (st : State) :
  Editable.deleteNode a (Editable.deleteNode a st) = Editable.deleteNode a st /\
  Editable.deleteNode a (Editable.deleteNode b st)
  = Editable.deleteNode b (Editable.deleteNode a st) /\
  (Forall (fun node => node_id node <> a) (nodes st) ->
   Forall (fun edge => source edge <> a /\ target edge <> a) (edges st) ->
   Editable.deleteNode a st = st) /\
  Forall (fun node => node_id node <> a) (nodes (Editable.deleteNode a st)) /\
  Forall (fun edge => source edge <> a /\ target edge <> a)
    (edges (Editable.deleteNode a st)).
Proof.
  unfold Editable.deleteNode, setNodes, setEdges.
  cbn [nodes edges input chatInput loading error chatHistory modelType
       nextNodeId].
  split_and!.
  - now rewrite !filter_again.
  - f_equal; apply filter_twice.
  - intros Hn He. destruct st. cbn [nodes edges] in *.
    now rewrite !filter_all.
  - apply Forall_forall. intros n Hn%list_elem_of_In.
    now apply list_elem_of_filter in Hn as [Hn _].
  - apply Forall_forall. intros e He%list_elem_of_In.
    now apply list_elem_of_filter in He as [He _].
Qed.

(** ** The effect that restores edges *)





(** ** The diagram of a structure *)

Lemma having_snoc (part : Branch -> option jsstring) (l : list Branch)
    (b : Branch) :
  having part (l ++ [b])
  = (having part l
     + match present (part b) with Some _ => 1 | None => 0 end)%nat.
Proof.
  unfold having. rewrite List.filter_app, length_app. cbn [List.filter].
  destruct (present (part b)); reflexivity.
Qed.

Lemma complex_counts (structure : list Branch) :
  length (concat (imap branchNodes structure))
  = (length structure + having right structure + having below structure)%nat /\
  length (concat (imap branchEdges structure))
  = (length structure - 1 + having right structure
     + having below structure)%nat.
Proof.
  induction structure as [|b l [IHn IHe]] using rev_ind; [split; reflexivity|].
  rewrite !imap_app, !concat_app, !length_app, !having_snoc, IHn, IHe.
  cbn [imap concat]. rewrite !app_nil_r, Nat.add_0_r.
  unfold branchNodes, branchEdges.
  destruct (present (right b)), (present (below b));
    destruct (Nat.ltb_spec 0 (length l)); cbn [length app]; split; lia.
Qed.

(** X10. generateComplexFlowchart replaces the diagram by that of the
    structure: for entry i a main node in the column x = 250 at
    y = 230 i + 50, the node to its right (if the entry names one) in the
    same row at x = 700, the node below (if any) 155 further down, an edge
    from the main node to each of the two, and an edge from the main node
    of the entry before.  So there are as many nodes as entries and
    optional parts together, and one edge fewer than nodes; the ids are
    pairwise distinct, and the counter is the number of nodes plus one. *)
Theorem complex_flowchart_shape (structure : list Branch) (st : State) :
  let st' := generateComplexFlowchart structure st in
  nodes st' = concat (imap branchNodes structure) /\
  edges st' = concat (imap branchEdges structure) /\
  length (nodes st')
  = (length structure + having right structure + having below structure)%nat /\
  length (edges st') = (length (nodes st') - 1)%nat /\
  NoDup (map node_id (nodes st')) /\
  nextNodeId st' = (length (nodes st') + 1)%nat /\
  chatHistory st' = chatHistory st /\ input st' = input st.
Proof.
  cbn zeta. rewrite complex_generate.
  cbn [nodes edges nextNodeId chatHistory input].
  destruct (complex_counts structure) as [Hn He].
  split_and!; try reflexivity; [exact Hn| |apply complex_ids].
  rewrite Hn, He. destruct structure; [reflexivity|]. cbn [length]. lia.
Qed.

(** ** The picture of the vector-graphics variant *)

Lemma half_even (x : Z) : Z.even x = true -> (2 * (x / 2) = x)%Z.
Proof.
  intros H. apply Z.even_spec in H as [k ->].
  now rewrite (Z.mul_comm 2 k), Z.div_mul, Z.mul_comm.
Qed.

Lemma sum_cons (v : Z) (values : list Z) :
  Svg.sum (v :: values) = (v + Svg.sum values)%Z.
Proof.
  change (v :: values) with ([v] ++ values). rewrite sum_app.
  unfold Svg.sum at 1. cbn [fold_left]. lia.
Qed.

Lemma sum_nonneg (values : list Z) :
  Forall (fun v => (0 <= v)%Z) values -> (0 <= Svg.sum values)%Z.
Proof.
  induction 1 as [|v values Hv _ IH]; [reflexivity|]. rewrite sum_cons. lia.
Qed.

Lemma sum_with_gaps (values : list Z) :
  Svg.sum (map (fun extent => extent + Svg.gap)%Z values)
  = (Svg.sum values + Z.of_nat (length values) * Svg.gap)%Z.
Proof.
  induction values as [|v values IH]; [reflexivity|].
  cbn [map length]. rewrite !sum_cons, IH. lia.
Qed.

Lemma mathMax_ge (values : list Z) (v : Z) :
  v ∈ values -> (v <= Svg.mathMax values)%Z.
Proof.
  assert (Hfold : forall l z, (z <= fold_left Z.max l z)%Z /\
                              forall w, w ∈ l -> (w <= fold_left Z.max l z)%Z).
  { induction l as [|x l IH]; intros z; cbn [fold_left].
    - split; [lia|]. intros w Hw. inversion Hw.
    - destruct (IH (Z.max z x)) as [Hz Hl]. split; [lia|].
      intros w [->|Hw]%elem_of_cons; [lia|auto]. }
  destruct values as [|x l]; intros Hv; [inversion Hv|].
  cbn [Svg.mathMax]. destruct (Hfold l x) as [Hx Hl].
  apply elem_of_cons in Hv as [->|Hv]; auto.
Qed.

Lemma nodeSize_holds_text (step : jsstring) :
  (150 <= widthOf step)%Z /\ (60 <= heightOf step)%Z /\
  Forall (fun line => (8 * Z.of_nat (length line) + 40 <= widthOf step)%Z)
    (JS.split 0xA step) /\
  (20 * Z.of_nat (length (JS.split 0xA step)) + 40 <= heightOf step)%Z.
Proof.
  unfold widthOf, heightOf, Svg.nodeSize, Svg.baseNodeWidth,
    Svg.baseNodeHeight, Svg.charWidth, Svg.lineHeight, Svg.padding.
  cbn [fst snd]. split_and!; try lia.
  apply Forall_forall. intros line Hline%list_elem_of_In.
  assert (Hmax : (Z.of_nat (length line)
                  <= Svg.mathMax (map (fun line => Z.of_nat (length line))
                                    (JS.split 0xA step)))%Z).
  { apply mathMax_ge. apply list_elem_of_fmap. now exists line. }
  lia.
Qed.

Lemma startOf_within (extents : list Z) (i : nat) (extent : Z) :
  Forall (fun v => (0 <= v)%Z) extents -> extents !! i = Some extent ->
  (50 <= startOf extents i)%Z /\
  (startOf extents i + extent
   <= Svg.sum extents + (Z.of_nat (length extents) - 1) * Svg.gap + 50)%Z.
Proof.
  intros Hpos Hi.
  assert (Hlt := lookup_lt_Some _ _ _ Hi).
  assert (Htake : Forall (fun v => (0 <= v)%Z) (take i extents))
    by now apply Forall_take.
  assert (Hdrop : Forall (fun v => (0 <= v)%Z) (drop (S i) extents))
    by now apply Forall_drop.
  apply sum_nonneg in Htake, Hdrop.
  assert (Hsum : Svg.sum extents
                 = (Svg.sum (take i extents) + extent
                    + Svg.sum (drop (S i) extents))%Z).
  { rewrite <- (take_drop_middle extents i extent Hi) at 1.
    rewrite sum_app, sum_cons. lia. }
  unfold startOf. rewrite sum_with_gaps, length_take.
  replace (i `min` length extents)%nat with i by lia.
  unfold Svg.gap. lia.
Qed.

(** X11. Every box of the sequential picture lies inside the view box
    with a margin of 50 on each side and is centred on the middle line
    across the flow.  A box is at least 150 wide and 60 high, and large
    enough for its text at 8 per character and 20 per line with a padding
    of 20 on each side. *)
Theorem svg_boxes_fit_the_canvas (steps : list jsstring) (isHorizontal : bool) :
  let picture := Svg.generateSvgFlowchart steps isHorizontal in
  Forall
    (fun box =>
       (50 <= Svg.rect_x box)%Z /\
       (Svg.rect_x box + Svg.rect_width box <= Svg.totalWidth picture - 50)%Z /\
       (50 <= Svg.rect_y box)%Z /\
       (Svg.rect_y box + Svg.rect_height box
        <= Svg.totalHeight picture - 50)%Z /\
       (if isHorizontal
        then (2 * Svg.rect_y box + Svg.rect_height box
              = Svg.totalHeight picture)%Z
        else (2 * Svg.rect_x box + Svg.rect_width box
              = Svg.totalWidth picture)%Z) /\
       (150 <= Svg.rect_width box)%Z /\ (60 <= Svg.rect_height box)%Z /\
       Forall (fun line =>
                 (8 * Z.of_nat (length line) + 40 <= Svg.rect_width box)%Z)
         (JS.split 0xA (Svg.rect_text box)) /\
       (20 * Z.of_nat (length (JS.split 0xA (Svg.rect_text box))) + 40
        <= Svg.rect_height box)%Z)
    (Svg.svgNodes picture).
Proof.
  cbn zeta. rewrite svg_picture.
  cbn [Svg.svgNodes Svg.totalWidth Svg.totalHeight].
  apply Forall_lookup. intros i box Hbox.
  apply list_lookup_imap_Some in Hbox as (step & Hstep & ->).
  destruct (nodeSize_holds_text step) as (Hw & Hh & Hlines & Hcount).
  destruct (nodeSize_even step) as [Hwe%half_even Hhe%half_even].
  destruct (picture_even steps isHorizontal) as [HWe%half_even HHe%half_even].
  assert (Hwidths : Forall (fun v => (0 <= v)%Z) (map widthOf steps)).
  { apply Forall_forall. intros v (s & <- & _)%in_map_iff.
    destruct (nodeSize_holds_text s). lia. }
  assert (Hheights : Forall (fun v => (0 <= v)%Z) (map heightOf steps)).
  { apply Forall_forall. intros v (s & <- & _)%in_map_iff.
    destruct (nodeSize_holds_text s) as (_ & ? & _). lia. }
  assert (Hiw : map widthOf steps !! i = Some (widthOf step)).
  { change (map widthOf steps) with (widthOf <$> steps).
    now rewrite list_lookup_fmap, Hstep. }
  assert (Hih : map heightOf steps !! i = Some (heightOf step)).
  { change (map heightOf steps) with (heightOf <$> steps).
    now rewrite list_lookup_fmap, Hstep. }
  assert (Hmw : (widthOf step <= Svg.mathMax (map widthOf steps))%Z).
  { apply mathMax_ge. apply list_elem_of_fmap. exists step. split; [reflexivity|].
    eapply list_elem_of_lookup_2; eassumption. }
  assert (Hmh : (heightOf step <= Svg.mathMax (map heightOf steps))%Z).
  { apply mathMax_ge. apply list_elem_of_fmap. exists step. split; [reflexivity|].
    eapply list_elem_of_lookup_2; eassumption. }
  destruct (startOf_within _ i _ Hwidths Hiw) as [Hx0 Hx1].
  destruct (startOf_within _ i _ Hheights Hih) as [Hy0 Hy1].
  rewrite length_map in Hx1, Hy1.
  unfold boxAt.
  cbn [Svg.rect_x Svg.rect_y Svg.rect_width Svg.rect_height Svg.rect_text].
  unfold pictureWidth, pictureHeight in *.
  destruct isHorizontal; split_and!; try assumption; lia.
Qed.

(** ** The dash and bar notation *)





(** ** The reply of sendChatMessage *)

Lemma startsWith_includes (p s : jsstring) :
  startsWith p s = true -> includes p s = true.
Proof. intros H. destruct s; cbn [includes]; now rewrite H. Qed.

Lemma includes_tail (p s : jsstring) (n : nat) :
  includes p (drop n s) = true -> includes p s = true.
Proof.
  revert s. induction n as [|n IH]; intros s H; [now rewrite drop_0 in H|].
  destruct s as [|c s]; [exact H|].
  cbn [drop] in H. cbn [includes]. rewrite (IH s H). apply orb_true_r.
Qed.

Lemma startsWith_app (a b s : jsstring) :
  startsWith (a ++ b) s = true -> startsWith b (drop (length a) s) = true.
Proof.
  revert s. induction a as [|x a IH]; intros s H; [exact H|].
  destruct s as [|c s]; [discriminate|].
  cbn [app startsWith] in H. apply andb_true_iff in H as [_ H].
  cbn [length drop]. now apply IH.
Qed.

Lemma includes_longer (a b s : jsstring) :
  includes (a ++ b) s = true -> includes b s = true.
Proof.
  induction s as [|c s IH]; cbn [includes]; intros H.
  - apply orb_true_iff in H as [H|H]; [|discriminate].
    apply startsWith_app in H. rewrite drop_nil in H.
    now rewrite H.
  - apply orb_true_iff in H as [H|H].
    + apply startsWith_app, startsWith_includes in H.
      apply includes_tail in H. cbn [includes] in H. exact H.
    + rewrite (IH H). apply orb_true_r.
Qed.

(** X13. In sendChatMessage the branch for a reply with COMPLEX_FLOWCHART:
    is never taken, since such a reply contains FLOWCHART: as well and is
    handled as a sequential one: the handler with both branches as written
    equals the one with the first branch alone, and a chat reply never
    draws a structure. *)
Theorem chat_reply_never_draws_a_structure
    (aiResponse : jsstring) (sv : Svg.State) :
  SvgChat.afterReply aiResponse sv = Svg.afterReply aiResponse sv /\
  forall structure,
    Svg.diagram (SvgChat.afterReply aiResponse sv) = Svg.Complex structure ->
    Svg.diagram sv = Svg.Complex structure.
Proof.
  assert (Hsame : SvgChat.afterReply aiResponse sv
                  = Svg.afterReply aiResponse sv).
  { unfold SvgChat.afterReply, Svg.afterReply. cbn zeta.
    destruct (includes (str "FLOWCHART:") aiResponse) eqn:Hfirst;
      [reflexivity|].
    destruct (includes (str "COMPLEX_FLOWCHART:") aiResponse) eqn:Hsecond;
      [|reflexivity].
    change (str "COMPLEX_FLOWCHART:")
      with (str "COMPLEX_" ++ str "FLOWCHART:") in Hsecond.
    apply includes_longer in Hsecond. congruence. }
  split; [exact Hsame|]. rewrite Hsame. intros structure.
  unfold Svg.afterReply. cbn zeta.
  destruct (includes (str "FLOWCHART:") aiResponse); [|intros H; exact H].
  match goal with
  | |- context [if ?b then _ else _] => destruct b
  end; [discriminate|intros H; exact H].
Qed.

(** ** The loading flag *)

Lemma loading_simple_rearrange (isHorizontal : bool) (st : State) :
  loading (Simple.rearrangeFlowchart isHorizontal st) = loading st.
Proof.
  unfold Simple.rearrangeFlowchart.
  now destruct (length (nodes st) =? 0)%nat.
Qed.

Lemma loading_editable_rearrange (isHorizontal : bool) (st : State) :
  loading (Editable.rearrangeFlowchart isHorizontal st) = loading st.
Proof.
  unfold Editable.rearrangeFlowchart.
  now destruct (length (nodes st) =? 0)%nat.
Qed.

Lemma loading_restoreEdges (st : State) :
  loading (Editable.restoreEdges st) = loading st.
Proof.
  unfold Editable.restoreEdges.
  destruct ((2 <=? length (nodes st)) && (length (edges st) =? 0))%nat;
    [|reflexivity].
  cbn zeta.
  match goal with
  | |- context [if ?b then _ else _] => now destruct b
  end.
Qed.

Lemma loading_simple_generateFlowchart (st : State)
    (outcome : option jsstring) :
  loading st = false ->
  loading (finish outcome (Simple.generateFlowchart st)) = false.
Proof.
  intros H. unfold Simple.generateFlowchart.
  destruct (negb (truthy (trim (input st)))); [exact H|]. cbn zeta.
  now destruct (length (trim (input (setError [] (setLoading true st)))) <? 5)%nat.
Qed.

Lemma loading_editable_generateFlowchart (st : State)
    (outcome : option jsstring) :
  loading st = false ->
  loading (finish outcome (Editable.generateFlowchart st)) = false.
Proof.
  intros H. unfold Editable.generateFlowchart.
  destruct (negb (truthy (trim (input st)))); [exact H|]. cbn zeta.
  now destruct (length (trim (input (setError [] (setLoading true st)))) <? 5)%nat.
Qed.

Lemma loading_simple_handleSendMessage (st : State)
    (outcome : option jsstring) :
  loading st = false ->
  loading (finish outcome (Simple.handleSendMessage st)) = false.
Proof.
  intros H. unfold Simple.handleSendMessage.
  destruct (negb (truthy (trim (chatInput st)))); [exact H|]. cbn zeta.
  destruct ((0 <? length (nodes st))%nat
            && (Regex.test Simple.verticalRegex (trim (chatInput st))
                || Regex.test Simple.horizontalRegex (trim (chatInput st)))).
  - cbn [finish loading setChatHistory]. now rewrite loading_simple_rearrange.
  - change (modelType (setLoading true (setChatInput [] (setChatHistory _ st))))
      with (modelType st).
    now destruct (modelType st).
Qed.

Lemma loading_editable_handleSendMessage (st : State)
    (outcome : option jsstring) :
  loading st = false ->
  loading (finish outcome (Editable.handleSendMessage st)) = false.
Proof.
  intros H. unfold Editable.handleSendMessage.
  destruct (negb (truthy (trim (chatInput st)))); [exact H|].
  change (modelType (setLoading true (setChatInput [] (setChatHistory _ st))))
    with (modelType st).
  now destruct (modelType st).
Qed.

Lemma loading_simple_perform (st : State) (op : Simple.Operation) :
  loading st = false -> loading (Simple.perform st op) = false.
Proof.
  intros H. destruct op; cbn [Simple.perform].
  - now rewrite simple_generate.
  - now rewrite complex_generate.
  - now rewrite loading_simple_rearrange.
  - exact H.
  - exact H.
  - now apply loading_simple_generateFlowchart.
  - now apply loading_simple_handleSendMessage.
Qed.

Lemma loading_editable_perform (st : State) (op : Editable.Operation) :
  loading st = false -> loading (Editable.perform st op) = false.
Proof.
  intros H. destruct op; cbn [Editable.perform].
  - now rewrite editable_generate.
  - now rewrite complex_generate.
  - now rewrite loading_editable_rearrange.
  - exact H.
  - exact H.
  - now rewrite loading_restoreEdges.
  - exact H.
  - now apply loading_editable_generateFlowchart.
  - now apply loading_editable_handleSendMessage.
Qed.

(** X14. No request leaves the loading flag set: in every state that a
    session reaches, with every request answered or failed, the flag is
    off, in both interactive variants; in the vector-graphics variant a
    request that finds the flag off leaves it off.  While a request
    waits for the model the flag is on. *)
Theorem loading_flag_is_reset :
  (forall ops : list Simple.Operation, loading (Simple.session ops) = false) /\
  (forall ops : list Editable.Operation,
     loading (Editable.session ops) = false) /\
  (forall sv outcome,
     Svg.loading sv = false ->
     Svg.loading (finish outcome (Svg.generateFlowchart sv)) = false /\
     Svg.loading (finish outcome (Svg.sendChatMessage sv)) = false) /\
  (forall st,
     match Simple.generateFlowchart st with
     | Fetch pending _ => loading pending = true
     | Done _ => True
     end /\
     match Simple.handleSendMessage st with
     | Fetch pending _ => loading pending = true
     | Done _ => True
     end /\
     match Editable.generateFlowchart st with
     | Fetch pending _ => loading pending = true
     | Done _ => True
     end /\
     match Editable.handleSendMessage st with
     | Fetch pending _ => loading pending = true
     | Done _ => True
     end) /\
  (forall sv,
     match Svg.generateFlowchart sv with
     | Fetch pending _ => Svg.loading pending = true
     | Done _ => True
     end /\
     match Svg.sendChatMessage sv with
     | Fetch pending _ => Svg.loading pending = true
     | Done _ => True
     end).
Proof.
  split_and!.
  - intros ops. unfold Simple.session.
    assert (Hinit : loading initial = false) by reflexivity.
    revert Hinit. generalize initial.
    induction ops as [|op ops IH]; intros st Hst; [exact Hst|].
    cbn [fold_left]. apply IH. now apply loading_simple_perform.
  - intros ops. unfold Editable.session.
    assert (Hinit : loading Editable.mounted = false) by reflexivity.
    revert Hinit. generalize Editable.mounted.
    induction ops as [|op ops IH]; intros st Hst; [exact Hst|].
    cbn [fold_left]. apply IH. now apply loading_editable_perform.
  - intros sv outcome H. split.
    + unfold Svg.generateFlowchart.
      destruct (negb (truthy (trim (Svg.input sv)))); [exact H|]. cbn zeta.
      match goal with
      | |- context [if ?b then _ else _] => now destruct b
      end.
    + unfold Svg.sendChatMessage.
      now destruct (negb (truthy (trim (Svg.chatInput sv)))).
  - intros st. split_and!.
    + unfold Simple.generateFlowchart.
      destruct (negb (truthy (trim (input st)))); [exact I|]. cbn zeta.
      match goal with
      | |- context [if ?b then _ else _] => now destruct b
      end.
    + unfold Simple.handleSendMessage.
      destruct (negb (truthy (trim (chatInput st)))); [exact I|]. cbn zeta.
      match goal with
      | |- context [if ?b then Done _ else _] => destruct b; [exact I|]
      end.
      change (modelType (setLoading true (setChatInput [] (setChatHistory _ st))))
        with (modelType st).
      now destruct (modelType st).
    + unfold Editable.generateFlowchart.
      destruct (negb (truthy (trim (input st)))); [exact I|]. cbn zeta.
      match goal with
      | |- context [if ?b then _ else _] => now destruct b
      end.
    + unfold Editable.handleSendMessage.
      destruct (negb (truthy (trim (chatInput st)))); [exact I|].
      change (modelType (setLoading true (setChatInput [] (setChatHistory _ st))))
        with (modelType st).
      now destruct (modelType st).
  - intros sv. split.
    + unfold Svg.generateFlowchart.
      destruct (negb (truthy (trim (Svg.input sv)))); [exact I|]. cbn zeta.
      match goal with
      | |- context [if ?b then _ else _] => now destruct b
      end.
    + unfold Svg.sendChatMessage.
      now destruct (negb (truthy (trim (Svg.chatInput sv)))).
Qed.

(** ** When the model is called *)


(** ** Steps named in a chat message *)

Lemma afterReply_user_steps (userInputText : jsstring)
    (userSteps : list jsstring) (hasV hasH hadNodes : bool)
    (responseText : jsstring) (st : State) :
  userSteps <> [] ->
  exists st',
    Simple.afterReply userInputText userSteps true hasV hasH hadNodes
      responseText st
    = Simple.generateFlowFromSteps userSteps hasH st'.
Proof.
  intros Hsteps. unfold Simple.afterReply. cbn zeta.
  destruct userSteps as [|s l]; [congruence|]. cbn [length Nat.ltb Nat.leb andb].
  eexists. reflexivity.
Qed.

(** X16. When a chat message in src/src/App.tsx names steps (Шаг 1,
    Шаг 2, ...) and is not answered locally, the diagram drawn once the
    model, or the Gemini stub, has replied is the one of the steps named
    in the message, in the direction the message asks for: the text of
    the reply has no part in it. *)
Theorem named_steps_decide_the_diagram (st : State) (content : jsstring) :
  let said := trim (chatInput st) in
  let found := Regex.execAll Simple.stepRegex said in
  let userSteps := map (fun m => str "Шаг " ++ nth 0 (snd m) []) found in
  let after := finish (Some content) (Simple.handleSendMessage st) in
  found <> [] -> layoutCommand st = false ->
  nodes after
  = nodes (Simple.generateFlowFromSteps userSteps
             (Regex.test Simple.horizontalRegex said) initial) /\
  edges after
  = edges (Simple.generateFlowFromSteps userSteps
             (Regex.test Simple.horizontalRegex said) initial) /\
  map label (nodes after) = processSteps userSteps.
Proof.
  cbn zeta. intros Hfound Hlocal.
  assert (Hsaid : truthy (trim (chatInput st)) = true).
  { destruct (trim (chatInput st)); [|reflexivity].
    now contradiction Hfound. }
  assert (Hsteps : map (fun m : jsstring * list jsstring =>
                          str "Шаг " ++ nth 0 (snd m) [])
                     (Regex.execAll Simple.stepRegex (trim (chatInput st)))
                   <> []).
  { destruct (Regex.execAll Simple.stepRegex (trim (chatInput st)));
      [congruence|discriminate]. }
  assert (Hmatch : (0 <? length (Regex.execAll Simple.stepRegex
                                   (trim (chatInput st))))%nat = true).
  { destruct (Regex.execAll Simple.stepRegex (trim (chatInput st)));
      [congruence|reflexivity]. }
  unfold Simple.handleSendMessage. rewrite Hsaid. cbn [negb]. cbn zeta.
  unfold layoutCommand in Hlocal. rewrite Hlocal, Hmatch.
  change (modelType (setLoading true (setChatInput [] (setChatHistory _ st))))
    with (modelType st).
  assert (Hgen : forall st1 st2,
             nodes (setLoading false
                      (Simple.generateFlowFromSteps
                         (map (fun m : jsstring * list jsstring =>
                                 str "Шаг " ++ nth 0 (snd m) [])
                            (Regex.execAll Simple.stepRegex (trim (chatInput st))))
                         (Regex.test Simple.horizontalRegex (trim (chatInput st)))
                         st1))
             = nodes (Simple.generateFlowFromSteps
                        (map (fun m : jsstring * list jsstring =>
                                str "Шаг " ++ nth 0 (snd m) [])
                           (Regex.execAll Simple.stepRegex (trim (chatInput st))))
                        (Regex.test Simple.horizontalRegex (trim (chatInput st)))
                        st2) /\
             edges (setLoading false
                      (Simple.generateFlowFromSteps
                         (map (fun m : jsstring * list jsstring =>
                                 str "Шаг " ++ nth 0 (snd m) [])
                            (Regex.execAll Simple.stepRegex (trim (chatInput st))))
                         (Regex.test Simple.horizontalRegex (trim (chatInput st)))
                         st1))
             = edges (Simple.generateFlowFromSteps
                        (map (fun m : jsstring * list jsstring =>
                                str "Шаг " ++ nth 0 (snd m) [])
                           (Regex.execAll Simple.stepRegex (trim (chatInput st))))
                        (Regex.test Simple.horizontalRegex (trim (chatInput st)))
                        st2) /\
             map label
               (nodes (setLoading false
                         (Simple.generateFlowFromSteps
                            (map (fun m : jsstring * list jsstring =>
                                    str "Шаг " ++ nth 0 (snd m) [])
                               (Regex.execAll Simple.stepRegex
                                  (trim (chatInput st))))
                            (Regex.test Simple.horizontalRegex
                               (trim (chatInput st)))
                            st1)))
             = processSteps
                 (map (fun m : jsstring * list jsstring =>
                         str "Шаг " ++ nth 0 (snd m) [])
                    (Regex.execAll Simple.stepRegex (trim (chatInput st))))).
  { intros st1 st2. rewrite !simple_generate. cbn [nodes edges setLoading].
    split_and!; try reflexivity. apply imap_nodeAt_labels. }
  destruct (modelType st); cbn [finish].
  - match goal with
    | |- context [Simple.afterReply ?a ?b true ?c ?d ?e ?f ?g] =>
        destruct (afterReply_user_steps a b c d e f g Hsteps) as [st' ->]
    end.
    apply Hgen.
  - match goal with
    | |- context [Simple.afterReply ?a ?b true ?c ?d ?e ?f ?g] =>
        destruct (afterReply_user_steps a b c d e f g Hsteps) as [st' ->]
    end.
    apply Hgen.
Qed.

Lemma named_steps_decide_the_diagram_witness :
  let st := {| input := []; chatInput := str "Шаг 1, потом шаг 2";
               loading := false; error := []; chatHistory := [];
               modelType := ollama; nodes := []; edges := [];
               nextNodeId := 1 |} in
  map label (nodes (finish (Some (str "Хорошо"))
                      (Simple.handleSendMessage st)))
  = [str "Шаг 1"; str "Шаг 2"].
Proof.
  cbn zeta.
  pose proof (named_steps_decide_the_diagram
                {| input := []; chatInput := str "Шаг 1, потом шаг 2";
                   loading := false; error := []; chatHistory := [];
                   modelType := ollama; nodes := []; edges := [];
                   nextNodeId := 1 |} (str "Хорошо")) as H.
  cbn zeta in H. destruct H as (_ & _ & H).
  - vm_compute. discriminate.
  - reflexivity.
  - rewrite H. reflexivity.
Defined.

(** ** The label of a node as shown *)

Lemma fragments_interleaved (lines : list jsstring) (k n : nat) :
  n = (k + length lines)%nat ->
  concat (imap (fun i line =>
                  Format.Line line ::
                  if (Z.of_nat (k + i) <? Z.of_nat n - 1)%Z
                  then [Format.Break] else [])
            lines)
  = interleaved lines.
Proof.
  revert k. induction lines as [|line rest IH]; intros k Hn; [reflexivity|].
  cbn [imap concat length] in *.
  rewrite (imap_ext _ (fun i line0 =>
                         Format.Line line0 ::
                         if (Z.of_nat (S k + i) <? Z.of_nat n - 1)%Z
                         then [Format.Break] else [])).
  2: { intros i x _. unfold compose.
       now replace (k + S i)%nat with (S k + i)%nat by lia. }
  rewrite (IH (S k)) by lia.
  destruct rest as [|next rest].
  - destruct (Z.ltb_spec (Z.of_nat (k + 0)) (Z.of_nat n - 1));
      [cbn [length] in Hn; lia|reflexivity].
  - destruct (Z.ltb_spec (Z.of_nat (k + 0)) (Z.of_nat n - 1));
      [reflexivity|cbn [length] in Hn; lia].
Qed.

Lemma splitBy_nonempty (sep : N -> bool) (s : jsstring) :
  splitBy sep s <> [].
Proof.
  destruct s as [|c s]; cbn [splitBy]; [discriminate|].
  destruct (sep c); [discriminate|]. now destruct (splitBy sep s).
Qed.

Lemma shown_lines (s : jsstring) :
  shown (interleaved (JS.split 0xA s)) = s /\
  breaks (interleaved (JS.split 0xA s))
  = length (List.filter (N.eqb 0xA) s).
Proof.
  unfold JS.split. induction s as [|c s [IHs IHb]]; [split; reflexivity|].
  cbn [splitBy List.filter].
  pose proof (splitBy_nonempty (N.eqb 0xA) s) as Hne.
  destruct (N.eqb_spec 0xA c) as [<-|Hc].
  - destruct (splitBy (N.eqb 0xA) s) as [|seg segs]; [congruence|].
    change (interleaved ([] :: seg :: segs))
      with (Format.Line [] :: Format.Break :: interleaved (seg :: segs)).
    unfold shown, breaks in *. cbn [flat_map List.filter app length].
    split; [now rewrite IHs|now rewrite IHb].
  - destruct (splitBy (N.eqb 0xA) s) as [|seg segs]; [congruence|].
    destruct segs as [|next segs].
    + unfold shown, breaks in *. cbn [interleaved flat_map List.filter app length] in *.
      split; [now rewrite <- IHs|exact IHb].
    + change (interleaved ((c :: seg) :: next :: segs))
        with (Format.Line (c :: seg) :: Format.Break
                :: interleaved (next :: segs)).
      change (interleaved (seg :: next :: segs))
        with (Format.Line seg :: Format.Break :: interleaved (next :: segs))
        in IHs, IHb.
      unfold shown, breaks in *. cbn [flat_map List.filter app length] in *.
      split; [now rewrite <- IHs|exact IHb].
Qed.

(** X17. formatText shows a label as its lines with one line break
    between each two: read back with a newline for every break, the
    fragments give the label again, and there are as many breaks as the
    label has newline characters.  An empty label shows nothing. *)
Theorem formatText_shows_the_label (text : jsstring) :
  Format.formatText text = (if truthy text
                            then interleaved (JS.split 0xA text) else []) /\
  shown (Format.formatText text) = text /\
  breaks (Format.formatText text) = length (List.filter (N.eqb 0xA) text).
Proof.
  assert (Hfmt : Format.formatText text
                 = if truthy text then interleaved (JS.split 0xA text) else []).
  { unfold Format.formatText. destruct (truthy text); cbn [negb]; [|reflexivity].
    apply (fragments_interleaved _ 0). reflexivity. }
  rewrite Hfmt. split; [reflexivity|].
  destruct text as [|c text]; [split; reflexivity|].
  cbn [truthy]. apply shown_lines.
Qed.

(** ** Layout commands in the chat *)

(** X18. A chat message in src/src/App.tsx that asks for the vertical
    or the horizontal layout while there are nodes is answered without
    the model: the nodes are laid out anew in their order (horizontally
    if the message says so, also when it names both layouts), with their
    ids and labels; the edges and the counter stay; the transcript gains
    the message and the confirmation, and the input box is emptied. *)
Theorem layout_command_is_answered_locally
    (st : State) (outcome : option jsstring) :
  let said := trim (chatInput st) in
  let horizontal := Regex.test Simple.horizontalRegex said in
  let after := finish outcome (Simple.handleSendMessage st) in
  truthy said = true -> layoutCommand st = true ->
  callsModel (Simple.handleSendMessage st) = false /\
  nodes after = imap (moved 200 80 100 horizontal) (nodes st) /\
  edges after = edges st /\ nextNodeId after = nextNodeId st /\
  chatHistory after
  = chatHistory st
    ++ [{| role := user; content := chatInput st |};
        {| role := assistant; content := Simple.rearrangedReply horizontal |}] /\
  chatInput after = [] /\ input after = input st /\ error after = error st.
Proof.
  cbn zeta. intros Hsaid Hlocal.
  assert (Hnodes : (length (nodes st) =? 0)%nat = false).
  { unfold layoutCommand in Hlocal. destruct (nodes st); [discriminate|reflexivity]. }
  unfold Simple.handleSendMessage. rewrite Hsaid. cbn [negb]. cbn zeta.
  unfold layoutCommand in Hlocal. rewrite Hlocal.
  cbn [finish callsModel]. unfold Simple.rearrangeFlowchart.
  change (nodes (setChatInput [] (setChatHistory _ st))) with (nodes st).
  rewrite Hnodes.
  cbn [nodes edges nextNodeId chatHistory chatInput input error
       setNodes setChatHistory setChatInput].
  split_and!; try reflexivity.
  - apply imap_ext. intros i node _. unfold Simple.rearranged, moved, place.
    now destruct (Regex.test Simple.horizontalRegex (trim (chatInput st))).
  - now rewrite <- app_assoc.
Qed.

Lemma layout_command_is_answered_locally_witness :
  let st := Simple.generateFlowFromSteps [str "boil"; str "pour"] false
              (setChatInput (str "Сделай горизонтально") initial) in
  map position (nodes (finish None (Simple.handleSendMessage st)))
  = [{| pos_x := 100; pos_y := 100 |}; {| pos_x := 400; pos_y := 100 |}].
Proof.
  cbn zeta.
  pose proof (layout_command_is_answered_locally
                (Simple.generateFlowFromSteps [str "boil"; str "pour"] false
                   (setChatInput (str "Сделай горизонтально") initial))
                None) as H.
  cbn zeta in H. destruct H as (_ & H & _).
  - reflexivity.
  - reflexivity.
  - rewrite H. reflexivity.
Defined.

(** ** Generating from nothing *)

(** X19. Steps of which none is left after the clean-up (no step at
    all, or only markers and white space) leave the diagram empty and set
    the counter to 1, in both interactive variants. *)
Theorem no_usable_step_empties_the_diagram
    (steps : list jsstring) (isHorizontal : bool) (st : State) :
  Forall (fun step => cleanStep step = []) steps ->
  let simple := Simple.generateFlowFromSteps steps isHorizontal st in
  let editable := Editable.generateFlowFromSteps steps isHorizontal st in
  nodes simple = [] /\ edges simple = [] /\ nextNodeId simple = 1%nat /\
  nodes editable = [] /\ edges editable = [] /\ nextNodeId editable = 1%nat.
Proof.
  intros Hsteps. cbn zeta. rewrite simple_generate, editable_generate.
  cbn [nodes edges nextNodeId].
  assert (Hnone : processSteps steps = []).
  { unfold processSteps. induction Hsteps as [|s l Hs _ IH]; [reflexivity|].
    cbn [map List.filter]. now rewrite Hs. }
  rewrite Hnone. split_and!; reflexivity.
Qed.

Lemma no_usable_step_empties_the_diagram_witness :
  nodes (Simple.generateFlowFromSteps
           [str "```mermaid"; str " graph TD "; []] true
           (Simple.addNode initial))
  = [].
Proof.
  apply (no_usable_step_empties_the_diagram
           [str "```mermaid"; str " graph TD "; []] true
           (Simple.addNode initial)).
  repeat constructor.
Defined.

(** ** A reply of the model, drawn *)

Lemma cleanSegments_reply (reply : jsstring) :
  cleanSegments (JS.split 0xA reply) <> [] -> truthy reply = true.
Proof. destruct reply; [intros H; now contradiction H|reflexivity]. Qed.

(** X20. A flowchart request whose trimmed input has at least 5
    characters, answered by the model with a text that has a line that is
    not blank, draws the reply line by line: the lines, trimmed, blank
    ones left out, are the steps (in the interactive variants after the
    clean-up of generateFlowFromSteps; in part_000 the texts of the lines
    of the form "Шаг N: text" if there is one, else all lines if there
    are at least two, else nothing is drawn and an error is shown).  The
    flow runs horizontally exactly when the input, split at dashes, has
    more than one part that is not blank.  No error is shown and the
    loading flag is off. *)
Theorem reply_is_drawn_line_by_line
    (st : State) (sv : Svg.State) (reply : jsstring) :
  let lines := cleanSegments (JS.split 0xA reply) in
  let simple := finish (Some reply) (Simple.generateFlowchart st) in
  let editable := finish (Some reply) (Editable.generateFlowchart st) in
  let svg := finish (Some reply) (Svg.generateFlowchart sv) in
  let stepLines :=
    Editable.extractStepLines (Editable.responseLinesOf reply) in
  (5 <= length (trim (input st)))%nat ->
  (5 <= length (trim (Svg.input sv)))%nat ->
  lines <> [] ->
  (nodes simple
   = imap (nodeAt 200 80 100 (Simple.dashFlow (input st)))
       (processSteps lines) /\
   error simple = [] /\ loading simple = false) /\
  (stepLines <> [] ->
   nodes editable
   = imap (nodeAt 180 70 80 (Editable.dashFlow (input st)))
       (processSteps stepLines) /\
   error editable = []) /\
  (stepLines = [] -> (1 < length (Editable.responseLinesOf reply))%nat ->
   nodes editable
   = imap (nodeAt 180 70 80 (Editable.dashFlow (input st)))
       (processSteps (Editable.responseLinesOf reply)) /\
   error editable = []) /\
  (stepLines = [] -> (length (Editable.responseLinesOf reply) <= 1)%nat ->
   nodes editable = nodes st /\ edges editable = edges st /\
   error editable = Editable.stepsNotRecognised) /\
  (Svg.diagram svg
   = Svg.Sequential
       (Svg.generateSvgFlowchart lines (Svg.dashFlow (Svg.input sv))) /\
   Svg.error svg = [] /\ Svg.loading svg = false).
Proof.
  cbn zeta. intros Hst Hsv Hlines.
  pose proof (cleanSegments_reply reply Hlines) as Hreply.
  assert (Hlong : forall s : jsstring,
             (5 <= length (trim s))%nat ->
             truthy (trim s) = true /\ (length (trim s) <? 5)%nat = false).
  { intros s Hs. split; [|now apply Nat.ltb_ge].
    destruct (trim s); [cbn in Hs; lia|reflexivity]. }
  destruct (Hlong _ Hst) as [Hin Hge]. destruct (Hlong _ Hsv) as [Hin' Hge'].
  assert (Hcount : (length (cleanSegments (JS.split 0xA reply)) =? 0)%nat
                   = false).
  { destruct (cleanSegments (JS.split 0xA reply)); [congruence|reflexivity]. }
  split; [|split; [|split; [|split]]].
  - unfold Simple.generateFlowchart. rewrite Hin. cbn [negb]. cbn zeta.
    change (input (setError [] (setLoading true st))) with (input st).
    rewrite Hge. cbn [finish]. rewrite Hreply, Hcount.
    rewrite simple_generate. cbn [nodes error loading setLoading setError].
    split_and!; reflexivity.
  - intros Hsteps. unfold Editable.generateFlowchart.
    rewrite Hin. cbn [negb]. cbn zeta.
    change (input (setError [] (setLoading true st))) with (input st).
    rewrite Hge. cbn [finish]. rewrite Hreply.
    destruct (Editable.extractStepLines (Editable.responseLinesOf reply))
      as [|s l] eqn:Hextract; [congruence|].
    cbn [length Nat.ltb Nat.leb]. rewrite editable_generate.
    cbn [nodes error loading setLoading setError]. split; reflexivity.
  - intros Hnone Hmany. unfold Editable.generateFlowchart.
    rewrite Hin. cbn [negb]. cbn zeta.
    change (input (setError [] (setLoading true st))) with (input st).
    rewrite Hge. cbn [finish]. rewrite Hreply, Hnone.
    cbn [length]. change (0 <? 0)%nat with false. cbv iota.
    apply Nat.ltb_lt in Hmany. rewrite Hmany. rewrite editable_generate.
    cbn [nodes error loading setLoading setError]. split; reflexivity.
  - intros Hnone Hfew. unfold Editable.generateFlowchart.
    rewrite Hin. cbn [negb]. cbn zeta.
    change (input (setError [] (setLoading true st))) with (input st).
    rewrite Hge. cbn [finish]. rewrite Hreply, Hnone.
    cbn [length]. change (0 <? 0)%nat with false. cbv iota.
    apply Nat.ltb_ge in Hfew. rewrite Hfew.
    split_and!; reflexivity.
  - unfold Svg.generateFlowchart. rewrite Hin'. cbn [negb]. cbn zeta.
    change (Svg.input (Svg.setError [] (Svg.setLoading true sv)))
      with (Svg.input sv).
    rewrite Hge'. cbn [finish]. rewrite Hreply, Hcount.
    split_and!; reflexivity.
Qed.

Lemma reply_is_drawn_line_by_line_witness :
  let st := setInput (str "make tea - drink it") initial in
  map label (nodes (finish (Some (str " boil water" ++ [0xA; 0xA]
                                  ++ str "pour "))
                      (Simple.generateFlowchart st)))
  = [str "boil water"; str "pour"].
Proof.
  cbn zeta.
  pose proof (reply_is_drawn_line_by_line
                (setInput (str "make tea - drink it") initial)
                {| Svg.input := str "make tea"; Svg.chatInput := [];
                   Svg.loading := false; Svg.error := [];
                   Svg.chatHistory := []; Svg.modelType := ollama;
                   Svg.diagram := Svg.Blank |}
                (str " boil water" ++ [0xA; 0xA] ++ str "pour ")) as H.
  cbn zeta in H. destruct H as ((H & _) & _).
  - vm_compute. lia.
  - vm_compute. lia.
  - vm_compute. discriminate.
  - rewrite H. reflexivity.
Defined.

(** ** Numbered lists in the fallback of src/src/App.tsx *)

Lemma star_total {A : Type} (c : N -> bool) (s : jsstring)
    (k : jsstring -> option A) :
  (forall s', is_Some (k s')) -> is_Some (Regex.star c s k).
Proof.
  intros Hk. induction s as [|x s IH]; cbn [Regex.star]; [apply Hk|].
  destruct (c x); [|apply Hk].
  destruct (Regex.star c s k); [eauto|apply Hk].
Qed.

(** A line of the form number, period, white space, text is a numbered
    line, and without its number it is the text. *)
Lemma numbered_line (line ds ws rest : jsstring) :
  trim line = ds ++ 0x2E :: ws ++ rest ->
  ds <> [] -> Forall (fun c => isDigit c = true) ds ->
  ws <> [] -> allWs ws ->
  rest <> [] -> headNonWs rest ->
  Simple.isNumbered line = true /\ Simple.dropNumber line = rest.
Proof.
  intros Hline Hds Hds' Hws Hws' Hrest Hhead.
  assert (Hdot : boundary isDigit (0x2E :: ws ++ rest)) by reflexivity.
  assert (Hb : boundary isWhiteSpace rest)
    by (destruct rest; [congruence|exact Hhead]).
  split.
  - unfold Simple.isNumbered. rewrite Hline.
    assert (is_Some (Regex.matchAt Simple.numberedPattern
                       (ds ++ 0x2E :: ws ++ rest))) as [m Hm]; [|now rewrite Hm].
    unfold Regex.matchAt, Simple.numberedPattern.
    destruct rest as [|x rest]; [congruence|].
    assert (Hx : isDot x = true).
    { unfold isDot. cbn [headNonWs] in Hhead. unfold isWhiteSpace in Hhead.
      destruct (isLineTerminator x); [|reflexivity].
      now rewrite !orb_true_r in Hhead. }
    set (k := fun (s' : jsstring) (caps : list jsstring) =>
                Some (take (length (ds ++ 0x2E :: ws ++ x :: rest) - length s')
                        (ds ++ 0x2E :: ws ++ x :: rest), caps)).
    assert (is_Some (Regex.rmatch (Regex.Plus isDot) (x :: rest) [] k))
      as [a Ha].
    { cbn [Regex.rmatch]. rewrite Hx. apply star_total. intros s'. now eexists. }
    exists a. rewrite rmatch_cat.
    apply rmatch_plus_munch; [exact Hds|exact Hds'|exact Hdot|].
    rewrite rmatch_cat, (rmatch_chr _ _ _ _ _ (N.eqb_refl _)), rmatch_cat.
    apply rmatch_plus_munch; [exact Hws|exact Hws'|exact Hb|exact Ha].
  - unfold Simple.dropNumber. cbn zeta. rewrite Hline.
    assert (Hm : Regex.matchAt Simple.numberPrefix (ds ++ 0x2E :: ws ++ rest)
                 = Some (ds ++ 0x2E :: ws, [])).
    { unfold Regex.matchAt, Simple.numberPrefix. rewrite rmatch_cat.
      apply rmatch_plus_munch; [exact Hds|exact Hds'|exact Hdot|].
      rewrite rmatch_cat, (rmatch_chr _ _ _ _ _ (N.eqb_refl _)).
      apply rmatch_plus_munch; [exact Hws|exact Hws'|exact Hb|].
      f_equal. f_equal.
      replace (ds ++ 0x2E :: ws ++ rest) with ((ds ++ 0x2E :: ws) ++ rest)
        by (rewrite <- app_assoc; reflexivity).
      apply take_matched. }
    rewrite Hm.
    replace (ds ++ 0x2E :: ws ++ rest) with ((ds ++ 0x2E :: ws) ++ rest)
      by (rewrite <- app_assoc; reflexivity).
    apply drop_app_length.
Qed.

(** X21. When the model call fails in src/src/App.tsx on an input that
    has at least two numbered lines, no arrow and no "if", the diagram
    is that of the numbered lines, each without its number, from top to
    bottom, and the note on basic processing is shown.  A line counts as
    numbered, and loses exactly its number, when it reads (surrounding
    white space apart) digits, a period, white space and a text. *)
Theorem numbered_lines_become_the_steps (st : State) :
  let numbered := List.filter Simple.isNumbered (JS.split 0xA (input st)) in
  let after := finish None (Simple.generateFlowchart st) in
  (5 <= length (trim (input st)))%nat ->
  (1 < length numbered)%nat ->
  includes (str "->") (input st) = false ->
  includes (str "→") (input st) = false ->
  Simple.lowerIncludes (str "if") (input st) = false ->
  (nodes after
   = imap (nodeAt 200 80 100 false)
       (processSteps (map Simple.dropNumber numbered)) /\
   error after = Simple.noteBasicProcessing /\ loading after = false) /\
  (forall line ds ws rest,
     trim line = ds ++ 0x2E :: ws ++ rest ->
     ds <> [] -> Forall (fun c => isDigit c = true) ds ->
     ws <> [] -> allWs ws -> rest <> [] -> headNonWs rest ->
     Simple.isNumbered line = true /\ Simple.dropNumber line = rest).
Proof.
  cbn zeta. intros Hlong Hmany Harrow1 Harrow2 Hif.
  split; [|apply numbered_line].
  assert (Hin : truthy (trim (input st)) = true)
    by (destruct (trim (input st)); [cbn in Hlong; lia|reflexivity]).
  apply Nat.ltb_ge in Hlong. apply Nat.ltb_lt in Hmany.
  unfold Simple.generateFlowchart. rewrite Hin. cbn [negb]. cbn zeta.
  change (input (setError [] (setLoading true st))) with (input st).
  rewrite Hlong. cbn [finish]. unfold Simple.fallback. cbn zeta.
  change (input (setError [] (setLoading true st))) with (input st).
  rewrite Hmany, Harrow1, Harrow2, Hif. cbn [orb andb].
  assert (Hsome : (0 <? length (map Simple.dropNumber
                                  (List.filter Simple.isNumbered
                                     (JS.split 0xA (input st)))))%nat = true).
  { rewrite length_map. apply Nat.ltb_lt. apply Nat.ltb_lt in Hmany. lia. }
  rewrite Hsome, simple_generate.
  cbn [nodes error loading setError setLoading]. split_and!; reflexivity.
Qed.

Lemma numbered_lines_become_the_steps_witness :
  let st := setInput (str "1. boil water" ++ [0xA] ++ str " 2.  pour it ")
              initial in
  map label (nodes (finish None (Simple.generateFlowchart st)))
  = [str "boil water"; str "pour it"].
Proof.
  cbn zeta.
  pose proof (numbered_lines_become_the_steps
                (setInput (str "1. boil water" ++ [0xA] ++ str " 2.  pour it ")
                   initial)) as H.
  cbn zeta in H. destruct H as ((H & _) & _).
  - vm_compute. lia.
  - vm_compute. lia.
  - reflexivity.
  - reflexivity.
  - reflexivity.
  - rewrite H. reflexivity.
Defined.

(** ** Identifiers of edges *)

Lemma edge_tag_inj (i j : nat) (s t : jsstring) :
  boundary isDigit s -> boundary isDigit t ->
  str "edge-" ++ num i ++ s = str "edge-" ++ num j ++ t -> i = j /\ s = t.
Proof.
  intros Hs Ht H%app_inv_head.
  apply digits_then_rest in H as [H ->]; auto using num_digits.
  split; [now apply num_inj|reflexivity].
Qed.

Lemma link_ids_distinct (count : nat) :
  NoDup (map (fun i => edge_id (link i)) (seq 0 count)).
Proof.
  apply NoDup_fmap_2; [|apply NoDup_seq].
  intros i j H. unfold link in H. cbn [edge_id] in H.
  now apply edge_tag_inj in H as [H _].
Qed.

Lemma neighbours_ids (body : list Edge -> nat -> list Edge)
    (name : nat -> jsstring) (ns : list Node) (count : nat) :
  (forall acc i a b, ns !! i = Some a -> ns !! (i + 1)%nat = Some b ->
     map edge_id (body acc i) = map edge_id acc ++ [name i]) ->
  (count + 1 <= length ns)%nat ->
  map edge_id (forLoop body 0 count []) = map name (seq 0 count).
Proof.
  intros Hbody. induction count as [|c IH]; intros Hc; [reflexivity|].
  rewrite forLoop_snoc, seq_S, map_app. cbn [Nat.add map].
  assert (is_Some (ns !! c)) as [a Ha] by (apply lookup_lt_is_Some_2; lia).
  assert (is_Some (ns !! (c + 1)%nat)) as [b Hb]
    by (apply lookup_lt_is_Some_2; lia).
  rewrite (Hbody _ c a b Ha Hb), IH by lia. reflexivity.
Qed.

Lemma linked_ids_distinct (ns : list Node) :
  NoDup (map edge_id
           (forLoop (Editable.linkBody ns) 0
              (upTo (Z.of_nat (length ns) - 1)) [])).
Proof.
  rewrite upTo_pred. destruct ns as [|n ns]; [apply NoDup_nil_2|].
  rewrite (neighbours_ids _ (fun i => edge_id (link i)) (n :: ns)).
  - apply link_ids_distinct.
  - intros acc i a b Ha Hb. unfold Editable.linkBody. rewrite Ha, Hb.
    now rewrite map_app.
  - cbn [length]. lia.
Qed.

Lemma autoLinked_ids_distinct (ns : list Node) :
  NoDup (map edge_id
           (forLoop (Editable.autoLinkBody ns) 0
              (upTo (Z.of_nat (length ns) - 1)) [])).
Proof.
  rewrite upTo_pred. destruct ns as [|n ns]; [apply NoDup_nil_2|].
  rewrite (neighbours_ids _
             (fun i => str "edge-auto-" ++ num i ++ str "-" ++ num (i + 1))
             (n :: ns)).
  - apply NoDup_fmap_2; [|apply NoDup_seq].
    intros i j H%app_inv_head.
    apply digits_then_rest in H as [H _];
      auto using num_digits; [now apply num_inj|reflexivity|reflexivity].
  - intros acc i a b Ha Hb. unfold Editable.autoLinkBody. rewrite Ha, Hb.
    now rewrite map_app.
  - cbn [length]. lia.
Qed.

(** The edge ids of the entries before entry [n]: a number below [n]
    with the suffix of a neighbour, or a number and its successor, the
    successor below [n]. *)
Lemma complex_edge_ids (structure : list Branch) :
  NoDup (map edge_id (concat (imap branchEdges structure))) /\
  forall id, id ∈ map edge_id (concat (imap branchEdges structure)) ->
    exists a s,
      id = str "edge-" ++ num a ++ s /\
      (((s = str "-right" \/ s = str "-below") /\ (a < length structure)%nat)
       \/ (s = str "-" ++ num (a + 1) /\ (a + 1 < length structure)%nat)).
Proof.
  induction structure as [|b l [IHdup IHform]] using rev_ind.
  - split; [apply NoDup_nil_2|]. intros id Hid. inversion Hid.
  - rewrite imap_app, concat_app, map_app. cbn [imap concat].
    rewrite app_nil_r, Nat.add_0_r, length_app. cbn [length].
    set (n := length l) in *.
    assert (Hkinds : forall a (s t : jsstring),
               (s = str "-right" \/ s = str "-below") ->
               t = str "-" ++ num (a + 1) -> s <> t).
    { intros a s t Hs -> H.
      pose proof (num_digits (a + 1)) as Hd.
      destruct (num (a + 1)) as [|d ds]; destruct Hs as [-> | ->];
        try discriminate;
        injection H as H _; inversion Hd as [|? ? Hdig _]; subst;
        vm_compute in Hdig; discriminate. }
    assert (Hbound : forall a (s : jsstring),
               (s = str "-right" \/ s = str "-below"
                \/ s = str "-" ++ num (a + 1)) ->
               boundary isDigit s).
    { intros a s [->|[->| ->]]; reflexivity. }
    assert (Hnew : forall id, id ∈ map edge_id (branchEdges n b) ->
               exists a s,
                 id = str "edge-" ++ num a ++ s /\
                 (((s = str "-right" \/ s = str "-below") /\ a = n)
                  \/ (s = str "-" ++ num (a + 1) /\ (a + 1)%nat = n))).
    { intros id Hid. unfold branchEdges in Hid.
      rewrite !map_app in Hid.
      apply elem_of_app in Hid as [Hid|Hid];
        [|apply elem_of_app in Hid as [Hid|Hid]].
      - destruct (present (right b)); [|inversion Hid].
        apply list_elem_of_singleton in Hid. subst id.
        exists n, (str "-right"). split; [reflexivity|]. left. auto.
      - destruct (present (below b)); [|inversion Hid].
        apply list_elem_of_singleton in Hid. subst id.
        exists n, (str "-below"). split; [reflexivity|]. left. auto.
      - destruct (Nat.ltb_spec 0 n); [|inversion Hid].
        apply list_elem_of_singleton in Hid. subst id.
        exists (n - 1)%nat, (str "-" ++ num (n - 1 + 1)).
        cbn [edge_id]. replace (n - 1 + 1)%nat with n by lia.
        split; [reflexivity|]. right. split; [reflexivity|lia]. }
    split.
    + apply list.NoDup_app. split_and!; [exact IHdup| |].
      * intros id Hold Hfresh.
        destruct (IHform id Hold) as (a & s & -> & Hs).
        destruct (Hnew _ Hfresh) as (a' & s' & H & Hs').
        apply edge_tag_inj in H as [<- <-].
        -- destruct Hs as [[Hs Ha]|[Hs Ha]], Hs' as [[Hs' Ha']|[Hs' Ha']];
             try lia.
           now apply (Hkinds a s s).
        -- destruct Hs as [[Hs _]|[Hs _]];
             [apply (Hbound a); tauto|apply (Hbound a); tauto].
        -- destruct Hs' as [[Hs' _]|[Hs' _]];
             [apply (Hbound a'); tauto|apply (Hbound a'); tauto].
      * unfold branchEdges.
        destruct (present (right b)), (present (below b)),
          (Nat.ltb_spec 0 n); cbn [app map edge_id];
          repeat (apply NoDup_cons_2;
                  [rewrite ?elem_of_cons, elem_of_nil;
                   intros Hin; repeat destruct Hin as [Hin|Hin];
                   try (apply edge_tag_inj in Hin as [_ Hin];
                        [|reflexivity|reflexivity]);
                   try discriminate;
                   try (revert Hin; apply (Hkinds (n - 1)%nat);
                        [auto|now replace (n - 1 + 1)%nat with n by lia]);
                   try (symmetry in Hin; revert Hin;
                        apply (Hkinds (n - 1)%nat);
                        [auto|now replace (n - 1 + 1)%nat with n by lia]);
                   try exact Hin|]);
          apply NoDup_nil_2.
    + intros id [Hold|Hfresh]%elem_of_app.
      * destruct (IHform id Hold) as (a & s & -> & Hs). exists a, s.
        split; [reflexivity|]. destruct Hs as [[Hs Ha]|[Hs Ha]];
          [left; split; [exact Hs|lia]|right; split; [exact Hs|lia]].
      * destruct (Hnew id Hfresh) as (a & s & -> & Hs). exists a, s.
        split; [reflexivity|]. destruct Hs as [[Hs Ha]|[Hs Ha]];
          [left; split; [exact Hs|lia]|right; split; [exact Hs|lia]].
Qed.

Lemma uniqueEdgeIds_frame (st st' : State) :
  nodes st' = nodes st -> edges st' = edges st ->
  nextNodeId st' = nextNodeId st -> uniqueEdgeIds st -> uniqueEdgeIds st'.
Proof. unfold uniqueEdgeIds. intros _ -> _. auto. Qed.

Lemma uniqueEdgeIds_simple_generate (steps : list jsstring)
    (isHorizontal : bool) (st : State) :
  uniqueEdgeIds (Simple.generateFlowFromSteps steps isHorizontal st).
Proof.
  rewrite simple_generate. unfold uniqueEdgeIds. cbn [edges].
  rewrite map_map. apply link_ids_distinct.
Qed.

Lemma uniqueEdgeIds_editable_generate (steps : list jsstring)
    (isHorizontal : bool) (st : State) :
  uniqueEdgeIds (Editable.generateFlowFromSteps steps isHorizontal st).
Proof.
  rewrite editable_generate. unfold uniqueEdgeIds. cbn [edges].
  rewrite map_map. apply link_ids_distinct.
Qed.

Lemma uniqueEdgeIds_complex (structure : list Branch) (st : State) :
  uniqueEdgeIds (generateComplexFlowchart structure st).
Proof.
  rewrite complex_generate. unfold uniqueEdgeIds. cbn [edges].
  apply complex_edge_ids.
Qed.

Lemma uniqueEdgeIds_simple_rearrange (isHorizontal : bool) (st : State) :
  uniqueEdgeIds st -> uniqueEdgeIds (Simple.rearrangeFlowchart isHorizontal st).
Proof.
  intros H. unfold Simple.rearrangeFlowchart.
  now destruct (length (nodes st) =? 0)%nat.
Qed.

Lemma uniqueEdgeIds_editable_rearrange (isHorizontal : bool) (st : State) :
  uniqueEdgeIds st ->
  uniqueEdgeIds (Editable.rearrangeFlowchart isHorizontal st).
Proof.
  intros H. unfold Editable.rearrangeFlowchart.
  destruct (length (nodes st) =? 0)%nat; [exact H|].
  unfold uniqueEdgeIds. cbn [edges setEdges setNodes].
  apply linked_ids_distinct.
Qed.

Lemma uniqueEdgeIds_deleteNode (nodeId : jsstring) (st : State) :
  uniqueEdgeIds st -> uniqueEdgeIds (Editable.deleteNode nodeId st).
Proof.
  unfold uniqueEdgeIds, Editable.deleteNode. cbn [edges setNodes setEdges].
  intros H. eapply sublist_NoDup; [exact H|].
  apply (fmap_sublist edge_id), sublist_filter.
Qed.

Lemma uniqueEdgeIds_restoreEdges (st : State) :
  uniqueEdgeIds st -> uniqueEdgeIds (Editable.restoreEdges st).
Proof.
  intros H. unfold Editable.restoreEdges.
  destruct ((2 <=? length (nodes st)) && (length (edges st) =? 0))%nat;
    [|exact H].
  cbn zeta.
  match goal with
  | |- uniqueEdgeIds (if ?b then _ else _) => destruct b; [|exact H]
  end.
  unfold uniqueEdgeIds. cbn [edges setEdges]. apply autoLinked_ids_distinct.
Qed.

Lemma uniqueEdgeIds_simple_addNode (st : State) :
  uniqueEdgeIds st -> uniqueEdgeIds (Simple.addNode st).
Proof. exact (fun H => H). Qed.

Lemma uniqueEdgeIds_editable_addNode (st : State) :
  uniqueEdgeIds st -> uniqueEdgeIds (Editable.addNode st).
Proof. exact (fun H => H). Qed.

(** X22. In every state that a session reaches, in either interactive
    variant, no two edges have the same id. *)
Theorem edge_ids_stay_unique :
  (forall ops : list Simple.Operation,
     NoDup (map edge_id (edges (Simple.session ops)))) /\
  (forall ops : list Editable.Operation,
     NoDup (map edge_id (edges (Editable.session ops)))).
Proof.
  split; intros ops.
  - apply (simple_session_keeps uniqueEdgeIds uniqueEdgeIds_frame
             uniqueEdgeIds_simple_generate uniqueEdgeIds_complex
             uniqueEdgeIds_simple_rearrange uniqueEdgeIds_simple_addNode).
    apply NoDup_nil_2.
  - apply (editable_session_keeps uniqueEdgeIds uniqueEdgeIds_frame
             uniqueEdgeIds_editable_generate uniqueEdgeIds_complex
             uniqueEdgeIds_editable_rearrange uniqueEdgeIds_editable_addNode
             uniqueEdgeIds_deleteNode uniqueEdgeIds_restoreEdges).
    apply NoDup_nil_2.
Qed.

(** ** What a match consumes and captures *)

Lemma star_rest {A : Type} (c : N -> bool) (s : jsstring)
    (k : jsstring -> option A) (a : A) :
  Regex.star c s k = Some a -> exists p s', s = p ++ s' /\ k s' = Some a.
Proof.
  induction s as [|x s IH]; cbn [Regex.star]; intros H.
  - now exists [], [].
  - destruct (c x); [|now exists [], (x :: s)].
    destruct (Regex.star c s k) as [b|] eqn:Hstar.
    + injection H as ->. destruct (IH eq_refl) as (p & s' & -> & Hk).
      now exists (x :: p), s'.
    + now exists [], (x :: s).
Qed.

(** A match of a pattern without alternatives consumes at least the
    least number of characters of the pattern, hands on the rest of the
    input, and adds one capture for each of its groups. *)
Lemma rmatch_track {A : Type} (r : Regex.regex) (s : jsstring)
    (caps : list jsstring) (k : jsstring -> list jsstring -> option A) (a : A) :
  altFree r = true ->
  Regex.rmatch r s caps k = Some a ->
  exists p s' more,
    s = p ++ s' /\ (minLen r <= length p)%nat /\
    length more = groups r /\ k s' (caps ++ more) = Some a.
Proof.
  revert s caps k.
  induction r as [|c|c|c|r1 IH1 r2 IH2|r1 IH1 r2 IH2|r1 IH1|];
    intros s caps k Hfree H; cbn [Regex.rmatch groups altFree minLen] in *.
  - exists [], s, []. rewrite app_nil_r. now split_and!.
  - destruct s as [|x s]; [discriminate|]. destruct (c x); [|discriminate].
    exists [x], s, []. rewrite app_nil_r. now split_and!.
  - apply star_rest in H as (p & s' & -> & H).
    exists p, s', []. rewrite app_nil_r. split_and!; auto; lia.
  - destruct s as [|x s]; [discriminate|]. destruct (c x); [|discriminate].
    apply star_rest in H as (p & s' & -> & H).
    exists (x :: p), s', []. rewrite app_nil_r.
    split_and!; auto; cbn [length]; lia.
  - apply andb_true_iff in Hfree as [Hfree1 Hfree2].
    apply IH1 in H as (p1 & s1 & more1 & -> & Hmin1 & Hlen1 & H);
      [|exact Hfree1].
    apply IH2 in H as (p2 & s2 & more2 & -> & Hmin2 & Hlen2 & H);
      [|exact Hfree2].
    exists (p1 ++ p2), s2, (more1 ++ more2).
    rewrite <- !app_assoc, !length_app, Hlen1, Hlen2.
    split_and!; [reflexivity|lia|reflexivity|].
    now rewrite <- app_assoc in H.
  - discriminate.
  - apply IH1 in H as (p & s' & more & -> & Hmin & Hlen & H); [|exact Hfree].
    exists p, s', (more ++ [take (length (p ++ s') - length s') (p ++ s')]).
    rewrite length_app, Hlen. cbn [length].
    split_and!; [reflexivity|exact Hmin|lia|]. now rewrite app_assoc.
  - destruct s as [|x s]; [|discriminate]. exists [], [], [].
    split_and!; [reflexivity|reflexivity|reflexivity|now rewrite app_nil_r].
Qed.

(** ** The steps taken from a reply *)

Lemma stepLine_captures (line m : jsstring) (caps : list jsstring) :
  Regex.matchAt Editable.stepLineRegex line = Some (m, caps) ->
  exists p text, line = p ++ text /\ text <> [] /\ nth 1 caps [] = text.
Proof.
  unfold Regex.matchAt.
  set (k := fun (s' : jsstring) (caps : list jsstring) =>
              Some (take (length line - length s') line, caps)).
  set (pre := Regex.Cat (Regex.litI (str "шаг"))
                (Regex.Cat (Regex.Plus isWhiteSpace)
                   (Regex.Cat (Regex.Grp (Regex.Plus isDigit))
                      (Regex.Cat (Regex.Star isWhiteSpace)
                         (Regex.Cat (Regex.Chr (N.eqb 0x3A))
                            (Regex.Star isWhiteSpace)))))).
  change (Regex.rmatch Editable.stepLineRegex line [] k)
    with (Regex.rmatch pre line []
            (fun s' caps' =>
               Regex.rmatch (Regex.Grp (Regex.Plus isDot)) s' caps'
                 (fun s'' caps'' => Regex.rmatch Regex.Eol s'' caps'' k))).
  intros H.
  apply rmatch_track in H as (p & text & more & -> & _ & Hlen & H);
    [|reflexivity].
  change (groups pre) with 1%nat in Hlen.
  destruct more as [|number [|? ?]]; try discriminate. cbn [app] in H.
  rewrite rmatch_grp in H.
  apply rmatch_track in H as (q & rest & none & -> & Hmin & Hnone & H);
    [|reflexivity].
  destruct none; [|discriminate]. cbn [Regex.rmatch app] in H.
  destruct rest as [|x rest]; [|discriminate].
  unfold k in H. injection H as _ <-.
  rewrite app_nil_r in *. cbn [length]. rewrite Nat.sub_0_r, firstn_all.
  exists p, q. split_and!; [reflexivity| |reflexivity].
  intros ->. cbn in Hmin. lia.
Qed.

Lemma allWs_not_last (s : jsstring) :
  s <> [] -> allWs s -> headNonWs (rev s) -> False.
Proof.
  intros Hne Hws Hlast.
  destruct (rev s) as [|c r] eqn:Hrev.
  - apply (f_equal (@rev N)) in Hrev. rewrite rev_involutive in Hrev.
    now subst s.
  - cbn [headNonWs] in Hlast.
    assert (Hc : In c s) by (apply in_rev; rewrite Hrev; now left).
    unfold allWs in Hws. rewrite Forall_forall in Hws.
    specialize (Hws c Hc). congruence.
Qed.

Lemma trim_of_ending (p text : jsstring) :
  text <> [] -> headNonWs (rev (p ++ text)) -> tidy (trim text).
Proof.
  intros Hne Hlast. split; [|apply trim_idempotent].
  assert (Htext : headNonWs (rev text)).
  { rewrite rev_app_distr in Hlast.
    destruct (rev text) as [|c r] eqn:Hrev; [exact I|exact Hlast]. }
  destruct (trim_decompose text) as (l & r & Htrim & Hl & Hr & _).
  intros Hnil. rewrite Hnil in Htrim. cbn [app] in Htrim.
  apply (allWs_not_last text Hne); [|exact Htext].
  rewrite Htrim. apply Forall_app. now split.
Qed.

Lemma stepLineBody_tidy (acc : list jsstring) (line : jsstring) :
  headNonWs (rev line) -> Forall tidy acc ->
  Forall tidy (Editable.stepLineBody acc line) /\
  (length (Editable.stepLineBody acc line) <= length acc + 1)%nat.
Proof.
  intros Hlast Hacc. unfold Editable.stepLineBody.
  destruct (Regex.matchAt Editable.stepLineRegex line) as [[m caps]|] eqn:Hm;
    [|split; [exact Hacc|lia]].
  apply stepLine_captures in Hm as (p & text & -> & Hne & ->).
  destruct (truthy text); [|split; [exact Hacc|lia]].
  cbn zeta. rewrite length_app. cbn [length]. split; [|lia].
  apply Forall_app. split; [exact Hacc|].
  constructor; [|constructor]. now apply trim_of_ending with p.
Qed.

Lemma extract_tidy (lines acc : list jsstring) :
  Forall (fun line => headNonWs (rev line)) lines -> Forall tidy acc ->
  Forall tidy (fold_left Editable.stepLineBody lines acc) /\
  (length (fold_left Editable.stepLineBody lines acc)
   <= length acc + length lines)%nat.
Proof.
  intros Hlines. revert acc.
  induction Hlines as [|line lines Hline _ IH]; intros acc Hacc.
  - split; [exact Hacc|cbn; lia].
  - cbn [fold_left length].
    destruct (stepLineBody_tidy acc line Hline Hacc) as [Htidy Hlen].
    destruct (IH _ Htidy) as [IHtidy IHlen]. split; [exact IHtidy|lia].
Qed.

Lemma responseLines_trimmed (reply : jsstring) :
  Forall (fun line => headNonWs (rev line) /\ tidy line)
    (Editable.responseLinesOf reply).
Proof.
  unfold Editable.responseLinesOf. apply Forall_forall.
  intros line [(raw & <- & _)%in_map_iff Hne]%filter_In.
  destruct (trim_decompose raw) as (l & r & _ & _ & _ & _ & Hlast).
  unfold tidy. split_and!; [exact Hlast| |apply trim_idempotent].
  destruct (trim raw); [discriminate|discriminate].
Qed.

(** X23. Every step that the extraction loop of part_000 takes from a
    reply is not empty and has no white space at either end, and so is
    every line it reads; it takes at most one step from a line, the steps
    in the order of their lines. *)
Theorem extracted_steps_are_tidy (reply : jsstring) :
  let lines := Editable.responseLinesOf reply in
  Forall tidy lines /\
  Forall tidy (Editable.extractStepLines lines) /\
  (length (Editable.extractStepLines lines) <= length lines)%nat /\
  forall line more,
    Editable.extractStepLines (line :: more)
    = Editable.extractStepLines [line]
      ++ Editable.extractStepLines more.
Proof.
  cbn zeta. pose proof (responseLines_trimmed reply) as Hlines.
  assert (Hlast : Forall (fun line => headNonWs (rev line))
                    (Editable.responseLinesOf reply))
    by (eapply Forall_impl; [|exact Hlines]; now intros line [H _]).
  destruct (extract_tidy (Editable.responseLinesOf reply) [] Hlast)
    as [Htidy Hlen]; [constructor|].
  split_and!.
  - eapply Forall_impl; [|exact Hlines]. now intros line [_ H].
  - exact Htidy.
  - exact Hlen.
  - intros line more. unfold Editable.extractStepLines. cbn [fold_left].
    assert (Hshift : forall lines acc,
               fold_left Editable.stepLineBody lines acc
               = acc ++ fold_left Editable.stepLineBody lines []).
    { induction lines as [|l lines IH]; intros acc; cbn [fold_left].
      - now rewrite app_nil_r.
      - rewrite (IH (Editable.stepLineBody acc l)),
          (IH (Editable.stepLineBody [] l)), app_assoc. f_equal.
        unfold Editable.stepLineBody.
        destruct (Regex.matchAt Editable.stepLineRegex l) as [[m caps]|];
          [|now rewrite app_nil_r].
        destruct (truthy (nth 1 caps [])); [reflexivity|now rewrite app_nil_r]. }
    apply Hshift.
Qed.

(** ** The fallback of part_000's FlowchartApp *)

Lemma splitBy_segments (sep : N -> bool) (s : jsstring) :
  Forall (Forall (fun c => sep c = false)) (splitBy sep s).
Proof.
  induction s as [|c s IH]; cbn [splitBy]; [repeat constructor|].
  destruct (sep c) eqn:Hc; [constructor; [constructor|exact IH]|].
  destruct (splitBy sep s) as [|seg segs]; [repeat constructor; exact Hc|].
  inversion IH as [|? ? Hseg Hsegs]; subst.
  constructor; [constructor; assumption|assumption].
Qed.

Lemma trim_keeps (P : N -> Prop) (s : jsstring) :
  Forall P s -> Forall P (trim s).
Proof.
  intros H. destruct (trim_decompose s) as (l & r & Hs & _).
  rewrite Hs in H. apply Forall_app in H as [_ H].
  now apply Forall_app in H as [H _].
Qed.

(** X24. When the model call fails in part_000's FlowchartApp on an
    input of at least 5 characters once trimmed, the input is cut at
    newlines, carriage returns, periods, semicolons and dashes, and the
    pieces that, trimmed, have more than 3 characters are the steps of a
    vertical diagram, shown with the note on basic processing; a piece
    holds none of the five separators and no white space at its ends.
    With no such piece the whole trimmed input is the single step and the
    message says that the input could not be processed. *)
Theorem fallback_cuts_the_input_into_pieces (st : State) :
  let pieces :=
    List.filter (fun line => (3 <? length line)%nat)
      (map trim (splitBy Editable.isFallbackSeparator (input st))) in
  let after := finish None (Editable.generateFlowchart st) in
  (5 <= length (trim (input st)))%nat ->
  Forall (fun piece =>
            (3 < length piece)%nat /\ tidy piece /\
            Forall (fun c => Editable.isFallbackSeparator c = false) piece)
    pieces /\
  nodes after
  = imap (nodeAt 180 70 80 false)
      (processSteps (match pieces with
                     | [] => [trim (input st)]
                     | _ :: _ => pieces
                     end)) /\
  error after = match pieces with
                | [] => Editable.unableToProcess
                | _ :: _ => Editable.noteOllama
                end /\
  loading after = false.
Proof.
  cbn zeta. intros Hlong.
  assert (Hin : truthy (trim (input st)) = true)
    by (destruct (trim (input st)); [cbn in Hlong; lia|reflexivity]).
  apply Nat.ltb_ge in Hlong. split.
  - apply Forall_forall. intros piece [(raw & <- & Hraw)%in_map_iff Hlen]%filter_In.
    apply Nat.ltb_lt in Hlen. unfold tidy. split_and!; [exact Hlen| | |].
    + destruct (trim raw); [cbn in Hlen; lia|discriminate].
    + apply trim_idempotent.
    + apply trim_keeps.
      pose proof (splitBy_segments Editable.isFallbackSeparator (input st)) as H.
      rewrite Forall_forall in H. now apply H.
  - unfold Editable.generateFlowchart. rewrite Hin. cbn [negb]. cbn zeta.
    change (input (setError [] (setLoading true st))) with (input st).
    rewrite Hlong. cbn [finish]. unfold Editable.fallback.
    change (input (setError [] (setLoading true st))) with (input st).
    destruct (List.filter _ _) as [|piece pieces];
      cbn [length Nat.ltb Nat.leb]; rewrite editable_generate;
      cbn [nodes error loading setError setLoading]; split_and!; reflexivity.
Qed.

Lemma fallback_cuts_the_input_into_pieces_witness :
  let st := setInput (str "boil water; pour it - ok. drink") initial in
  map label (nodes (finish None (Editable.generateFlowchart st)))
  = [str "boil water"; str "pour it"; str "drink"].
Proof.
  cbn zeta.
  pose proof (fallback_cuts_the_input_into_pieces
                (setInput (str "boil water; pour it - ok. drink") initial))
    as H.
  cbn zeta in H. destruct H as (_ & H & _).
  - vm_compute. lia.
  - rewrite H. reflexivity.
Defined.

(** ** Conditions in the fallback of src/src/App.tsx *)

Lemma conditionalBody_entries (lines : list jsstring) (acc : list Branch)
    (current : jsstring) (i : nat) :
  current ∈ lines -> Forall (conditional lines) acc ->
  Forall (conditional lines) (Simple.conditionalBody lines acc current i).
Proof.
  intros Hcur Hacc. unfold Simple.conditionalBody. cbn zeta.
  assert (Hgrow : forall b, conditional lines b ->
                            Forall (conditional lines) (acc ++ [b])).
  { intros b Hb. apply Forall_app. split; [exact Hacc|now constructor]. }
  assert (Hline : forall j l, lines !! j = Some l -> l ∈ lines)
    by (intros j l Hl; eapply list_elem_of_lookup_2; eassumption).
  destruct (includes (str "if") (toLowerCase current)) eqn:Hif.
  - destruct (lines !! (i + 1)%nat) as [thenText|] eqn:Hnext.
    + apply Hgrow. unfold conditional. cbn [text right below].
      split_and!; [exact Hcur| | |left; exact Hif].
      * intros r. destruct (Simple.lowerIncludes (str "then") thenText) eqn:Hthen;
          [|discriminate].
        intros [= <-]. split; [now apply (Hline (i + 1)%nat)|exact Hthen].
      * intros d. destruct (Simple.lowerIncludes (str "else") thenText) eqn:Helse.
        -- intros [= <-]. split; [now apply (Hline (i + 1)%nat)|exact Helse].
        -- destruct (lines !! (i + 2)%nat) as [l2|] eqn:Hl2; [|discriminate].
           destruct (Simple.lowerIncludes (str "else") l2) eqn:Helse2;
             [|discriminate].
           intros [= <-]. split; [now apply (Hline (i + 2)%nat)|exact Helse2].
    + apply Hgrow. unfold conditional. cbn [text right below].
      split_and!; [exact Hcur|discriminate|discriminate|left; exact Hif].
  - match goal with
    | |- Forall _ (if ?b then _ else _) => destruct b; [|exact Hacc]
    end.
    apply Hgrow. unfold conditional. cbn [text right below].
    split_and!; [exact Hcur|discriminate|discriminate|right; now split].
Qed.

Lemma conditional_entries (lines part : list jsstring) :
  (forall line, line ∈ part -> line ∈ lines) ->
  Forall (conditional lines)
    (forEach (Simple.conditionalBody lines) part []).
Proof.
  induction part as [|line part IH] using rev_ind; intros Hpart.
  - constructor.
  - rewrite forEach_snoc. apply conditionalBody_entries.
    + apply Hpart, elem_of_app. right. now apply list_elem_of_singleton.
    + apply IH. intros l Hl. apply Hpart, elem_of_app. now left.
Qed.

(** X25. When the model call fails in src/src/App.tsx on an input that
    speaks of "if" and of "then" or "else", the lines of the input that
    are not empty, trimmed, are read as conditions: an entry for each
    line with "if", the next line to its right if that has "then", below
    it the next line, or the one after, that has "else"; and an entry for
    every other line that has neither word and does not follow a line
    with "if".  If there is an entry, the diagram is that of these
    entries, and no note is shown. *)
Theorem conditions_are_read_from_the_lines (st : State) :
  let lines := map trim (List.filter truthy (JS.split 0xA (input st))) in
  let structure := forEach (Simple.conditionalBody lines) lines [] in
  let after := finish None (Simple.generateFlowchart st) in
  (5 <= length (trim (input st)))%nat ->
  Simple.lowerIncludes (str "if") (input st) = true ->
  Simple.lowerIncludes (str "then") (input st)
  || Simple.lowerIncludes (str "else") (input st) = true ->
  Forall (conditional lines) structure /\
  (structure <> [] ->
   nodes after = concat (imap branchNodes structure) /\
   edges after = concat (imap branchEdges structure) /\
   error after = [] /\ loading after = false /\
   Forall (fun node => label node ∈ lines) (nodes after)).
Proof.
  cbn zeta. intros Hlong Hif Hthen.
  pose proof (conditional_entries
                (map trim (List.filter truthy (JS.split 0xA (input st))))
                _ (fun line H => H)) as Hentries.
  split; [exact Hentries|]. intros Hsome.
  assert (Hin : truthy (trim (input st)) = true)
    by (destruct (trim (input st)); [cbn in Hlong; lia|reflexivity]).
  apply Nat.ltb_ge in Hlong.
  unfold Simple.generateFlowchart. rewrite Hin. cbn [negb]. cbn zeta.
  change (input (setError [] (setLoading true st))) with (input st).
  rewrite Hlong. cbn [finish]. unfold Simple.fallback. cbn zeta.
  change (input (setError [] (setLoading true st))) with (input st).
  rewrite Hif, Hthen. cbn [andb].
  set (lines := map trim (List.filter truthy (JS.split 0xA (input st)))) in *.
  set (structure := forEach (Simple.conditionalBody lines) lines []) in *.
  assert (Hcount : (0 <? length structure)%nat = true)
    by (destruct structure; [congruence|reflexivity]).
  assert (Hlabels : Forall (fun node => label node ∈ lines)
                      (concat (imap branchNodes structure))).
  { apply Forall_concat. apply Forall_lookup. intros i ns Hns.
    apply list_lookup_imap_Some in Hns as (b & Hb & ->).
    assert (Hcond : conditional lines b).
    { rewrite Forall_forall in Hentries. apply Hentries.
      apply list_elem_of_In. eapply list_elem_of_lookup_2; eassumption. }
    destruct Hcond as (Htext & Hright & Hbelow & _).
    unfold branchNodes. apply Forall_app. split; [repeat constructor; exact Htext|].
    apply Forall_app. split.
    - unfold present. destruct (right b) as [r|]; [|constructor].
      destruct (truthy r); [|constructor].
      repeat constructor. now apply Hright.
    - unfold present. destruct (below b) as [d|]; [|constructor].
      destruct (truthy d); [|constructor].
      repeat constructor. now apply Hbelow. }
  repeat match goal with
         | |- context [let '(_, _) := ?e in _] => destruct e
         end.
  rewrite Hcount. cbn [andb]. rewrite complex_generate.
  cbn [nodes edges error loading setLoading].
  split_and!; try reflexivity. exact Hlabels.
Qed.

Lemma conditions_are_read_from_the_lines_witness :
  let st := setInput (str "check stock" ++ [0xA] ++ str "if empty"
                      ++ [0xA] ++ str "then order" ++ [0xA]
                      ++ str "else ship") initial in
  map label (nodes (finish None (Simple.generateFlowchart st)))
  = [str "check stock"; str "if empty"; str "then order"; str "else ship"].
Proof.
  cbn zeta.
  pose proof (conditions_are_read_from_the_lines
                (setInput (str "check stock" ++ [0xA] ++ str "if empty"
                           ++ [0xA] ++ str "then order" ++ [0xA]
                           ++ str "else ship") initial)) as H.
  cbn zeta in H. destruct H as (_ & H).
  - vm_compute. lia.
  - reflexivity.
  - reflexivity.
  - destruct H as (H & _); [vm_compute; discriminate|].
    rewrite H. reflexivity.
Defined.

(** ** The picture of a structure *)

Lemma mains_built (structure : list Branch) :
  forEach SvgComplex.mainBody structure [] = imap mainCell structure.
Proof.
  induction structure as [|b l IH] using rev_ind; [reflexivity|].
  rewrite forEach_snoc, IH, imap_app. cbn [imap].
  unfold SvgComplex.mainBody, mainCell. now rewrite Nat.add_0_r.
Qed.

Lemma rights_idle (l : list Branch) (row : list SvgComplex.Cell) :
  (length l < length row)%nat -> forEach SvgComplex.rightBody l row = row.
Proof.
  induction l as [|b l IH] using rev_ind; intros Hlen; [reflexivity|].
  rewrite length_app in Hlen. cbn [length] in Hlen.
  rewrite forEach_snoc, IH by lia. unfold SvgComplex.rightBody.
  destruct (present (right b)); [|reflexivity].
  destruct (lookup_lt_is_Some_2 row (length l + 1)) as [cell ->];
    [lia|reflexivity].
Qed.

Lemma rights_built (structure : list Branch) (row : list SvgComplex.Cell) :
  length row = length structure ->
  forEach SvgComplex.rightBody structure row = row ++ lastRight structure.
Proof.
  intros Hlen. unfold lastRight.
  destruct structure as [|b l] using rev_ind;
    [cbn; now rewrite app_nil_r|clear IHl].
  rewrite length_app in *. cbn [length] in *.
  rewrite last_snoc, forEach_snoc, rights_idle by lia.
  unfold SvgComplex.rightBody.
  replace (length l + 1 - 1)%nat with (length l) by lia.
  destruct (present (right b)); [|now rewrite app_nil_r].
  rewrite lookup_ge_None_2 by lia. reflexivity.
Qed.

(** The second row holds, up to its last cell, the cells below the
    entries, each in the column of its entry. *)
Lemma belows_built (structure : list Branch) :
  match forEach SvgComplex.belowBody structure None with
  | None => Forall (fun node => node = None) (imap belowCell structure)
  | Some row =>
      exists k, (k <= length structure)%nat /\
                row = take k (imap belowCell structure) /\
                Forall (fun node => node = None)
                  (drop k (imap belowCell structure))
  end.
Proof.
  induction structure as [|b l IH] using rev_ind; [constructor|].
  rewrite forEach_snoc, imap_app. cbn [imap]. rewrite Nat.add_0_r.
  unfold SvgComplex.belowBody at 1.
  assert (Hfull : length (imap belowCell l) = length l) by apply length_imap.
  assert (Hcell : belowCell (length l) b
                  = (fun d => SvgComplex.cellOf d (SvgComplex.belowId (length l)))
                    <$> present (below b)) by reflexivity.
  rewrite Hcell. clear Hcell.
  destruct (present (below b)) as [d|]; cbn [fmap option_fmap option_map].
  - exists (S (length l)). rewrite length_app. cbn [length].
    split; [lia|].
    rewrite take_ge, drop_ge by (rewrite length_app, Hfull; cbn [length]; lia).
    split; [|constructor].
    assert (Hrow : forall row k,
               row = take k (imap belowCell l) -> (k <= length l)%nat ->
               Forall (fun node => node = None) (drop k (imap belowCell l)) ->
               SvgComplex.assign (length l)
                 (SvgComplex.cellOf d (SvgComplex.belowId (length l))) row
               = imap belowCell l
                 ++ [Some (SvgComplex.cellOf d (SvgComplex.belowId (length l)))]).
    { intros row k -> Hk Hnone. unfold SvgComplex.assign.
      rewrite length_take, Hfull.
      replace (k `min` length l)%nat with k by lia.
      destruct (Nat.ltb_spec (length l) k); [lia|].
      rewrite app_assoc. f_equal.
      rewrite <- (take_drop k (imap belowCell l)) at 2. f_equal.
      assert (Hlen : length (drop k (imap belowCell l)) = (length l - k)%nat)
        by (rewrite length_drop; lia).
      revert Hnone Hlen. generalize (drop k (imap belowCell l)).
      generalize (length l - k)%nat. clear.
      intros n rest Hnone. revert n.
      induction Hnone as [|x rest -> _ IH]; intros [|n] Hn;
        try discriminate; [reflexivity|].
      cbn [replicate]. f_equal. apply IH. now injection Hn. }
    destruct (forEach SvgComplex.belowBody l None) as [row|].
    + destruct IH as (k & Hk & Hrow' & Hnone). now apply (Hrow row k).
    + apply (Hrow [] 0%nat); [reflexivity|lia|now rewrite drop_0].
  - destruct (forEach SvgComplex.belowBody l None) as [row|].
    + destruct IH as (k & Hk & -> & Hnone). exists k.
      rewrite length_app. cbn [length]. split; [lia|]. split.
      * rewrite take_app_le by lia. reflexivity.
      * rewrite drop_app_le by lia. apply Forall_app. split; [exact Hnone|].
        now repeat constructor.
    + apply Forall_app. split; [exact IH|now repeat constructor].
Qed.

Lemma cellsOf_snoc (row : list (option SvgComplex.Cell))
    (node : option SvgComplex.Cell) :
  cellsOf (row ++ [node])
  = cellsOf row ++ match node with
                   | Some cell => [(length row, cell)]
                   | None => []
                   end.
Proof.
  unfold cellsOf. rewrite imap_app, omap_app. cbn [imap omap fst snd].
  rewrite Nat.add_0_r. now destruct node.
Qed.

Lemma cellsOf_full (cells : list SvgComplex.Cell) :
  cellsOf (map Some cells) = imap (fun c cell => (c, cell)) cells.
Proof.
  induction cells as [|cell cells IH] using rev_ind; [reflexivity|].
  rewrite map_app, imap_app. cbn [map imap].
  rewrite cellsOf_snoc, IH, length_map, Nat.add_0_r. reflexivity.
Qed.

Lemma cellsOf_holes (row rest : list (option SvgComplex.Cell)) :
  Forall (fun node => node = None) rest -> cellsOf (row ++ rest) = cellsOf row.
Proof.
  induction rest as [|node rest IH] using rev_ind; intros Hnone.
  - now rewrite app_nil_r.
  - apply Forall_app in Hnone as [Hrest Hnode].
    inversion Hnode as [|? ? -> _]; subst.
    rewrite app_assoc, cellsOf_snoc, app_nil_r. now apply IH.
Qed.

Lemma along_start (extents : list Z) : SvgComplex.along extents 0 = SvgComplex.gap.
Proof. reflexivity. Qed.

Lemma row_drawn (colWidths rowHeights : list Z) (r : nat)
    (row : list (option SvgComplex.Cell)) (pen : SvgComplex.Pen) :
  SvgComplex.rowBody colWidths rowHeights pen row r
  = {| SvgComplex.nodePositions :=
         rev (map (placedOf colWidths rowHeights r) (cellsOf row))
         ++ SvgComplex.nodePositions pen;
       SvgComplex.drawnNodes :=
         SvgComplex.drawnNodes pen
         ++ map (boxOf colWidths rowHeights r) (cellsOf row) |}.
Proof.
  unfold SvgComplex.rowBody.
  induction row as [|node row IH] using rev_ind.
  - cbn. rewrite app_nil_r. now destruct pen.
  - rewrite forEach_snoc, IH, cellsOf_snoc. unfold SvgComplex.placeBody.
    destruct node as [cell|]; [|now rewrite !app_nil_r].
    cbn [SvgComplex.nodePositions SvgComplex.drawnNodes].
    rewrite !map_app, rev_app_distr, <- !app_assoc. cbn [map rev app].
    assert (Hx : (if (0 <? length row)%nat
                  then SvgComplex.along colWidths (length row)
                  else SvgComplex.gap)
                 = SvgComplex.along colWidths (length row)).
    { destruct (length row); reflexivity. }
    rewrite Hx. reflexivity.
Qed.

Lemma grid_drawn (colWidths rowHeights : list Z)
    (grid : list (list (option SvgComplex.Cell))) :
  forEach (SvgComplex.rowBody colWidths rowHeights) grid
    {| SvgComplex.nodePositions := []; SvgComplex.drawnNodes := [] |}
  = {| SvgComplex.nodePositions :=
         rev (concat (imap (fun r row =>
                              map (placedOf colWidths rowHeights r)
                                (cellsOf row)) grid));
       SvgComplex.drawnNodes :=
         concat (imap (fun r row =>
                         map (boxOf colWidths rowHeights r) (cellsOf row))
                   grid) |}.
Proof.
  induction grid as [|row grid IH] using rev_ind; [reflexivity|].
  rewrite forEach_snoc, IH, row_drawn, !imap_app, !concat_app.
  cbn [imap concat SvgComplex.nodePositions SvgComplex.drawnNodes].
  now rewrite !app_nil_r, Nat.add_0_r, rev_app_distr.
Qed.

(** The grid: the main nodes and the node to the right of the last entry
    in the first row; in the second row, if there is one, the nodes
    below, each in the column of its entry. *)
Lemma grid_cells (structure : list Branch) :
  exists second,
    map cellsOf (SvgComplex.gridOf structure)
    = imap (fun c cell => (c, cell))
        (imap mainCell structure ++ lastRight structure)
      :: second /\
    concat second = cellsOf (imap belowCell structure) /\
    (length second <= 1)%nat.
Proof.
  unfold SvgComplex.gridOf. cbn zeta.
  rewrite mains_built, rights_built by apply length_imap.
  pose proof (belows_built structure) as Hbelow.
  destruct (forEach SvgComplex.belowBody structure None) as [row|].
  - destruct Hbelow as (k & Hk & -> & Hnone).
    exists [cellsOf (take k (imap belowCell structure))].
    cbn [map concat length]. rewrite cellsOf_full, app_nil_r.
    split_and!; [reflexivity| |lia].
    rewrite <- (take_drop k (imap belowCell structure)) at 2.
    now rewrite cellsOf_holes.
  - exists []. cbn [map concat length]. rewrite cellsOf_full.
    split_and!; [reflexivity| |lia].
    rewrite <- (app_nil_l (imap belowCell structure)).
    now rewrite cellsOf_holes.
Qed.

Lemma drawn_texts (colWidths rowHeights : list Z)
    (grid : list (list (option SvgComplex.Cell))) :
  map Svg.rect_text
    (concat (imap (fun r row => map (boxOf colWidths rowHeights r) (cellsOf row))
               grid))
  = map (fun entry => SvgComplex.cell_text (snd entry))
      (concat (map cellsOf grid)).
Proof.
  induction grid as [|row grid IH] using rev_ind; [reflexivity|].
  rewrite imap_app, map_app, !concat_app, !map_app, IH.
  cbn [imap map concat]. rewrite !app_nil_r, map_map. reflexivity.
Qed.

Lemma below_texts (structure : list Branch) :
  map (fun entry => SvgComplex.cell_text (snd entry))
    (cellsOf (imap belowCell structure))
  = omap (fun node => present (below node)) structure.
Proof.
  induction structure as [|b l IH] using rev_ind; [reflexivity|].
  rewrite imap_app, omap_app. cbn [imap omap].
  rewrite cellsOf_snoc, map_app, IH. unfold belowCell.
  cbn [omap list_omap]. now destruct (present (below b)).
Qed.

Lemma column_texts (cells : list SvgComplex.Cell) :
  map (fun entry : nat * SvgComplex.Cell => SvgComplex.cell_text (snd entry))
    (imap (fun c cell => (c, cell)) cells)
  = map SvgComplex.cell_text cells.
Proof.
  induction cells as [|cell cells IH] using rev_ind; [reflexivity|].
  rewrite imap_app, !map_app, IH. reflexivity.
Qed.

Lemma main_texts (structure : list Branch) :
  map SvgComplex.cell_text (imap mainCell structure) = map text structure.
Proof.
  induction structure as [|b l IH] using rev_ind; [reflexivity|].
  rewrite imap_app, !map_app, IH. reflexivity.
Qed.

(** X26. The picture of a structure has one box for the text of every
    entry, in the first row and in the order of the entries; after them a
    box for the node to the right of the last entry, if it has one; and in
    a second row a box for every node below.  The node to the right of an
    entry that is not the last has no box of its own. *)
Theorem complex_picture_boxes (structure : list Branch) :
  let picture := SvgComplex.generateSvgFlowchartComplex structure in
  map Svg.rect_text (Svg.svgNodes picture)
  = map text structure
    ++ map SvgComplex.cell_text (lastRight structure)
    ++ omap (fun node => present (below node)) structure /\
  (length (lastRight structure) <= 1)%nat /\
  (forall node r,
     list.last structure = Some node -> present (right node) = Some r ->
     map SvgComplex.cell_text (lastRight structure) = [r]) /\
  (forall node,
     list.last structure = Some node -> present (right node) = None ->
     lastRight structure = []).
Proof.
  cbn zeta. unfold SvgComplex.generateSvgFlowchartComplex. cbn zeta.
  rewrite grid_drawn. cbn [Svg.svgNodes SvgComplex.drawnNodes].
  rewrite drawn_texts.
  destruct (grid_cells structure) as (second & -> & Hsecond & _).
  cbn [concat]. rewrite map_app, Hsecond, below_texts, column_texts, map_app,
    main_texts, <- app_assoc.
  split_and!; [reflexivity| | |].
  - unfold lastRight. destruct (list.last structure) as [node|]; [|cbn; lia].
    destruct (present (right node)); cbn; lia.
  - intros node r Hlast Hright. unfold lastRight. now rewrite Hlast, Hright.
  - intros node Hlast Hright. unfold lastRight. now rewrite Hlast, Hright.
Qed.

(** ** The widths of the columns and the heights of the rows *)

Lemma raised_refl (l : list Z) : raised l l.
Proof. split; [reflexivity|]. intros j w H. exists w. split; [exact H|lia]. Qed.

Lemma raised_trans (a b c : list Z) : raised a b -> raised b c -> raised a c.
Proof.
  intros [Hlen1 H1] [Hlen2 H2]. split; [congruence|].
  intros j w Hj. destruct (H1 j w Hj) as (w1 & Hw1 & Hle1).
  destruct (H2 j w1 Hw1) as (w2 & Hw2 & Hle2). exists w2. split; [exact Hw2|lia].
Qed.

Lemma raised_insert (l : list Z) (i : nat) (w v : Z) :
  l !! i = Some w -> (w <= v)%Z -> raised l (<[i := v]> l).
Proof.
  intros Hi Hle. split; [apply length_insert|].
  intros j u Hj. destruct (decide (j = i)) as [->|Hne].
  - exists v. rewrite list_lookup_insert_eq by (eapply lookup_lt_Some; eassumption).
    split; [reflexivity|]. congruence.
  - exists u. rewrite list_lookup_insert_ne by congruence. split; [exact Hj|lia].
Qed.

Lemma raised_covers (extent : SvgComplex.Cell -> Z) (l l' : list Z)
    (index : nat -> nat) (row : list (option SvgComplex.Cell)) :
  raised l l' -> covers extent l index row -> covers extent l' index row.
Proof.
  intros [_ Hup] Hcov c cell Hc. destruct (Hcov c cell Hc) as (w & Hw & Hle).
  destruct (Hup _ _ Hw) as (w' & Hw' & Hle'). exists w'. split; [exact Hw'|lia].
Qed.

(** One step of either loop: the entry [i] is raised to the extent of
    the cell. *)
Lemma step_raises (extent : SvgComplex.Cell -> Z) (l : list Z) (i : nat)
    (cell : SvgComplex.Cell) :
  let l' := match l !! i with
            | Some w => if (w <? extent cell)%Z then <[i := extent cell]> l
                        else l
            | None => l
            end in
  raised l l' /\
  ((i < length l)%nat -> exists w, l' !! i = Some w /\ (extent cell <= w)%Z).
Proof.
  cbn zeta. destruct (l !! i) as [w|] eqn:Hi.
  - destruct (Z.ltb_spec w (extent cell)) as [Hlt|Hge].
    + split; [apply (raised_insert l i w); [exact Hi|lia]|].
      intros Hlen. exists (extent cell).
      rewrite list_lookup_insert_eq by exact Hlen. split; [reflexivity|lia].
    + split; [apply raised_refl|]. intros _. exists w. split; [exact Hi|exact Hge].
  - split; [apply raised_refl|]. intros Hlen.
    apply lookup_ge_None in Hi. lia.
Qed.

Lemma widen_row (row : list (option SvgComplex.Cell)) (colWidths : list Z) :
  (length row <= length colWidths)%nat ->
  raised colWidths (forEach SvgComplex.widen row colWidths) /\
  covers SvgComplex.cell_width (forEach SvgComplex.widen row colWidths)
    (fun c => c) row.
Proof.
  induction row as [|node row IH] using rev_ind; intros Hlen.
  - split; [apply raised_refl|]. intros c cell Hc. inversion Hc.
  - rewrite length_app in Hlen. cbn [length] in Hlen.
    destruct IH as [Hup Hcov]; [lia|]. rewrite forEach_snoc.
    set (before := forEach SvgComplex.widen row colWidths) in *.
    assert (Hbefore : length before = length colWidths) by apply Hup.
    destruct node as [cell|].
    + destruct (step_raises SvgComplex.cell_width before (length row) cell)
        as [Hstep Hcell].
      change (SvgComplex.widen before (Some cell) (length row))
        with (match before !! length row with
              | Some w => if (w <? SvgComplex.cell_width cell)%Z
                          then <[length row := SvgComplex.cell_width cell]> before
                          else before
              | None => before
              end).
      split; [eapply raised_trans; eassumption|].
      intros c cell' Hc. apply lookup_app_Some in Hc as [Hc|[Hge Hc]].
      * exact (raised_covers SvgComplex.cell_width before _ (fun c => c) row
                 Hstep Hcov c cell' Hc).
      * destruct (c - length row)%nat eqn:Hdiff; [|destruct n; discriminate].
        injection Hc as <-. replace c with (length row) by lia.
        apply Hcell. lia.
    + change (SvgComplex.widen before None (length row)) with before.
      split; [exact Hup|]. intros c cell Hc.
      apply lookup_app_Some in Hc as [Hc|[Hge Hc]]; [exact (Hcov c cell Hc)|].
      destruct (c - length row)%nat as [|n]; [discriminate|destruct n; discriminate].
Qed.

Lemma heighten_row (r : nat) (row : list (option SvgComplex.Cell))
    (rowHeights : list Z) :
  (r < length rowHeights)%nat ->
  raised rowHeights (forEach (SvgComplex.heighten r) row rowHeights) /\
  covers SvgComplex.cell_height
    (forEach (SvgComplex.heighten r) row rowHeights) (fun _ => r) row.
Proof.
  intros Hr. induction row as [|node row [Hup Hcov]] using rev_ind.
  - split; [apply raised_refl|]. intros c cell Hc. inversion Hc.
  - rewrite forEach_snoc.
    set (before := forEach (SvgComplex.heighten r) row rowHeights) in *.
    assert (Hbefore : length before = length rowHeights) by apply Hup.
    destruct node as [cell|].
    + destruct (step_raises SvgComplex.cell_height before r cell)
        as [Hstep Hcell].
      change (SvgComplex.heighten r before (Some cell) (length row))
        with (match before !! r with
              | Some w => if (w <? SvgComplex.cell_height cell)%Z
                          then <[r := SvgComplex.cell_height cell]> before
                          else before
              | None => before
              end).
      split; [eapply raised_trans; eassumption|].
      intros c cell' Hc. apply lookup_app_Some in Hc as [Hc|[Hge Hc]].
      * exact (raised_covers SvgComplex.cell_height before _ (fun _ => r) row
                 Hstep Hcov c cell' Hc).
      * destruct (c - length row)%nat eqn:Hdiff; [|destruct n; discriminate].
        injection Hc as <-. apply Hcell. lia.
    + change (SvgComplex.heighten r before None (length row)) with before.
      split; [exact Hup|]. intros c cell Hc.
      apply lookup_app_Some in Hc as [Hc|[Hge Hc]]; [exact (Hcov c cell Hc)|].
      destruct (c - length row)%nat as [|n]; [discriminate|destruct n; discriminate].
Qed.

Lemma colWidths_cover (grid : list (list (option SvgComplex.Cell)))
    (start : list Z) :
  Forall (fun row => (length row <= length start)%nat) grid ->
  let colWidths :=
    forEach (fun colWidths row (_ : nat) => forEach SvgComplex.widen row colWidths)
      grid start in
  raised start colWidths /\
  Forall (covers SvgComplex.cell_width colWidths (fun c => c)) grid.
Proof.
  cbn zeta. induction grid as [|row grid IH] using rev_ind; intros Hlen.
  - split; [apply raised_refl|constructor].
  - apply Forall_app in Hlen as [Hgrid Hrow].
    inversion Hrow as [|? ? Hrow' _]; subst.
    destruct (IH Hgrid) as [Hup Hcov]. rewrite forEach_snoc.
    set (before := forEach _ grid start) in *.
    destruct (widen_row row before) as [Hstep Hcell];
      [destruct Hup as [-> _]; exact Hrow'|].
    split; [eapply raised_trans; eassumption|].
    apply Forall_app. split; [|now repeat constructor].
    eapply Forall_impl; [|exact Hcov]. intros row0 H0.
    exact (raised_covers SvgComplex.cell_width before _ (fun c => c) row0
             Hstep H0).
Qed.

Lemma rowHeights_cover (grid : list (list (option SvgComplex.Cell)))
    (start : list Z) :
  (length grid <= length start)%nat ->
  let rowHeights :=
    forEach (fun rowHeights row rowIndex =>
               forEach (SvgComplex.heighten rowIndex) row rowHeights)
      grid start in
  raised start rowHeights /\
  forall r row, grid !! r = Some row ->
    covers SvgComplex.cell_height rowHeights (fun _ => r) row.
Proof.
  cbn zeta. induction grid as [|row grid IH] using rev_ind; intros Hlen.
  - split; [apply raised_refl|]. intros r row Hr. inversion Hr.
  - rewrite length_app in Hlen. cbn [length] in Hlen.
    destruct IH as [Hup Hcov]; [lia|]. rewrite forEach_snoc.
    set (before := forEach _ grid start) in *.
    destruct (heighten_row (length grid) row before) as [Hstep Hcell];
      [destruct Hup as [-> _]; lia|].
    split; [eapply raised_trans; eassumption|].
    intros r row0 Hr. apply lookup_app_Some in Hr as [Hr|[Hge Hr]].
    + exact (raised_covers SvgComplex.cell_height before _ (fun _ => r) row0
               Hstep (Hcov r row0 Hr)).
    + destruct (r - length grid)%nat eqn:Hdiff; [|destruct n; discriminate].
      injection Hr as <-. replace r with (length grid) by lia. exact Hcell.
Qed.

Lemma along_sum (extents : list Z) (i : nat) :
  (i <= length extents)%nat ->
  SvgComplex.along extents i
  = (SvgComplex.gap + Svg.sum (take i extents)
     + Z.of_nat i * SvgComplex.gap)%Z.
Proof.
  unfold SvgComplex.along. induction i as [|i IH]; intros Hi; [reflexivity|].
  rewrite forLoop_snoc, IH by lia. cbn [Nat.add].
  assert (is_Some (extents !! i)) as [v Hv] by (apply lookup_lt_is_Some_2; lia).
  rewrite (take_S_r _ _ _ Hv), sum_app, sum_cons.
  rewrite (nth_lookup_Some _ _ _ _ Hv).
  change (Svg.sum []) with 0%Z. lia.
Qed.

Lemma sum_take_le (extents : list Z) (i : nat) (v : Z) :
  Forall (fun w => (0 <= w)%Z) extents -> extents !! i = Some v ->
  (Svg.sum (take i extents) + v <= Svg.sum extents)%Z.
Proof.
  intros Hpos Hi.
  assert (Hdrop : Forall (fun w => (0 <= w)%Z) (drop (S i) extents))
    by now apply Forall_drop.
  apply sum_nonneg in Hdrop.
  rewrite <- (take_drop_middle extents i v Hi) at 2.
  rewrite sum_app, sum_cons. lia.
Qed.

Lemma raised_from_zero (n : nat) (l : list Z) :
  raised (replicate n 0%Z) l ->
  length l = n /\ Forall (fun w => (0 <= w)%Z) l.
Proof.
  intros [Hlen Hup]. rewrite length_replicate in Hlen. split; [exact Hlen|].
  apply Forall_lookup. intros j w Hj.
  assert (Hlt : (j < n)%nat) by (apply lookup_lt_Some in Hj; lia).
  destruct (Hup j 0%Z) as (w' & Hw' & Hle);
    [now apply lookup_replicate_2|]. congruence.
Qed.

Lemma cellsOf_lookup (row : list (option SvgComplex.Cell)) (c : nat)
    (cell : SvgComplex.Cell) :
  (c, cell) ∈ cellsOf row -> row !! c = Some (Some cell).
Proof.
  induction row as [|node row IH] using rev_ind; intros H; [inversion H|].
  rewrite cellsOf_snoc in H. apply elem_of_app in H as [H|H].
  - rewrite lookup_app_l; [now apply IH|].
    apply IH in H. now apply lookup_lt_Some in H.
  - destruct node as [cell'|]; [|inversion H].
    apply list_elem_of_singleton in H. injection H as -> ->.
    now rewrite lookup_app_r, Nat.sub_diag by lia.
Qed.

Lemma grid_cells_sized (structure : list Branch) (r c : nat)
    (row : list (option SvgComplex.Cell)) (cell : SvgComplex.Cell) :
  SvgComplex.gridOf structure !! r = Some row ->
  row !! c = Some (Some cell) ->
  SvgComplex.cell_width cell = widthOf (SvgComplex.cell_text cell) /\
  SvgComplex.cell_height cell = heightOf (SvgComplex.cell_text cell).
Proof.
  unfold SvgComplex.gridOf. cbn zeta.
  rewrite mains_built, rights_built by apply length_imap.
  intros Hrow Hcell. destruct r as [|r].
  - injection Hrow as <-.
    change (map Some ?l) with (Some <$> l) in Hcell.
    rewrite list_lookup_fmap in Hcell.
    destruct ((imap mainCell structure ++ lastRight structure) !! c)
      as [cell'|] eqn:Hc; [|discriminate].
    injection Hcell as ->.
    apply lookup_app_Some in Hc as [Hc|[_ Hc]].
    + apply list_lookup_imap_Some in Hc as (b & _ & ->). split; reflexivity.
    + unfold lastRight in Hc. destruct (list.last structure) as [node|];
        [|now rewrite lookup_nil in Hc].
      destruct (present (right node)); [|now rewrite lookup_nil in Hc].
      apply list_elem_of_lookup_2, list_elem_of_singleton in Hc.
      subst cell. split; reflexivity.
  - pose proof (belows_built structure) as Hbelow.
    rewrite lookup_cons_ne_0 in Hrow by lia. cbn [Nat.pred] in Hrow.
    destruct (forEach SvgComplex.belowBody structure None) as [second|];
      [|now rewrite lookup_nil in Hrow].
    destruct r; [|now rewrite lookup_cons_ne_0, lookup_nil in Hrow by lia].
    injection Hrow as <-.
    destruct Hbelow as (k & _ & -> & _).
    apply lookup_take_Some in Hcell as [Hcell _].
    apply list_lookup_imap_Some in Hcell as (b & _ & Hcell).
    unfold belowCell in Hcell. destruct (present (below b)); [|discriminate].
    injection Hcell as Hcell. subst cell. split; reflexivity.
Qed.

(** The extents that the columns and rows of a grid are given. *)
Lemma grid_extents (grid : list (list (option SvgComplex.Cell))) :
  let colWidths := SvgComplex.colWidthsOf grid in
  let rowHeights := SvgComplex.rowHeightsOf grid in
  (length colWidths = SvgComplex.colsOf grid /\
   Forall (fun w => (0 <= w)%Z) colWidths /\
   forall r row, grid !! r = Some row ->
     covers SvgComplex.cell_width colWidths (fun c => c) row) /\
  (length rowHeights = length grid /\
   Forall (fun h => (0 <= h)%Z) rowHeights /\
   forall r row, grid !! r = Some row ->
     covers SvgComplex.cell_height rowHeights (fun _ => r) row).
Proof.
  cbn zeta.
  assert (Hrows : Forall (fun row => (length row
                                      <= length (replicate (SvgComplex.colsOf grid) 0%Z))%nat)
                    grid).
  { apply Forall_forall. intros row Hrow%list_elem_of_In.
    rewrite length_replicate. unfold SvgComplex.colsOf.
    assert (Hmax : (Z.of_nat (length row)
                    <= Svg.mathMax (map (fun row => Z.of_nat (length row)) grid))%Z).
    { apply mathMax_ge. apply list_elem_of_fmap. now exists row. }
    lia. }
  destruct (colWidths_cover grid _ Hrows) as [Hwup Hwcov].
  destruct (rowHeights_cover grid (replicate (length grid) 0%Z)) as [Hhup Hhcov];
    [now rewrite length_replicate|].
  fold (SvgComplex.colWidthsOf grid) in Hwup, Hwcov.
  fold (SvgComplex.rowHeightsOf grid) in Hhup, Hhcov.
  apply raised_from_zero in Hwup as [Hwlen Hwpos].
  apply raised_from_zero in Hhup as [Hhlen Hhpos].
  split_and!; try assumption.
  intros r row Hrow. rewrite Forall_forall in Hwcov.
  exact (Hwcov row (proj1 (list_elem_of_In _ _)
                      (list_elem_of_lookup_2 _ _ _ Hrow))).
Qed.

(** X27. Every box of the picture of a structure lies inside the view
    box with a margin of 70 on every side, and has the size that the
    sequential picture gives a step with the same text. *)
Theorem complex_boxes_fit_the_canvas (structure : list Branch) :
  let picture := SvgComplex.generateSvgFlowchartComplex structure in
  Forall
    (fun box =>
       (70 <= Svg.rect_x box)%Z /\
       (Svg.rect_x box + Svg.rect_width box <= Svg.totalWidth picture - 70)%Z /\
       (70 <= Svg.rect_y box)%Z /\
       (Svg.rect_y box + Svg.rect_height box
        <= Svg.totalHeight picture - 70)%Z /\
       Svg.rect_width box = widthOf (Svg.rect_text box) /\
       Svg.rect_height box = heightOf (Svg.rect_text box))
    (Svg.svgNodes picture).
Proof.
  cbn zeta. unfold SvgComplex.generateSvgFlowchartComplex. cbn zeta.
  rewrite grid_drawn.
  cbn [Svg.svgNodes Svg.totalWidth Svg.totalHeight SvgComplex.drawnNodes].
  set (grid := SvgComplex.gridOf structure).
  destruct (grid_extents grid)
    as [(Hwlen & Hwpos & Hwcov) (Hhlen & Hhpos & Hhcov)].
  apply Forall_concat. apply Forall_lookup. intros r boxes Hboxes.
  apply list_lookup_imap_Some in Hboxes as (row & Hrow & ->).
  apply Forall_forall. intros box (entry & <- & Hentry)%in_map_iff.
  destruct entry as [c cell]. apply list_elem_of_In, cellsOf_lookup in Hentry.
  destruct (grid_cells_sized structure r c row cell Hrow Hentry) as [Hw Hh].
  destruct (Hwcov r row Hrow c cell Hentry) as (w & Hcw & Hwle).
  destruct (Hhcov r row Hrow c cell Hentry) as (h & Hrh & Hhle).
  pose proof (lookup_lt_Some _ _ _ Hcw) as Hc.
  pose proof (lookup_lt_Some _ _ _ Hrh) as Hr.
  pose proof (sum_take_le _ _ _ Hwpos Hcw) as Hsw.
  pose proof (sum_take_le _ _ _ Hhpos Hrh) as Hsh.
  assert (Htw : (0 <= Svg.sum (take c (SvgComplex.colWidthsOf grid)))%Z)
    by now apply sum_nonneg, Forall_take.
  assert (Hth : (0 <= Svg.sum (take r (SvgComplex.rowHeightsOf grid)))%Z)
    by now apply sum_nonneg, Forall_take.
  unfold boxOf.
  cbn [Svg.rect_x Svg.rect_y Svg.rect_width Svg.rect_height Svg.rect_text
       fst snd].
  rewrite !along_sum by lia. unfold SvgComplex.gap.
  split_and!; try assumption; lia.
Qed.

(** ** The connectors of the picture of a structure *)

Lemma svgId_inj (i j : nat) (s t : jsstring) :
  boundary isDigit s -> boundary isDigit t ->
  str "node_" ++ num i ++ s = str "node_" ++ num j ++ t -> i = j /\ s = t.
Proof.
  intros Hs Ht H%app_inv_head.
  apply digits_then_rest in H as [H ->]; auto using num_digits.
  split; [now apply num_inj|reflexivity].
Qed.

Lemma get_only (id : jsstring) (p : SvgComplex.Placed)
    (l : list (jsstring * SvgComplex.Placed)) :
  (id, p) ∈ l -> (forall q, (id, q) ∈ l -> q = p) ->
  SvgComplex.get id l = Some p.
Proof.
  unfold SvgComplex.get.
  induction l as [|[k v] l IH]; intros Hin Honly; [inversion Hin|].
  cbn [List.find fst]. case_bool_decide as Hk.
  - subst k. cbn [fmap option_fmap option_map snd]. f_equal.
    apply Honly. now left.
  - apply IH.
    + apply elem_of_cons in Hin as [Hin|Hin]; [congruence|exact Hin].
    + intros q Hq. apply Honly. now right.
Qed.

Lemma get_out (id : jsstring) (l : list (jsstring * SvgComplex.Placed)) :
  (forall q, (id, q) ∉ l) -> SvgComplex.get id l = None.
Proof.
  unfold SvgComplex.get. induction l as [|[k v] l IH]; intros Hout;
    [reflexivity|].
  cbn [List.find fst]. case_bool_decide as Hk.
  - subst k. exfalso. apply (Hout v). now left.
  - apply IH. intros q Hq. apply (Hout q). now right.
Qed.

Lemma cellsOf_elem (row : list (option SvgComplex.Cell)) (c : nat)
    (cell : SvgComplex.Cell) :
  row !! c = Some (Some cell) -> (c, cell) ∈ cellsOf row.
Proof.
  induction row as [|node row IH] using rev_ind; intros H;
    [now rewrite lookup_nil in H|].
  rewrite cellsOf_snoc. apply elem_of_app.
  apply lookup_app_Some in H as [H|[Hge H]]; [left; now apply IH|right].
  destruct (c - length row)%nat eqn:Hdiff; [|destruct n; discriminate].
  injection H as ->. replace c with (length row) by lia.
  now apply list_elem_of_singleton.
Qed.

(** What is drawn for the grid of a structure: the first row, then the
    nodes below. *)
Lemma grid_mapped {B : Type} (f : nat -> nat * SvgComplex.Cell -> B)
    (structure : list Branch) :
  concat (imap (fun r row => map (f r) (cellsOf row))
            (SvgComplex.gridOf structure))
  = map (f 0%nat) (imap (fun c cell => (c, cell)) (firstRowOf structure))
    ++ map (f 1%nat) (cellsOf (imap belowCell structure)).
Proof.
  destruct (grid_cells structure) as (second & Hgrid & Hsecond & Hlen).
  transitivity (concat (imap (fun r cells => map (f r) cells)
                          (map cellsOf (SvgComplex.gridOf structure)))).
  { change (map cellsOf ?l) with (cellsOf <$> l). now rewrite imap_fmap. }
  rewrite Hgrid, <- Hsecond. cbn [imap concat]. unfold firstRowOf. f_equal.
  destruct second as [|cells [|? ?]]; cbn [length] in Hlen; [| |lia].
  - reflexivity.
  - cbn [imap concat compose]. now rewrite !app_nil_r.
Qed.

Lemma firstRow_main (structure : list Branch) (i : nat) (b : Branch) :
  structure !! i = Some b ->
  firstRowOf structure !! i = Some (mainCell i b).
Proof.
  intros Hb. unfold firstRowOf. apply lookup_app_l_Some.
  apply list_lookup_imap_Some. now exists b.
Qed.

Lemma firstRow_right (structure : list Branch) (i : nat) (b : Branch)
    (r : jsstring) :
  structure !! i = Some b -> present (right b) = Some r ->
  (length structure <= i + 1)%nat ->
  firstRowOf structure !! (i + 1)%nat
  = Some (SvgComplex.cellOf r (SvgComplex.rightId i)).
Proof.
  intros Hb Hr Hlast. pose proof (lookup_lt_Some _ _ _ Hb) as Hi.
  assert (Hlen : length structure = S i) by lia.
  unfold firstRowOf, lastRight.
  rewrite lookup_app_r by (rewrite length_imap; lia).
  rewrite length_imap, last_lookup, Hlen. cbn [Nat.pred].
  rewrite Hb, Hr. replace (i + 1 - S i)%nat with 0%nat by lia.
  now replace (S i - 1)%nat with i by lia.
Qed.

(** The identifiers of the cells of the grid. *)
Lemma firstRow_ids (structure : list Branch) (c : nat)
    (cell : SvgComplex.Cell) :
  firstRowOf structure !! c = Some cell ->
  (c < length structure /\ SvgComplex.cell_id cell = SvgComplex.mainId c)%nat \/
  (c = length structure /\ (0 < c)%nat /\
   SvgComplex.cell_id cell = SvgComplex.rightId (c - 1)).
Proof.
  unfold firstRowOf. intros [H|[Hge H]]%lookup_app_Some.
  - left. apply list_lookup_imap_Some in H as (b & Hb & ->).
    split; [now apply lookup_lt_Some in Hb|reflexivity].
  - right. rewrite length_imap in *. unfold lastRight in H.
    destruct (list.last structure) eqn:Hlast; [|now rewrite lookup_nil in H].
    rewrite last_lookup in Hlast. apply lookup_lt_Some in Hlast.
    destruct (present (right b)); [|now rewrite lookup_nil in H].
    destruct (c - length structure)%nat eqn:Hdiff;
      [|now rewrite lookup_cons_ne_0, lookup_nil in H by lia].
    injection H as <-. split_and!; [lia|lia|].
    cbn [SvgComplex.cellOf SvgComplex.cell_id]. f_equal. lia.
Qed.

Lemma below_ids (structure : list Branch) (c : nat) (cell : SvgComplex.Cell) :
  imap belowCell structure !! c = Some (Some cell) ->
  SvgComplex.cell_id cell = SvgComplex.belowId c.
Proof.
  intros (b & Hb & H)%list_lookup_imap_Some. unfold belowCell in H.
  destruct (present (below b)); [|discriminate].
  injection H as H. now subst cell.
Qed.

Ltac svgId_clash H :=
  apply svgId_inj in H as [? H];
  [try (vm_compute in H; discriminate H)
  |vm_compute; reflexivity|vm_compute; reflexivity].

Lemma firstRow_id_main (structure : list Branch) (c i : nat)
    (cell : SvgComplex.Cell) :
  firstRowOf structure !! c = Some cell ->
  SvgComplex.cell_id cell = SvgComplex.mainId i -> c = i.
Proof.
  intros [[_ Hid]|(_ & _ & Hid)]%firstRow_ids H; rewrite Hid in H;
    unfold SvgComplex.mainId, SvgComplex.rightId in H; svgId_clash H.
  assumption.
Qed.

Lemma firstRow_id_right (structure : list Branch) (c i : nat)
    (cell : SvgComplex.Cell) :
  firstRowOf structure !! c = Some cell ->
  SvgComplex.cell_id cell = SvgComplex.rightId i ->
  c = length structure /\ c = (i + 1)%nat.
Proof.
  intros [[_ Hid]|(Hc & Hpos & Hid)]%firstRow_ids H; rewrite Hid in H;
    unfold SvgComplex.mainId, SvgComplex.rightId in H; svgId_clash H.
  lia.
Qed.

Lemma firstRow_id_below (structure : list Branch) (c i : nat)
    (cell : SvgComplex.Cell) :
  firstRowOf structure !! c = Some cell ->
  SvgComplex.cell_id cell <> SvgComplex.belowId i.
Proof.
  intros [[_ Hid]|(_ & _ & Hid)]%firstRow_ids H; rewrite Hid in H;
    unfold SvgComplex.mainId, SvgComplex.rightId, SvgComplex.belowId in H;
    svgId_clash H.
Qed.

Lemma below_id_below (structure : list Branch) (c i : nat)
    (cell : SvgComplex.Cell) :
  imap belowCell structure !! c = Some (Some cell) ->
  SvgComplex.cell_id cell = SvgComplex.belowId i -> c = i.
Proof.
  intros Hid%below_ids H. rewrite Hid in H.
  unfold SvgComplex.belowId in H. svgId_clash H. assumption.
Qed.

Lemma below_id_other (structure : list Branch) (c i : nat)
    (cell : SvgComplex.Cell) :
  imap belowCell structure !! c = Some (Some cell) ->
  SvgComplex.cell_id cell <> SvgComplex.mainId i /\
  SvgComplex.cell_id cell <> SvgComplex.rightId i.
Proof.
  intros Hid%below_ids. rewrite Hid.
  split; intros H;
    unfold SvgComplex.mainId, SvgComplex.rightId, SvgComplex.belowId in H;
    svgId_clash H.
Qed.

(** The positions that are recorded for the grid of a structure. *)
Lemma positions_elem (colWidths rowHeights : list Z)
    (structure : list Branch) (binding : jsstring * SvgComplex.Placed) :
  binding ∈ rev (concat (imap (fun r row =>
                                  map (placedOf colWidths rowHeights r)
                                    (cellsOf row))
                           (SvgComplex.gridOf structure))) <->
  (exists c cell, firstRowOf structure !! c = Some cell /\
                  binding = placedOf colWidths rowHeights 0 (c, cell)) \/
  (exists c cell, imap belowCell structure !! c = Some (Some cell) /\
                  binding = placedOf colWidths rowHeights 1 (c, cell)).
Proof.
  rewrite grid_mapped, list_elem_of_In, <- in_rev, <- list_elem_of_In.
  rewrite elem_of_app.
  change (map ?f ?l) with (f <$> l). rewrite !list_elem_of_fmap.
  split.
  - intros [([c cell] & -> & H)|([c cell] & -> & H)]; [left|right];
      exists c, cell; (split; [|reflexivity]).
    + apply list_elem_of_lookup in H as [k H].
      apply list_lookup_imap_Some in H as (cell' & H & E).
      injection E as -> ->. exact H.
    + now apply cellsOf_lookup.
  - intros [(c & cell & H & ->)|(c & cell & H & ->)]; [left|right];
      exists (c, cell); (split; [reflexivity|]).
    + apply (list_elem_of_lookup_2 _ c). apply list_lookup_imap_Some.
      now exists cell.
    + now apply cellsOf_elem.
Qed.

Section Connectors.

Variables (colWidths rowHeights : list Z) (structure : list Branch).

Local Abbreviation positions :=
  (rev (concat (imap (fun r row =>
                        map (placedOf colWidths rowHeights r) (cellsOf row))
                  (SvgComplex.gridOf structure)))).

Lemma get_first (c : nat) (cell : SvgComplex.Cell) :
  firstRowOf structure !! c = Some cell ->
  SvgComplex.get (SvgComplex.cell_id cell) positions
  = Some (snd (placedOf colWidths rowHeights 0 (c, cell))).
Proof.
  intros Hcell. apply get_only.
  - apply positions_elem. left. now exists c, cell.
  - intros q [(c' & cell' & Hcell' & E)|(c' & cell' & Hcell' & E)]%positions_elem;
      injection E as Hid ->; cbn [snd] in Hid.
    + assert (c' = c) as ->.
      { destruct (firstRow_ids _ _ _ Hcell) as [[_ Hc]|(Hn & _ & Hc)];
          rewrite Hc in Hid.
        - symmetry in Hid. exact (firstRow_id_main _ _ _ _ Hcell' Hid).
        - symmetry in Hid.
          destruct (firstRow_id_right _ _ _ _ Hcell' Hid). congruence. }
      assert (cell' = cell) as -> by congruence. reflexivity.
    + exfalso. destruct (below_id_other _ c' c cell' Hcell') as [Hm _].
      destruct (below_id_other _ c' (c - 1) cell' Hcell') as [_ Hr].
      destruct (firstRow_ids _ _ _ Hcell) as [[_ Hc]|(_ & _ & Hc)]; congruence.
Qed.

Lemma get_second (c : nat) (cell : SvgComplex.Cell) :
  imap belowCell structure !! c = Some (Some cell) ->
  SvgComplex.get (SvgComplex.cell_id cell) positions
  = Some (snd (placedOf colWidths rowHeights 1 (c, cell))).
Proof.
  intros Hcell. apply get_only.
  - apply positions_elem. right. now exists c, cell.
  - intros q [(c' & cell' & Hcell' & E)|(c' & cell' & Hcell' & E)]%positions_elem;
      injection E as Hid ->; cbn [snd] in Hid.
    + exfalso. rewrite (below_ids _ _ _ Hcell) in Hid. symmetry in Hid.
      exact (firstRow_id_below _ _ _ _ Hcell' Hid).
    + assert (c' = c) as ->.
      { rewrite (below_ids _ _ _ Hcell) in Hid. symmetry in Hid.
        exact (below_id_below _ _ _ _ Hcell' Hid). }
      assert (cell' = cell) as -> by congruence. reflexivity.
Qed.

Lemma get_right_inner (i : nat) :
  (i + 1 < length structure)%nat ->
  SvgComplex.get (SvgComplex.rightId i) positions = None.
Proof.
  intros Hi. apply get_out.
  intros q [(c & cell & Hcell & E)|(c & cell & Hcell & E)]%positions_elem;
    injection E as Hid ->; cbn [snd] in Hid; symmetry in Hid.
  - destruct (firstRow_id_right _ _ _ _ Hcell Hid). lia.
  - now destruct (below_id_other _ c i cell Hcell).
Qed.

(** One entry adds its connectors. *)
Lemma connect_entry (svgConnectors : list Svg.Line) (i : nat) (b : Branch) :
  structure !! i = Some b ->
  SvgComplex.connectBody positions svgConnectors b i
  = svgConnectors ++ connectorsOf colWidths rowHeights structure i b.
Proof.
  intros Hb. unfold SvgComplex.connectBody, connectorsOf. cbn zeta.
  change (SvgComplex.mainId i) with (SvgComplex.cell_id (mainCell i b)).
  rewrite (get_first i _ (firstRow_main _ _ _ Hb)).
  assert (Hright :
    match present (right b) with
    | Some _ =>
        exists target,
          firstRowOf structure !! (i + 1)%nat = Some target /\
          match SvgComplex.get (SvgComplex.rightId i) positions with
          | Some targetPos => Some targetPos
          | None => SvgComplex.get (SvgComplex.mainId (i + 1)) positions
          end = Some (snd (placedOf colWidths rowHeights 0
                             ((i + 1)%nat, target)))
    | None => True
    end).
  { destruct (present (right b)) as [r|] eqn:Hr; [|exact I].
    destruct (decide (i + 1 < length structure)%nat) as [Hi|Hi].
    - destruct (lookup_lt_is_Some_2 structure (i + 1)%nat Hi) as [b' Hb'].
      exists (mainCell (i + 1) b').
      split; [now apply firstRow_main|].
      rewrite (get_right_inner i Hi).
      change (SvgComplex.mainId (i + 1))
        with (SvgComplex.cell_id (mainCell (i + 1) b')).
      now apply get_first, firstRow_main.
    - exists (SvgComplex.cellOf r (SvgComplex.rightId i)).
      assert (Hcell := firstRow_right structure i b r Hb Hr ltac:(lia)).
      split; [exact Hcell|].
      change (SvgComplex.rightId i)
        with (SvgComplex.cell_id (SvgComplex.cellOf r (SvgComplex.rightId i)))
        at 1.
      now rewrite (get_first _ _ Hcell). }
  assert (Hbelow :
    match belowCell i b with
    | Some target =>
        present (below b) <> None /\
        SvgComplex.get (SvgComplex.belowId i) positions
        = Some (snd (placedOf colWidths rowHeights 1 (i, target)))
    | None => present (below b) = None
    end).
  { unfold belowCell. destruct (present (below b)) as [d|] eqn:Hd;
      [|reflexivity].
    cbn [fmap option_fmap option_map]. split; [discriminate|].
    change (SvgComplex.belowId i)
      with (SvgComplex.cell_id (SvgComplex.cellOf d (SvgComplex.belowId i)))
      at 1.
    apply get_second. apply list_lookup_imap_Some. exists b.
    split; [exact Hb|]. unfold belowCell. now rewrite Hd. }
  destruct (present (right b)) as [r|].
  - destruct Hright as (target & -> & ->).
    destruct (belowCell i b) as [cell|].
    + destruct Hbelow as [Hd ->].
      destruct (present (below b)); [|congruence].
      now rewrite <- app_assoc.
    + rewrite Hbelow. now rewrite app_nil_r.
  - destruct (belowCell i b) as [cell|].
    + destruct Hbelow as [Hd ->].
      destruct (present (below b)); [|congruence]. reflexivity.
    + rewrite Hbelow. now rewrite app_nil_r.
Qed.

Lemma connectors_built :
  forEach (SvgComplex.connectBody positions) structure []
  = concat (imap (connectorsOf colWidths rowHeights structure) structure).
Proof.
  assert (Hprefix : forall l,
    (forall i b, l !! i = Some b -> structure !! i = Some b) ->
    forEach (SvgComplex.connectBody positions) l []
    = concat (imap (connectorsOf colWidths rowHeights structure) l)).
  { induction l as [|b l IH] using rev_ind; intros Hl; [reflexivity|].
    rewrite forEach_snoc, IH, imap_app, concat_app.
    - cbn [imap concat]. rewrite app_nil_r, Nat.add_0_r.
      apply connect_entry, Hl.
      now rewrite lookup_app_r, Nat.sub_diag by lia.
    - intros i b' Hi. apply Hl. now apply lookup_app_l_Some. }
  now apply Hprefix.
Qed.

End Connectors.

Lemma grid_first (structure : list Branch) :
  SvgComplex.gridOf structure !! 0%nat = Some (Some <$> firstRowOf structure).
Proof.
  unfold SvgComplex.gridOf, firstRowOf. cbn zeta.
  now rewrite mains_built, rights_built by apply length_imap.
Qed.

Lemma grid_second (structure : list Branch) (i : nat)
    (cell : SvgComplex.Cell) :
  imap belowCell structure !! i = Some (Some cell) ->
  exists row, SvgComplex.gridOf structure !! 1%nat = Some row /\
              row !! i = Some (Some cell).
Proof.
  intros Hcell. unfold SvgComplex.gridOf. cbn zeta.
  pose proof (belows_built structure) as Hbelow.
  destruct (forEach SvgComplex.belowBody structure None) as [row|].
  - exists row. split; [reflexivity|].
    destruct Hbelow as (k & _ & -> & Hnone).
    apply lookup_take_Some. split; [exact Hcell|].
    destruct (decide (i < k)%nat) as [Hi|Hi]; [exact Hi|exfalso].
    rewrite Forall_lookup in Hnone.
    specialize (Hnone (i - k)%nat (Some cell)).
    rewrite lookup_drop in Hnone.
    replace (k + (i - k))%nat with i in Hnone by lia.
    now specialize (Hnone Hcell).
  - exfalso. rewrite Forall_lookup in Hbelow.
    now specialize (Hbelow i (Some cell) Hcell).
Qed.

Lemma firstRow_next (structure : list Branch) (i : nat) (b : Branch)
    (r : jsstring) :
  structure !! i = Some b -> present (right b) = Some r ->
  is_Some (firstRowOf structure !! (i + 1)%nat).
Proof.
  intros Hb Hr. destruct (decide (i + 1 < length structure)%nat) as [Hi|Hi].
  - destruct (lookup_lt_is_Some_2 structure (i + 1)%nat Hi) as [b' Hb'].
    exists (mainCell (i + 1) b'). now apply firstRow_main.
  - eexists. apply (firstRow_right structure i b r Hb Hr). lia.
Qed.

Lemma connectors_count (colWidths rowHeights : list Z)
    (structure l : list Branch) :
  (forall i b, l !! i = Some b -> structure !! i = Some b) ->
  length (concat (imap (connectorsOf colWidths rowHeights structure) l))
  = (having right l + having below l)%nat.
Proof.
  induction l as [|b l IH] using rev_ind; intros Hl; [reflexivity|].
  rewrite imap_app, concat_app, length_app, !having_snoc, IH
    by (intros i b' Hi; apply Hl; now apply lookup_app_l_Some).
  cbn [imap concat]. rewrite app_nil_r, Nat.add_0_r.
  assert (Hb : structure !! length l = Some b)
    by (apply Hl; now rewrite lookup_app_r, Nat.sub_diag by lia).
  unfold connectorsOf, belowCell. cbn zeta. rewrite length_app.
  destruct (present (right b)) as [r|] eqn:Hr;
    [destruct (firstRow_next structure _ b r Hb Hr) as [target ->]|];
    destruct (present (below b)); cbn [fmap option_fmap option_map length];
    lia.
Qed.

Lemma along_next (extents : list Z) (i : nat) :
  SvgComplex.along extents (S i)
  = (SvgComplex.along extents i + (nth i extents 0 + SvgComplex.gap))%Z.
Proof. unfold SvgComplex.along. now rewrite forLoop_snoc. Qed.

(** X28. The picture of a structure has one connector for every part on
    the right and one for every part below.  Each joins two boxes of
    the picture: from the right side of a box to the left side of a box
    of the same row that lies at least 70 further right, or from the
    bottom of a box to the top of a box of the same column that lies at
    least 70 further down. *)
Theorem complex_picture_connectors (structure : list Branch) :
  let picture := SvgComplex.generateSvgFlowchartComplex structure in
  length (Svg.svgConnectors picture)
  = (having right structure + having below structure)%nat /\
  Forall
    (fun line =>
       exists a b,
         a ∈ Svg.svgNodes picture /\ b ∈ Svg.svgNodes picture /\
         ((line = across a b /\ Svg.rect_y b = Svg.rect_y a /\
           (Svg.rect_x a + Svg.rect_width a + 70 <= Svg.rect_x b)%Z) \/
          (line = down a b /\ Svg.rect_x b = Svg.rect_x a /\
           (Svg.rect_y a + Svg.rect_height a + 70 <= Svg.rect_y b)%Z)))
    (Svg.svgConnectors picture).
Proof.
  cbn zeta. unfold SvgComplex.generateSvgFlowchartComplex. cbn zeta.
  rewrite grid_drawn.
  cbn [Svg.svgNodes Svg.svgConnectors SvgComplex.drawnNodes
       SvgComplex.nodePositions].
  rewrite connectors_built, grid_mapped.
  set (grid := SvgComplex.gridOf structure).
  set (colWidths := SvgComplex.colWidthsOf grid).
  set (rowHeights := SvgComplex.rowHeightsOf grid).
  split; [now apply connectors_count|].
  destruct (grid_extents grid) as [(_ & _ & Hwcov) (_ & _ & Hhcov)].
  fold colWidths in Hwcov. fold rowHeights in Hhcov.
  pose proof (grid_first structure) as Hfirst. fold grid in Hfirst.
  apply Forall_concat, Forall_lookup. intros i lines Hlines.
  apply list_lookup_imap_Some in Hlines as (b & Hb & ->).
  pose proof (firstRow_main structure i b Hb) as Hmain.
  assert (Hsource :
    boxOf colWidths rowHeights 0 (i, mainCell i b)
    ∈ map (boxOf colWidths rowHeights 0)
        (imap (fun c cell => (c, cell)) (firstRowOf structure))
      ++ map (boxOf colWidths rowHeights 1)
           (cellsOf (imap belowCell structure))).
  { apply elem_of_app. left. apply list_elem_of_fmap.
    exists (i, mainCell i b). split; [reflexivity|].
    apply (list_elem_of_lookup_2 _ i), list_lookup_imap_Some.
    now exists (mainCell i b). }
  assert (Hrow : (Some <$> firstRowOf structure) !! i
                 = Some (Some (mainCell i b)))
    by now rewrite list_lookup_fmap, Hmain.
  destruct (Hwcov 0%nat _ Hfirst i _ Hrow) as (w & Hw & Hwle).
  destruct (Hhcov 0%nat _ Hfirst i _ Hrow) as (h & Hh & Hhle).
  unfold connectorsOf. cbn zeta. apply Forall_app. split.
  - destruct (present (right b)); [|constructor].
    destruct (firstRowOf structure !! (i + 1)%nat) as [target|] eqn:Htarget;
      constructor; [|constructor].
    exists (boxOf colWidths rowHeights 0 (i, mainCell i b)),
      (boxOf colWidths rowHeights 0 ((i + 1)%nat, target)).
    split_and!; [exact Hsource| |].
    + apply elem_of_app. left. apply list_elem_of_fmap.
      exists ((i + 1)%nat, target). split; [reflexivity|].
      apply (list_elem_of_lookup_2 _ (i + 1)%nat), list_lookup_imap_Some.
      now exists target.
    + left. split_and!; [reflexivity|reflexivity|].
      unfold boxOf. cbn [Svg.rect_x Svg.rect_width fst snd].
      replace (i + 1)%nat with (S i) by lia.
      rewrite along_next, (nth_lookup_Some _ _ _ _ Hw).
      unfold SvgComplex.gap. lia.
  - destruct (belowCell i b) as [target|] eqn:Htarget; constructor;
      [|constructor].
    assert (Hcell : imap belowCell structure !! i = Some (Some target)).
    { apply list_lookup_imap_Some. now exists b. }
    exists (boxOf colWidths rowHeights 0 (i, mainCell i b)),
      (boxOf colWidths rowHeights 1 (i, target)).
    split_and!; [exact Hsource| |].
    + apply elem_of_app. right. apply list_elem_of_fmap.
      exists (i, target). split; [reflexivity|]. now apply cellsOf_elem.
    + right. split_and!; [reflexivity|reflexivity|].
      unfold boxOf. cbn [Svg.rect_y Svg.rect_height fst snd].
      rewrite along_next, along_start, (nth_lookup_Some _ _ _ _ Hh).
      unfold SvgComplex.gap. lia.
Qed.
